(** * TalkToDocs: chunking, vector index and retrieval

    A shallow embedding of the retrieval-and-indexing core of the
    [talk_to_docs] package:

    - [core/chunker.py]       ([TextChunker], [Chunk])
    - [core/cleaner.py], [utils/helpers.py] ([TextCleaner.clean])
    - [core/vector_store.py]  ([FaissVectorStore])
    - [core/retriever.py]     ([Retriever.retrieve])
    - [core/rag_pipeline.py]  ([RAGPipeline.answer])
    - [services/ingestion_service.py] ([IngestionService.ingest_path])

    Python [int] is [Z]; a Python [str] is the list of its code points;
    an exception is a value of [exn] returned on the left of a sum.  The
    objects the program mutates (the vector store, the index directory,
    the record of calls made to the external providers) are threaded
    explicitly.  Calls of the logger are left out.

    Scores are kept abstract ([Score]): any type of numbers with an
    inner product and a comparison.  The FAISS index is modelled from
    the behaviour of [faiss.IndexFlatIP] and of its Python wrapper; the
    choice FAISS makes among vectors of equal score is left open
    ([Knn]).  The embedding, generation and file-reading capabilities
    are fields of the environment [Env].  Paths are POSIX paths, and
    two different path strings name two different files. *)

From Stdlib Require Import ZArith NArith List String Ascii Lia Bool.
From Stdlib Require Import QArith Qround Sorting.Sorted Sorting.Permutation DecimalString.
From Stdlib Require DecimalPos DecimalZ.
From stdpp Require Import gmap strings list fin_maps.

Local Open Scope Z_scope.

(* ===================================================================== *)
(** ** Python values *)
(* ===================================================================== *)

(** A Python [str]: the sequence of its Unicode code points. *)
Abbreviation pystr := (list N).

(** A literal of the source, as code points. *)
Definition lit (s : string) : pystr :=
  map N_of_ascii (list_ascii_of_string s).

(** [str(i)] for an [int]. *)
Definition str_of_int (i : Z) : pystr :=
  lit (NilZero.string_of_int (Z.to_int i)).

(** [len(l)] *)
Definition len {A} (l : list A) : Z := Z.of_nat (length l).

(** Exceptions raised by the modelled code.  [ValueError] carries the
    message of the [raise]; [AssertionError] is what the FAISS wrapper
    raises from its [assert]s; [ProviderError] stands for any failure of
    an external capability (embedding, generation, text extraction). *)
Inductive exn : Type :=
| ValueError (msg : pystr)
| FileValidationError (msg : pystr)
| AssertionError
| IndexError
| ProviderError (tag : pystr).

(** The names the specification gives to the [ValueError]s of the source. *)
Definition ConfigurationError : exn :=
  ValueError (lit "chunk_overlap must be smaller than chunk_size").
Definition ShapeMismatchError : exn :=
  ValueError (lit "Embeddings/chunks length mismatch").
Definition DimensionMismatchError : exn := AssertionError.
Definition EmptyDocumentError (file_name : pystr) : exn :=
  ValueError (lit "No text chunks generated for " ++ file_name).

(** [Py_UNICODE_ISSPACE]: the characters [str.strip()] removes and the
    regular expression class [\s] matches on a [str]. *)
Definition py_isspace (c : N) : bool :=
  ((9 <=? c) && (c <=? 13) || (28 <=? c) && (c <=? 32)
   || (c =? 133) || (c =? 160) || (c =? 5760)
   || (8192 <=? c) && (c <=? 8202)
   || (c =? 8232) || (c =? 8233) || (c =? 8239) || (c =? 8287)
   || (c =? 12288))%N.

Fixpoint lstrip (s : pystr) : pystr :=
  match s with
  | [] => []
  | c :: r => if py_isspace c then lstrip r else s
  end.

Definition rstrip (s : pystr) : pystr := rev (lstrip (rev s)).

(** [s.strip()] *)
Definition strip (s : pystr) : pystr := rstrip (lstrip s).

(** A window made of whitespace only (the empty window included). *)
Definition all_whitespace (s : pystr) : bool := forallb py_isspace s.

(** [l[start:stop]] with Python's treatment of negative and
    out-of-range bounds. *)
Definition clamp_index (n i : Z) : Z :=
  if i <? 0 then Z.max (i + n) 0 else Z.min i n.

Definition py_slice {A} (l : list A) (start stop : Z) : list A :=
  let lo := clamp_index (len l) start in
  let hi := clamp_index (len l) stop in
  firstn (Z.to_nat (hi - lo)) (skipn (Z.to_nat lo) l).

(** [l[i]]: negative indices count from the end, anything else out of
    range raises [IndexError]. *)
Definition py_index {A} (l : list A) (i : Z) : exn + A :=
  let j := if i <? 0 then i + len l else i in
  if j <? 0 then inl IndexError
  else match nth_error l (Z.to_nat j) with
       | Some x => inr x
       | None => inl IndexError
       end.

(** [range(start, stop, step)]; [step = 0] raises [ValueError]. *)
Definition range_count (start stop step : Z) : Z :=
  if 0 <? step then
    (if start <? stop then (stop - start - 1) / step + 1 else 0)
  else
    (if stop <? start then (start - stop - 1) / (- step) + 1 else 0).

Definition py_range (start stop step : Z) : exn + list Z :=
  if step =? 0 then inl (ValueError (lit "range() arg 3 must not be zero"))
  else inr (map (fun i => start + Z.of_nat i * step)
                (seq 0 (Z.to_nat (range_count start stop step)))).

(** [sep.join(parts)] *)
Fixpoint join (sep : pystr) (parts : list pystr) : pystr :=
  match parts with
  | [] => []
  | [p] => p
  | p :: r => p ++ sep ++ join sep r
  end.

(** [s.split(sep)] for a separator of one character. *)
Fixpoint split_on (sep : N) (s : pystr) : list pystr :=
  match s with
  | [] => [[]]
  | c :: r =>
      if (c =? sep)%N then [] :: split_on sep r
      else match split_on sep r with
           | [] => [[c]]
           | w :: ws => (c :: w) :: ws
           end
  end.

(** *** pathlib, on POSIX path strings *)

(** The root [pathlib] finds in a path string: ["/"], or ["//"] when
    the string starts with exactly two slashes. *)
Definition path_root (s : pystr) : pystr :=
  match s with
  | c1 :: c2 :: c3 :: _ =>
      if negb (c1 =? 47)%N then []
      else if (c2 =? 47)%N && negb (c3 =? 47)%N then lit "//" else lit "/"
  | [c1; c2] =>
      if negb (c1 =? 47)%N then []
      else if (c2 =? 47)%N then lit "//" else lit "/"
  | [c1] => if (c1 =? 47)%N then lit "/" else []
  | [] => []
  end.

(** The components [pathlib] keeps: the empty ones and ["."] are
    dropped, [".."] stays. *)
Definition path_parts (s : pystr) : list pystr :=
  List.filter (fun x => negb (bool_decide (x = []) || bool_decide (x = lit ".")))
              (split_on 47 s).

(** [os.path.join(a, b)]: an absolute [b] replaces [a]. *)
Definition os_path_join (a b : pystr) : pystr :=
  if bool_decide (head b = Some 47%N) then b
  else match last a with
       | None => b
       | Some z => if (z =? 47)%N then a ++ b else a ++ lit "/" ++ b
       end.

(** [str(Path(s))] *)
Definition path_norm (s : pystr) : pystr :=
  match path_root s ++ join (lit "/") (path_parts s) with
  | [] => lit "."
  | c :: r => c :: r
  end.

(** [str(Path(a) / b)] *)
Definition path_div (a b : pystr) : pystr := path_norm (os_path_join a b).

(* ===================================================================== *)
(** ** core/chunker.py *)
(* ===================================================================== *)

Record Chunk : Type := mkChunk {
  chunk_id : pystr;
  text : pystr;
  source_file : pystr;
  start_char : Z;
  end_char : Z
}.

Record TextChunker : Type := mkTextChunker {
  chunk_size : Z;
  overlap : Z
}.

(** [TextChunker.__init__] *)
Definition TextChunker_init (chunk_size overlap : Z) : exn + TextChunker :=
  if overlap >=? chunk_size then inl ConfigurationError
  else inr (mkTextChunker chunk_size overlap).

(** The body of the [for start in range(...)] loop of [chunk_document];
    [index] and [chunks] are the loop's two mutable locals.  An empty
    window is skipped ([continue]); the loop stops ([break]) after the
    first emitted window that reaches the end of the text. *)
Fixpoint chunk_loop (self : TextChunker) (txt source : pystr)
    (starts : list Z) (index : Z) (chunks : list Chunk) : list Chunk :=
  match starts with
  | [] => chunks
  | start :: rest =>
      let end_ := Z.min (start + chunk_size self) (len txt) in
      let window := strip (py_slice txt start end_) in
      match window with
      | [] => chunk_loop self txt source rest index chunks
      | _ :: _ =>
          let chunks' :=
            chunks ++ [mkChunk (source ++ lit "-" ++ str_of_int index)
                               window source start end_] in
          if end_ =? len txt then chunks'
          else chunk_loop self txt source rest (index + 1) chunks'
      end
  end.

(** [TextChunker.chunk_document] *)
Definition chunk_document (self : TextChunker) (txt source : pystr)
    : exn + list Chunk :=
  let step := chunk_size self - overlap self in
  match py_range 0 (len txt) step with
  | inl e => inl e
  | inr starts => inr (chunk_loop self txt source starts 0 [])
  end.

(* ===================================================================== *)
(** ** core/cleaner.py and utils/helpers.py *)
(* ===================================================================== *)

(** [text.replace("\x00", " ")] *)
Definition replace_nul (s : pystr) : pystr :=
  map (fun c => if (c =? 0)%N then 32%N else c) s.

(** [re.sub(r"[\u200b-\u200f\ufeff]", "", text)]: zero-width characters
    and the byte-order mark are deleted. *)
Definition is_zero_width (c : N) : bool :=
  ((8203 <=? c) && (c <=? 8207) || (c =? 65279))%N.

Definition drop_zero_width (s : pystr) : pystr :=
  filter (fun c => negb (is_zero_width c)) s.

(** [re.sub(r"\n{3,}", "\n\n", text)]: [pending] counts the newlines of
    the run being read. *)
Definition flush_newlines (pending : nat) : pystr :=
  if (3 <=? pending)%nat then [10%N; 10%N] else repeat 10%N pending.

Fixpoint squeeze_newlines (pending : nat) (s : pystr) : pystr :=
  match s with
  | [] => flush_newlines pending
  | c :: r =>
      if (c =? 10)%N then squeeze_newlines (S pending) r
      else flush_newlines pending ++ c :: squeeze_newlines 0 r
  end.

(** [re.sub(r"\s+", " ", text)]: [in_run] tells that the previous
    character was whitespace and already produced its single space. *)
Fixpoint collapse_spaces (in_run : bool) (s : pystr) : pystr :=
  match s with
  | [] => []
  | c :: r =>
      if py_isspace c
      then (if in_run then collapse_spaces true r
            else 32%N :: collapse_spaces true r)
      else c :: collapse_spaces false r
  end.

(** [utils.helpers.normalize_whitespace] *)
Definition normalize_whitespace (s : pystr) : pystr :=
  strip (collapse_spaces false s).

(** [TextCleaner.clean] *)
Definition clean (s : pystr) : pystr :=
  normalize_whitespace (squeeze_newlines 0 (drop_zero_width (replace_nul s))).


(* ===================================================================== *)
(** ** Scalars and arrays *)
(* ===================================================================== *)

(** What the program needs of its floating-point numbers: the inner
    product FAISS computes between two vectors, the comparison [>=] of
    two scores, the score FAISS writes beside a [-1] label, Python's
    [round(x, 4)] and the format [{x:.3f}].  Sorting also orders scores
    by this one comparison, which is how floats behave when no score is
    a NaN. *)
Class Score (F : Type) : Type := {
  inner : list F -> list F -> F;
  score_ge : F -> F -> bool;
  pad_score : F;
  round4 : F -> F;
  format3 : F -> pystr
}.

(** The comparison is a total preorder (no NaN among the scores). *)
Class ScoreOrder (F : Type) `{Score F} : Prop := {
  score_ge_total : forall a b : F, score_ge a b = true \/ score_ge b a = true;
  score_ge_trans : forall a b c : F,
      score_ge a b = true -> score_ge b c = true -> score_ge a c = true
}.

(** Exact rational scores: the instance used to run the model. *)
Definition Q_inner (u v : list Q) : Q :=
  Qred (fold_right Qplus (0#1)%Q (map (fun p => Qmult (fst p) (snd p)) (combine u v))).

(** Rounding to the nearest integer, a tie going to the even one: the
    rounding of [round] and of the format [.3f]. *)
Definition round_half_even (x : Q) : Z :=
  let f := Qfloor x in
  match Qcompare (Qminus x (inject_Z f)) (1 # 2) with
  | Lt => f
  | Gt => f + 1
  | Eq => if Z.even f then f else f + 1
  end.

Definition Q_round4 (x : Q) : Q :=
  Qred (Qmake (round_half_even (Qmult x (10000#1))) 10000).

(** The sign is that of the number, also when it rounds to zero. *)
Definition Q_format3 (x : Q) : pystr :=
  let m := round_half_even (Qmult x (1000#1)) in
  let frac := str_of_int (Z.abs m mod 1000) in
  (if Qnum x <? 0 then lit "-" else []) ++ str_of_int (Z.abs m / 1000) ++ lit "."
    ++ repeat 48%N (3 - length frac) ++ frac.

#[export] Instance Q_Score : Score Q := {|
  inner := Q_inner;
  score_ge := fun a b => Qle_bool b a;
  pad_score := ((-1) # 1)%Q;
  round4 := Q_round4;
  format3 := Q_format3
|}.

(** A NumPy array of rank one or more.  [ncols] is [shape[1]], which
    a two-dimensional array has even when it holds no row.  Of an array
    of rank three or more the program reads the shape only:
    [(n0, n1, n2, ...)]. *)
Inductive ndarray (F : Type) : Type :=
| Arr1 (v : list F)
| Arr2 (ncols : Z) (rows : list (list F))
| ArrN (n0 n1 n2 : Z) (more : list Z).
Arguments Arr1 {F} v.
Arguments Arr2 {F} ncols rows.
Arguments ArrN {F} n0 n1 n2 more.

(** [a.ndim] *)
Definition ndim {F} (a : ndarray F) : Z :=
  match a with
  | Arr1 _ => 1
  | Arr2 _ _ => 2
  | ArrN _ _ _ more => 3 + len more
  end.

(** [len(a)] *)
Definition ndarray_len {F} (a : ndarray F) : Z :=
  match a with
  | Arr1 v => len v
  | Arr2 _ rows => len rows
  | ArrN n0 _ _ _ => n0
  end.

(** [a.shape[1]] *)
Definition shape1 {F} (a : ndarray F) : exn + Z :=
  match a with
  | Arr1 _ => inl IndexError
  | Arr2 ncols _ => inr ncols
  | ArrN _ n1 _ _ => inr n1
  end.

(** [np.expand_dims(query, axis=0)] under [if query.ndim == 1]. *)
Definition as_batch {F} (a : ndarray F) : ndarray F :=
  match a with
  | Arr1 v => Arr2 (len v) [v]
  | Arr2 _ _ => a
  | ArrN _ _ _ _ => a
  end.

(** Python's [sorted(l, key=key, reverse=True)]: a stable sort, so
    elements with equal keys keep their order. *)
Fixpoint insert_desc {F} `{Score F} {A} (key : A -> F) (x : A) (l : list A) : list A :=
  match l with
  | [] => [x]
  | y :: r => if score_ge (key x) (key y) then x :: l
              else y :: insert_desc key x r
  end.

Definition sorted_desc {F} `{Score F} {A} (key : A -> F) (l : list A) : list A :=
  fold_right (insert_desc key) [] l.

(* ===================================================================== *)
(** ** faiss.IndexFlatIP *)
(* ===================================================================== *)

(** The exact inner-product index of the FAISS library: its dimension
    and the stored vectors, in insertion order. *)
Record IndexFlatIP (F : Type) : Type := mkIndexFlatIP {
  d : Z;
  xb : list (list F)
}.
Arguments mkIndexFlatIP {F} d xb.
Arguments d {F} i.
Arguments xb {F} i.

Definition ntotal {F} (idx : IndexFlatIP F) : Z := len (xb idx).

(** What [n, d = x.shape] raises for an array that is not of rank
    two: a [ValueError], with the message of CPython 3.8 to 3.13. *)
Definition unpack_error {F} (x : ndarray F) : exn :=
  match x with
  | Arr1 _ => ValueError (lit "not enough values to unpack (expected 2, got 1)")
  | _ => ValueError (lit "too many values to unpack (expected 2)")
  end.

(** [index.add(x)]: the Python wrapper unpacks [n, d = x.shape] and
    asserts [d == self.d] before the vectors are appended. *)
Definition IndexFlatIP_add {F} (idx : IndexFlatIP F) (x : ndarray F)
    : exn + IndexFlatIP F :=
  match x with
  | Arr2 ncols rows =>
      if ncols =? d idx then inr (mkIndexFlatIP (d idx) (xb idx ++ rows))
      else inl AssertionError
  | _ => inl (unpack_error x)
  end.

(** The choice of the [k] nearest neighbours.  FAISS returns the [k]
    entries of greatest score, best first; which of several entries of
    equal score comes first, and which of them stay when [k] cuts
    through them, is decided inside the library.  [knn k l] stands for
    the entries it selects among the scored positions [l], in the
    order it returns them. *)
Class Knn (F : Type) : Type := {
  knn : nat -> list (Z * F) -> list (Z * F)
}.

Section Search.
Context {F : Type} `{Score F} `{Knn F}.

(** Position and score of every stored vector for one query row. *)
Definition scored (idx : IndexFlatIP F) (q : list F) : list (Z * F) :=
  imap (fun i v => (Z.of_nat i, inner q v)) (xb idx).

(** One row of the result of a search, of [k] columns: the entries
    FAISS selects, then label [-1] in the columns left when fewer than
    [k] vectors are stored. *)
Definition search_row (idx : IndexFlatIP F) (k : Z) (q : list F) : list (Z * F) :=
  let best := knn (Z.to_nat k) (scored idx q) in
  firstn (Z.to_nat k) (best ++ repeat (-1, pad_score) (Z.to_nat k)).

(** [index.search(x, k)]: the wrapper asserts [d == self.d] and
    [k > 0], and returns the pair of arrays (scores, labels), one row
    per query row. *)
Definition IndexFlatIP_search (idx : IndexFlatIP F) (x : ndarray F) (k : Z)
    : exn + (list (list F) * list (list Z)) :=
  match x with
  | Arr2 ncols rows =>
      if negb (ncols =? d idx) then inl AssertionError
      else if negb (0 <? k) then inl AssertionError
      else let res := map (search_row idx k) rows in
           inr (map (map snd) res, map (map fst) res)
  | _ => inl (unpack_error x)
  end.
End Search.

(** With rational scores the model runs with one such choice: among
    equal scores, the position stored first. *)
#[export] Instance Q_Knn : Knn Q := {|
  knn := fun k l => firstn k (sorted_desc snd l)
|}.

(* ===================================================================== *)
(** ** config.py, and the collaborators of the services *)
(* ===================================================================== *)

Module Settings.
(** The fields of [config.Settings] the modelled code reads. *)
Record t (F : Type) : Type := mk {
  index_dir : pystr;
  index_name : pystr;
  retriever_top_k : Z;
  retriever_score_threshold : F
}.
Arguments mk {F} _ _ _ _.
Arguments index_dir {F} _.
Arguments index_name {F} _.
Arguments retriever_top_k {F} _.
Arguments retriever_score_threshold {F} _.
End Settings.

(** A [pathlib.Path], as its directory and its final component. *)
Record Path : Type := mkPath {
  parent : pystr;
  name : pystr
}.

(** A call made to an external capability. *)
Inductive Call : Type :=
| EncodeCall (texts : list pystr)
| GenerateCall (prompt : pystr).

(** The environment of a running application: the global [settings],
    the embedding provider behind [BaseEmbedder.encode], the generation
    provider behind [BaseLLMService.generate], the file readers the
    loader delegates to, the chunker the ingestion service was built
    with, and what [str.lower()] makes of a string that holds a
    character outside ASCII (the case tables of Unicode).  A provider
    answers from its input and from the calls made before, and may
    fail. *)
Class Env (F : Type) : Type := {
  settings : Settings.t F;
  encode_provider : list Call -> list pystr -> exn + ndarray F;
  generate_provider : list Call -> pystr -> exn + pystr;
  read_text : Path -> exn + pystr;
  _read_pdf : Path -> exn + pystr;
  _read_docx : Path -> exn + pystr;
  chunker : TextChunker;
  unicode_lower : pystr -> pystr
}.

(* ===================================================================== *)
(** ** core/vector_store.py *)
(* ===================================================================== *)

(** [asdict(chunk)]: the dictionary with exactly the five fields of the
    dataclass, kept as the record; [item["text"]] is then the field. *)
Definition asdict (c : Chunk) : Chunk := c.

Record FaissVectorStore (F : Type) : Type := mkStore {
  index_name : pystr;
  index_path : pystr;
  meta_path : pystr;
  index : option (IndexFlatIP F);
  metadata : list Chunk
}.
Arguments mkStore {F} _ _ _ _ _.
Arguments index_name {F} _.
Arguments index_path {F} _.
Arguments meta_path {F} _.
Arguments index {F} _.
Arguments metadata {F} _.

(** The index directory: what [faiss.write_index] and
    [Path.write_text(json.dumps(...))] have written, by path.  Both
    serialisations are taken to be faithful: reading a file back gives
    the value that was written. *)
Record Disk (F : Type) : Type := mkDisk {
  faiss_files : gmap pystr (IndexFlatIP F);
  json_files : gmap pystr (list Chunk)
}.
Arguments mkDisk {F} _ _.
Arguments faiss_files {F} _.
Arguments json_files {F} _.

Section VectorStore.
Context {F : Type} `{Score F} `{Knn F} {env : Env F}.

(** [FaissVectorStore.__init__]; [index_name or settings.index_name]
    falls back on the setting for [None] and for the empty string.  The
    two paths are kept as the strings [str(path)] gives. *)
Definition FaissVectorStore_init (index_name : option pystr) : FaissVectorStore F :=
  let nm := match index_name with
            | Some (c :: r) => c :: r
            | Some [] | None => Settings.index_name settings
            end in
  mkStore nm
          (path_div (Settings.index_dir settings) (nm ++ lit ".faiss"))
          (path_div (Settings.index_dir settings) (nm ++ lit ".json"))
          None [].

(** [FaissVectorStore.add].  The new index is assigned to
    [self.index] before the vectors are added to it. *)
Definition add (self : FaissVectorStore F) (embeddings : ndarray F)
    (chunks : list Chunk) : (exn + unit) * FaissVectorStore F :=
  if negb (len chunks =? ndarray_len embeddings)
  then (inl ShapeMismatchError, self)
  else
    match shape1 embeddings with
    | inl e => (inl e, self)
    | inr dim =>
        let idx := match index self with
                   | None => mkIndexFlatIP dim []
                   | Some idx => idx
                   end in
        match IndexFlatIP_add idx embeddings with
        | inl e =>
            (inl e, mkStore (index_name self) (index_path self) (meta_path self)
                            (Some idx) (metadata self))
        | inr idx' =>
            (inr tt, mkStore (index_name self) (index_path self) (meta_path self)
                             (Some idx') (metadata self ++ map asdict chunks))
        end
    end.

(** The [for idx, score in zip(indices[0], scores[0])] loop of
    [search]. *)
Fixpoint search_loop (metadata : list Chunk) (pairs : list (Z * F))
    (results : list (Chunk * F)) : exn + list (Chunk * F) :=
  match pairs with
  | [] => inr results
  | (idx, score) :: rest =>
      if idx =? -1 then search_loop metadata rest results
      else match py_index metadata idx with
           | inl e => inl e
           | inr item => search_loop metadata rest (results ++ [(item, score)])
           end
  end.

(** [FaissVectorStore.search] *)
Definition search (self : FaissVectorStore F) (query_vector : ndarray F)
    (top_k : Z) : exn + list (Chunk * F) :=
  match index self with
  | None => inr []
  | Some idx =>
      if ntotal idx =? 0 then inr []
      else
        let query := as_batch query_vector in
        match IndexFlatIP_search idx query top_k with
        | inl e => inl e
        | inr (scores, indices) =>
            match py_index indices 0 with
            | inl e => inl e
            | inr irow =>
                match py_index scores 0 with
                | inl e => inl e
                | inr srow => search_loop (metadata self) (combine irow srow) []
                end
            end
        end
  end.

(** [FaissVectorStore.save] *)
Definition save (self : FaissVectorStore F) (dsk : Disk F) : Disk F :=
  match index self with
  | None => dsk
  | Some idx =>
      mkDisk (<[index_path self := idx]> (faiss_files dsk))
             (<[meta_path self := metadata self]> (json_files dsk))
  end.

(** [FaissVectorStore.load] *)
Definition load (self : FaissVectorStore F) (dsk : Disk F)
    : bool * FaissVectorStore F :=
  match faiss_files dsk !! index_path self, json_files dsk !! meta_path self with
  | Some idx, Some meta =>
      (true, mkStore (index_name self) (index_path self) (meta_path self)
                     (Some idx) meta)
  | _, _ => (false, self)
  end.

(** [FaissVectorStore.clear] *)
Definition clear (self : FaissVectorStore F) (dsk : Disk F)
    : FaissVectorStore F * Disk F :=
  (mkStore (index_name self) (index_path self) (meta_path self) None [],
   mkDisk (delete (index_path self) (faiss_files dsk))
          (delete (meta_path self) (json_files dsk))).
End VectorStore.

(* ===================================================================== *)
(** ** The state of the application and its monad *)
(* ===================================================================== *)

(** The one vector store the services share, the index directory, and
    the calls made so far to the external providers. *)
Record Sys (F : Type) : Type := mkSys {
  store : FaissVectorStore F;
  disk : Disk F;
  calls : list Call
}.
Arguments mkSys {F} _ _ _.
Arguments store {F} _.
Arguments disk {F} _.
Arguments calls {F} _.

(** A computation that may raise and that updates the state; the
    effects made before a [raise] stay. *)
Definition M (F A : Type) : Type := Sys F -> (exn + A) * Sys F.

Definition ret {F A} (a : A) : M F A := fun s => (inr a, s).

Definition raise {F A} (e : exn) : M F A := fun s => (inl e, s).

Definition bind {F A B} (m : M F A) (k : A -> M F B) : M F B :=
  fun s => match m s with
           | (inl e, s') => (inl e, s')
           | (inr a, s') => k a s'
           end.

Definition lift {F A} (r : exn + A) : M F A := fun s => (r, s).

Notation "'let*' x ':=' c 'in' k" := (bind c (fun x => k))
  (at level 10, x name, c at level 100, k at level 200).

Module RetrievedChunk.
Record t (F : Type) : Type := mk {
  text : pystr;
  source_file : pystr;
  score : F
}.
Arguments mk {F} _ _ _.
Arguments text {F} _.
Arguments source_file {F} _.
Arguments score {F} _.
End RetrievedChunk.

Module Citation.
(** The dictionary [{"rank": .., "source": .., "score": ..}]. *)
Record t (F : Type) : Type := mk {
  rank : Z;
  source : pystr;
  score : F
}.
Arguments mk {F} _ _ _.
Arguments rank {F} _.
Arguments source {F} _.
Arguments score {F} _.
End Citation.

Record IngestionResult : Type := mkIngestionResult {
  file_name : pystr;
  chunks_indexed : Z
}.

Section Services.
Context {F : Type} `{Score F} `{Knn F} {env : Env F}.

(** [self.embedder.encode(texts)] *)
Definition embedder_encode (texts : list pystr) : M F (ndarray F) :=
  fun s => (encode_provider (calls s) texts,
            mkSys (store s) (disk s) (calls s ++ [EncodeCall texts])).

(** [self.llm_service.generate(prompt)] *)
Definition llm_generate (prompt : pystr) : M F pystr :=
  fun s => (generate_provider (calls s) prompt,
            mkSys (store s) (disk s) (calls s ++ [GenerateCall prompt])).

(** [self.vector_store.add(embeddings, chunks)] *)
Definition store_add (embeddings : ndarray F) (chunks : list Chunk) : M F unit :=
  fun s => let '(r, st) := add (store s) embeddings chunks in
           (r, mkSys st (disk s) (calls s)).

(** [self.vector_store.save()] *)
Definition store_save : M F unit :=
  fun s => (inr tt, mkSys (store s) (save (store s) (disk s)) (calls s)).

(** [self.vector_store.search(query_vector, k)] *)
Definition store_search (query_vector : ndarray F) (k : Z) : M F (list (Chunk * F)) :=
  fun s => (search (store s) query_vector k, s).

(** *** core/retriever.py *)

(** [top_k or settings.retriever_top_k] *)
Definition top_k_or_default (top_k : option Z) : Z :=
  match top_k with
  | None => Settings.retriever_top_k settings
  | Some k => if k =? 0 then Settings.retriever_top_k settings else k
  end.

(** The list comprehension of [retrieve]. *)
Definition filter_results (raw_results : list (Chunk * F)) : list (RetrievedChunk.t F) :=
  map (fun r => RetrievedChunk.mk (text (fst r)) (source_file (fst r)) (snd r))
      (List.filter (fun r => score_ge (snd r) (Settings.retriever_score_threshold settings))
                   raw_results).

(** [Retriever.retrieve] *)
Definition retrieve (query : pystr) (top_k : option Z) : M F (list (RetrievedChunk.t F)) :=
  let k := top_k_or_default top_k in
  let* query_vector := embedder_encode [query] in
  let* raw_results := store_search query_vector k in
  let filtered := filter_results raw_results in
  ret (sorted_desc RetrievedChunk.score filtered).

(** *** core/rag_pipeline.py *)

Definition insufficient_information : pystr :=
  lit "I could not find sufficiently relevant information in the indexed documents.".

(** [enumerate(l, start=i)] *)
Fixpoint enumerate {A} (i : Z) (l : list A) : list (Z * A) :=
  match l with
  | [] => []
  | x :: r => (i, x) :: enumerate (i + 1) r
  end.

Definition context_part (idx : Z) (item : RetrievedChunk.t F) : pystr :=
  lit "[" ++ str_of_int idx ++ lit "] Source: " ++ RetrievedChunk.source_file item
    ++ lit " | Relevance: " ++ format3 (RetrievedChunk.score item)
    ++ [10%N] ++ RetrievedChunk.text item.

Definition citation (idx : Z) (item : RetrievedChunk.t F) : Citation.t F :=
  Citation.mk idx (RetrievedChunk.source_file item) (round4 (RetrievedChunk.score item)).

Definition build_prompt (question context : pystr) : pystr :=
  lit "Use the context below to answer the question. "
    ++ lit "Only state information that appears in the context. "
    ++ lit "If the context is insufficient, say so explicitly." ++ [10%N; 10%N]
    ++ lit "Question: " ++ question ++ [10%N; 10%N]
    ++ lit "Context:" ++ [10%N] ++ context ++ [10%N; 10%N]
    ++ lit "Answer with a concise explanation and include references in [n] format.".

(** [RAGPipeline.answer] *)
Definition answer (question : pystr) : M F (pystr * list (Citation.t F)) :=
  let* retrieved := retrieve question None in
  match retrieved with
  | [] => ret (insufficient_information, [])
  | _ :: _ =>
      let numbered := enumerate 1 retrieved in
      let context_parts := map (fun p => context_part (fst p) (snd p)) numbered in
      let citations := map (fun p => citation (fst p) (snd p)) numbered in
      let context := join [10%N; 10%N] context_parts in
      let prompt := build_prompt question context in
      let* answer := llm_generate prompt in
      ret (answer, citations)
  end.

(** *** core/loader.py *)

(** [s.rfind(c)] *)
Fixpoint rfind_from (c : N) (s : pystr) (i last : Z) : Z :=
  match s with
  | [] => last
  | x :: r => rfind_from c r (i + 1) (if (x =? c)%N then i else last)
  end.

Definition rfind (c : N) (s : pystr) : Z := rfind_from c s 0 (-1).

(** [Path.suffix] *)
Definition suffix (p : Path) : pystr :=
  let i := rfind 46%N (name p) in
  if (0 <? i) && (i <? len (name p) - 1)
  then py_slice (name p) i (len (name p))
  else [].

(** [s.lower()]: in an ASCII string the letters A to Z are lowered;
    any other string is lowered by the case tables of Unicode. *)
Definition lower (s : pystr) : pystr :=
  if forallb (fun c => (c <? 128)%N) s
  then map (fun c => if ((65 <=? c) && (c <=? 90))%N then (c + 32)%N else c) s
  else unicode_lower s.

(** [DocumentLoader.load_text] *)
Definition load_text (file_path : Path) : exn + pystr :=
  let sfx := lower (suffix file_path) in
  if decide (sfx = lit ".pdf") then _read_pdf file_path
  else if decide (sfx = lit ".txt") then read_text file_path
  else if decide (sfx = lit ".docx") then _read_docx file_path
  else inl (FileValidationError (lit "Unsupported file extension: " ++ sfx)).

(** *** services/ingestion_service.py *)

(** [IngestionService.ingest_path] *)
Definition ingest_path (file_path : Path) : M F IngestionResult :=
  let* raw_text := lift (load_text file_path) in
  let cleaned_text := clean raw_text in
  let* chunks := lift (chunk_document chunker cleaned_text (name file_path)) in
  match chunks with
  | [] => raise (EmptyDocumentError (name file_path))
  | _ :: _ =>
      let* embeddings := embedder_encode (map text chunks) in
      let* _ := store_add embeddings chunks in
      let* _ := store_save in
      ret (mkIngestionResult (name file_path) (len chunks))
  end.
End Services.


(* ===================================================================== *)
(** ** Vocabulary of the statements *)
(* ===================================================================== *)

Section Vocabulary.
Context {F : Type} `{Score F} `{Knn F} {env : Env F}.

(** Scores never increase along the list (equal neighbours allowed). *)
Definition descending {A} (key : A -> F) (l : list A) : Prop :=
  StronglySorted (fun a b => score_ge (key a) (key b) = true) l.

(** Every score is greater than all the scores after it. *)
Definition strictly_descending {A} (key : A -> F) (l : list A) : Prop :=
  StronglySorted (fun a b => score_ge (key a) (key b) = true
                             /\ score_ge (key b) (key a) = false) l.

(** The query row [search] uses: the vector itself, or the first row of
    a batch. *)
Definition first_row (a : ndarray F) : option (list F) :=
  match as_batch a with
  | Arr2 _ (r :: _) => Some r
  | _ => None
  end.

(** The metadata entry stored at the position a label names, with the
    score found for it. *)
Definition decode (meta : list Chunk) (p : Z * F) : option (Chunk * F) :=
  match meta !! Z.to_nat (fst p) with
  | Some item => Some (item, snd p)
  | None => None
  end.

(** The stores a program can reach from [FaissVectorStore(name)] by
    calls of [add], whether they return or raise. *)
Inductive built_by_adds (name : option pystr) : FaissVectorStore F -> Prop :=
| built_init : built_by_adds name (FaissVectorStore_init name)
| built_add self embeddings chunks :
    built_by_adds name self ->
    built_by_adds name (snd (add self embeddings chunks)).

(** The stores reached from [self] by further calls of [add]. *)
Inductive after_adds (self : FaissVectorStore F) : FaissVectorStore F -> Prop :=
| after_none : after_adds self self
| after_add st embeddings chunks :
    after_adds self st ->
    after_adds self (snd (add st embeddings chunks)).

(** The same application with another generation provider. *)
Definition with_generate (generate : list Call -> pystr -> exn + pystr) : Env F :=
  Build_Env F settings encode_provider generate read_text _read_pdf _read_docx chunker
            unicode_lower.

(** Vectors and metadata are parallel. *)
Definition parallel (self : FaissVectorStore F) : Prop :=
  match index self with
  | None => metadata self = []
  | Some idx => length (xb idx) = length (metadata self)
  end.

(** What FAISS promises of its choice, for scores that compare (no
    NaN): it returns [k] entries, or all of them when there are fewer;
    best first; and what it leaves out scores no more than anything it
    returns. *)
Class KnnSpec : Prop := {
  knn_length : forall (k : nat) (l : list (Z * F)),
      length (knn k l) = Nat.min k (length l);
  knn_descending : forall (k : nat) (l : list (Z * F)), descending snd (knn k l);
  knn_best : forall (k : nat) (l : list (Z * F)),
      exists rest,
        Permutation (knn k l ++ rest) l
        /\ Forall (fun r => Forall (fun b => score_ge (snd b) (snd r) = true) (knn k l))
                  rest
}.

(** The embedders of [core/embedder.py] return [np.asarray] of a list
    of vectors, or of the matrix the model computes: an array of rank
    one or two. *)
Class EmbedderRank : Prop :=
  encode_ndim : forall (calls : list Call) (texts : list pystr) (a : ndarray F),
      encode_provider calls texts = inr a -> ndim a <= 2.
End Vocabulary.
Arguments KnnSpec F {_ _}.
Arguments EmbedderRank F {_}.

(* ===================================================================== *)
(** ** A concrete application, with rational scores *)
(* ===================================================================== *)

Module Demo.

(** The defaults of [config.py]; the threshold 0.30 is 3/10. *)
Definition default_settings : Settings.t Q :=
  Settings.mk (lit "./data/indexes") (lit "default_index") 5 (3 # 10)%Q.

(** An embedder that maps every text to the unit vector (1, 0), a
    generator with a fixed reply, a text reader that finds every [.txt]
    file empty, and the chunker of the defaults (700, 120).  The file
    names of the samples are ASCII, so the case tables are not
    consulted. *)
#[export] Instance env : Env Q := {|
  settings := default_settings;
  encode_provider := fun _ texts => inr (Arr2 2 (map (fun _ => [1 # 1; 0 # 1]%Q) texts));
  generate_provider := fun _ _ => inr (lit "generated");
  read_text := fun _ => inr [];
  _read_pdf := fun _ => inl (ProviderError (lit "pdf"));
  _read_docx := fun _ => inl (ProviderError (lit "docx"));
  chunker := mkTextChunker 700 120;
  unicode_lower := fun s => s
|}.

Definition chunk_of (i : Z) (body : string) : Chunk :=
  mkChunk (lit "doc.txt-" ++ str_of_int i) (lit body) (lit "doc.txt") 0 (len (lit body)).

(** The store of a fresh process. *)
Definition fresh : FaissVectorStore Q := FaissVectorStore_init None.

(** An index directory that still holds the two artifacts a former
    process saved under the default name: one vector, one chunk. *)
Definition stale_disk : Disk Q :=
  mkDisk {[ index_path fresh := mkIndexFlatIP 2 [[1 # 1; 0 # 1]%Q] ]}
         {[ meta_path fresh := [chunk_of 0 "alpha"] ]}.

Definition empty_disk : Disk Q := mkDisk ∅ ∅.

(** A fresh store after one call of [add] that was rejected: one
    vector, no chunk. *)
Definition rejected : FaissVectorStore Q :=
  snd (add fresh (Arr2 2 [[1 # 1; 0 # 1]%Q]) []).

(** The same document indexed twice: two equal vectors. *)
Definition twice : FaissVectorStore Q :=
  snd (add (snd (add fresh (Arr2 2 [[1 # 1; 0 # 1]%Q]) [chunk_of 0 "alpha"]))
           (Arr2 2 [[1 # 1; 0 # 1]%Q]) [chunk_of 0 "alpha"]).

(** Seven vectors: six of score at least 0.30 against (1, 0), and one
    of score 0.12. *)
Definition seven : FaissVectorStore Q :=
  snd (add fresh
           (Arr2 2 [[1 # 2; 0 # 1]; [12 # 100; 0 # 1]; [9 # 10; 0 # 1]; [3 # 10; 0 # 1];
                    [1 # 1; 0 # 1]; [7 # 10; 0 # 1]; [4 # 10; 0 # 1]]%Q)
           [chunk_of 0 "a"; chunk_of 1 "b"; chunk_of 2 "c"; chunk_of 3 "d";
            chunk_of 4 "e"; chunk_of 5 "f"; chunk_of 6 "g"]).

(** Unrelated content only: the best match scores 0.12. *)
Definition unrelated : FaissVectorStore Q :=
  snd (add fresh (Arr2 2 [[12 # 100; 0 # 1]; [1 # 10; 1 # 1]]%Q)
           [chunk_of 0 "x"; chunk_of 1 "y"]).

Definition sys_of (st : FaissVectorStore Q) (dsk : Disk Q) : Sys Q := mkSys st dsk [].

End Demo.


(* ===================================================================== *)
(** ** More vocabulary *)
(* ===================================================================== *)

(** The chunk [chunk_document] builds for the window that starts at
    [start], as its [ordinal]-th chunk. *)
Definition window_at (self : TextChunker) (txt source : pystr)
    (ordinal start : Z) : Chunk :=
  let end_ := Z.min (start + chunk_size self) (len txt) in
  mkChunk (source ++ lit "-" ++ str_of_int ordinal)
          (strip (py_slice txt start end_)) source start end_.

(** A string with no whitespace at either end. *)
Definition trimmed (s : pystr) : Prop := lstrip s = s /\ rstrip s = s.

(** No two whitespace characters side by side. *)
Fixpoint single_spaced (s : pystr) : bool :=
  match s with
  | c1 :: r => match r with
               | c2 :: _ => negb (py_isspace c1 && py_isspace c2) && single_spaced r
               | [] => true
               end
  | [] => true
  end.

(** The texts [TextCleaner.clean] produces: no NUL, no zero-width
    character or byte-order mark, no whitespace but the plain space, no
    two spaces in a row, none at either end. *)
Definition cleaned (s : pystr) : Prop :=
  Forall (fun c => c <> 0%N /\ is_zero_width c = false
                   /\ (py_isspace c = true -> c = 32%N)) s
  /\ single_spaced s = true
  /\ trimmed s.

(** A character [clean] turns into whitespace or removes. *)
Definition blank_char (c : N) : bool :=
  py_isspace c || (c =? 0)%N || is_zero_width c.

(** An index name that is one plain path component: not empty, and
    without a slash. *)
Definition plain_name (n : pystr) : Prop := n <> [] /\ 47%N ∉ n.

Section Vocabulary2.
Context {F : Type} `{Score F} `{Knn F} {env : Env F}.

(** The vectors a store holds: none while it has no index. *)
Definition vectors (self : FaissVectorStore F) : list (list F) :=
  match index self with
  | Some idx => xb idx
  | None => []
  end.

(** The states one store and its directory go through, from
    [FaissVectorStore(name)] on an empty directory, under any sequence
    of calls of [add], [save], [load] and [clear]. *)
Inductive lifecycle (name : option pystr) : FaissVectorStore F -> Disk F -> Prop :=
| life_init : lifecycle name (FaissVectorStore_init name) (mkDisk ∅ ∅)
| life_add self dsk embeddings chunks :
    lifecycle name self dsk ->
    lifecycle name (snd (add self embeddings chunks)) dsk
| life_save self dsk :
    lifecycle name self dsk -> lifecycle name self (save self dsk)
| life_load self dsk :
    lifecycle name self dsk -> lifecycle name (snd (load self dsk)) dsk
| life_clear self dsk :
    lifecycle name self dsk ->
    lifecycle name (fst (clear self dsk)) (snd (clear self dsk)).
End Vocabulary2.

(* ===================================================================== *)
(** ** utils/helpers.py, core/embedder.py, core/loader.py: the rest *)
(* ===================================================================== *)

(** [utils.helpers.batch_items]: the batches the generator yields, in
    order; [range] raises for a step of zero when the first batch is
    asked for. *)
Definition batch_items {A : Type} (items : list A) (batch_size : Z) : exn + list (list A) :=
  match py_range 0 (len items) batch_size with
  | inl e => inl e
  | inr starts => inr (map (fun i => py_slice items i (i + batch_size)) starts)
  end.

(** [utils.helpers.mb_to_bytes] *)
Definition mb_to_bytes (size_mb : Z) : Z := size_mb * 1024 * 1024.

Definition ALLOWED_EXTENSIONS : list pystr := [lit ".pdf"; lit ".txt"; lit ".docx"].

(** [str(path)] *)
Definition path_str (p : Path) : pystr :=
  match parent p with
  | [] => name p
  | _ :: _ => parent p ++ lit "/" ++ name p
  end.

Section Validation.
Context {F : Type} {env : Env F}.

(** [utils.helpers.is_allowed_file]; the argument is [Path(file_name)]. *)
Definition is_allowed_file (file_name : Path) : bool :=
  bool_decide (lower (suffix file_name) ∈ ALLOWED_EXTENSIONS).

(** [DocumentLoader.validate_file], for [Path(file_name)] and the
    setting [max_file_size_mb]. *)
Definition validate_file (max_file_size_mb : Z) (file_name : Path) (file_size : Z)
    : exn + unit :=
  if negb (is_allowed_file file_name)
  then inl (FileValidationError
              (lit "Unsupported file type: " ++ suffix file_name
                 ++ lit ". Allowed: PDF, TXT, DOCX"))
  else if mb_to_bytes max_file_size_mb <? file_size
  then inl (FileValidationError
              (lit "File '" ++ path_str file_name ++ lit "' exceeds max size of "
                 ++ str_of_int max_file_size_mb ++ lit " MB"))
  else inr tt.
End Validation.

Section Embedder.
Context {F : Type}.

(** The comprehension [[self._embed_one(item) for item in group]]; the
    first text whose embedding fails raises. *)
Fixpoint embed_group (_embed_one : pystr -> exn + list F) (group : list pystr)
    : exn + list (list F) :=
  match group with
  | [] => inr []
  | item :: rest =>
      match _embed_one item with
      | inl e => inl e
      | inr v =>
          match embed_group _embed_one rest with
          | inl e => inl e
          | inr vs => inr (v :: vs)
          end
      end
  end.

(** The loop [for group in batch_items(texts, 64): vectors.extend(...)]. *)
Fixpoint encode_groups (_embed_one : pystr -> exn + list F)
    (groups : list (list pystr)) (vectors : list (list F)) : exn + list (list F) :=
  match groups with
  | [] => inr vectors
  | group :: rest =>
      match embed_group _embed_one group with
      | inl e => inl e
      | inr vs => encode_groups _embed_one rest (vectors ++ vs)
      end
  end.

(** [np.asarray(vectors, dtype="float32")] for a list of lists: no list
    gives the empty array of rank one, lists of one length give the
    matrix of these rows, lists of different lengths raise. *)
Definition np_asarray (vectors : list (list F)) : exn + ndarray F :=
  match vectors with
  | [] => inr (Arr1 [])
  | v :: _ =>
      if forallb (fun r => (length r =? length v)%nat) vectors
      then inr (Arr2 (len v) vectors)
      else inl (ValueError (lit "inhomogeneous shape"))
  end.

(** [OpenAIEmbedder.encode]; [_embed_one] is the cached call of the
    embeddings API for one text. *)
Definition OpenAIEmbedder_encode (_embed_one : pystr -> exn + list F)
    (texts : list pystr) : exn + ndarray F :=
  match batch_items texts 64 with
  | inl e => inl e
  | inr groups =>
      match encode_groups _embed_one groups [] with
      | inl e => inl e
      | inr vectors => np_asarray vectors
      end
  end.
End Embedder.

(** How the bytes of a file become text: the UTF-8 decoding of
    [read_text(encoding="utf-8", errors="ignore")] and the text
    extraction of the PDF and DOCX libraries. *)
Record Codecs : Type := mkCodecs {
  decode_utf8 : list Byte.byte -> pystr;
  extract_pdf : list Byte.byte -> exn + pystr;
  extract_docx : list Byte.byte -> exn + pystr
}.

Section Uploads.
Context {F : Type} `{Score F} `{Knn F} {env : Env F}.

Definition read_upload {A : Type} (uploads : gmap pystr (list Byte.byte))
    (reader : list Byte.byte -> exn + A) (p : Path) : exn + A :=
  match uploads !! path_str p with
  | Some data => reader data
  | None => inl (ProviderError (lit "FileNotFoundError"))
  end.

(** The application whose loader reads the files of the upload
    directory [uploads]. *)
Definition reading_env (codecs : Codecs) (uploads : gmap pystr (list Byte.byte)) : Env F :=
  Build_Env F settings encode_provider generate_provider
            (read_upload uploads (fun data => inr (decode_utf8 codecs data)))
            (read_upload uploads (extract_pdf codecs))
            (read_upload uploads (extract_docx codecs))
            chunker unicode_lower.

(** [DocumentLoader.save_uploaded_file]: the destination is
    [settings.upload_dir / Path(file_name).name]. *)
Definition save_uploaded_file (upload_dir : pystr) (file_name : Path)
    (data : list Byte.byte) (uploads : gmap pystr (list Byte.byte))
    : Path * gmap pystr (list Byte.byte) :=
  let destination := mkPath upload_dir (name file_name) in
  (destination, <[path_str destination := data]> uploads).

(** [IngestionService.ingest_uploaded_file], on the upload directory
    and the state of the application. *)
Definition ingest_uploaded_file (codecs : Codecs) (max_file_size_mb : Z)
    (upload_dir : pystr) (file_name : Path) (file_bytes : list Byte.byte)
    (uploads : gmap pystr (list Byte.byte)) (sys : Sys F)
    : (exn + IngestionResult) * (gmap pystr (list Byte.byte) * Sys F) :=
  match validate_file max_file_size_mb file_name (len file_bytes) with
  | inl e => (inl e, (uploads, sys))
  | inr _ =>
      let '(saved_path, uploads') :=
        save_uploaded_file upload_dir file_name file_bytes uploads in
      let '(result, sys') :=
        ingest_path (env := reading_env codecs uploads') saved_path sys in
      (result, (uploads', sys'))
  end.
End Uploads.

(* ===================================================================== *)
(** ** More sample data *)
(* ===================================================================== *)

Module Sample.

(** A small chunker and a short text with a blank stretch. *)
Definition small_chunker : TextChunker := mkTextChunker 3 1.
Definition small_text : pystr := lit "ab cd  e".

Definition chunks : list Chunk :=
  match chunk_document small_chunker small_text (lit "doc") with
  | inr l => l
  | inl _ => []
  end.

(** An application whose text files all read ["hello world"]. *)
#[export] Instance env : Env Q := {|
  settings := Demo.default_settings;
  encode_provider := fun _ texts => inr (Arr2 2 (map (fun _ => [1 # 1; 0 # 1]%Q) texts));
  generate_provider := fun _ _ => inr (lit "generated");
  read_text := fun _ => inr (lit "hello world");
  _read_pdf := fun _ => inl (ProviderError (lit "pdf"));
  _read_docx := fun _ => inl (ProviderError (lit "docx"));
  chunker := mkTextChunker 700 120;
  unicode_lower := fun s => s
|}.

(** One embedding per text: its length and the constant one. *)
Definition embed_one (t : pystr) : exn + list Q := inr [len t # 1; 1 # 1]%Q.

(** Bytes read as Latin-1; no PDF or DOCX extraction. *)
Definition codecs : Codecs :=
  mkCodecs (map (fun b => N_of_ascii (ascii_of_byte b)))
           (fun _ => inl (ProviderError (lit "pdf")))
           (fun _ => inl (ProviderError (lit "docx"))).

End Sample.

(* ===================================================================== *)
(** ** Properties of the chunker *)
(* ===================================================================== *)

Lemma lstrip_nil (s : pystr) : lstrip s = [] <-> all_whitespace s = true.
Proof.
  induction s as [|c r IH]; simpl; [tauto|].
  destruct (py_isspace c); simpl; [exact IH|].
  split; discriminate.
Qed.

Lemma all_whitespace_rev (s : pystr) : all_whitespace (rev s) = all_whitespace s.
Proof.
  unfold all_whitespace.
  induction s as [|c r IH]; simpl; [reflexivity|].
  rewrite forallb_app, IH. simpl. rewrite andb_true_r. apply andb_comm.
Qed.

Lemma lstrip_all_whitespace (s : pystr) :
  all_whitespace (lstrip s) = all_whitespace s.
Proof.
  induction s as [|c r IH]; simpl; [reflexivity|].
  destruct (py_isspace c) eqn:E; simpl; [exact IH|].
  rewrite E. reflexivity.
Qed.

(** [strip] leaves nothing exactly when the string is all whitespace. *)
Lemma strip_nil (s : pystr) : strip s = [] <-> all_whitespace s = true.
Proof.
  unfold strip, rstrip.
  rewrite <- (lstrip_all_whitespace s), <- (all_whitespace_rev (lstrip s)).
  rewrite <- lstrip_nil.
  split; intros E.
  - apply (f_equal (@rev N)) in E. rewrite rev_involutive in E. exact E.
  - rewrite E. reflexivity.
Qed.

Lemma strip_cons (s : pystr) :
  all_whitespace s = false -> exists c r, strip s = c :: r.
Proof.
  intros E. destruct (strip s) as [|c r] eqn:S; [|eauto].
  apply strip_nil in S. congruence.
Qed.

(** One turn of the loop on a window that is not empty after [strip]. *)
Lemma chunk_loop_emit self txt source start rest index chunks :
  all_whitespace (py_slice txt start (Z.min (start + chunk_size self) (len txt))) = false ->
  chunk_loop self txt source (start :: rest) index chunks =
    let end_ := Z.min (start + chunk_size self) (len txt) in
    let chunks' :=
      chunks ++ [mkChunk (source ++ lit "-" ++ str_of_int index)
                         (strip (py_slice txt start end_)) source start end_] in
    if end_ =? len txt then chunks'
    else chunk_loop self txt source rest (index + 1) chunks'.
Proof.
  intros E. destruct (strip_cons _ E) as (c & r & S).
  cbn [chunk_loop]. rewrite S. reflexivity.
Qed.

(** One turn of the loop on an all-whitespace window: it is skipped and
    takes no ordinal. *)
Lemma chunk_loop_skip self txt source start rest index chunks :
  all_whitespace (py_slice txt start (Z.min (start + chunk_size self) (len txt))) = true ->
  chunk_loop self txt source (start :: rest) index chunks =
    chunk_loop self txt source rest index chunks.
Proof.
  intros E. apply strip_nil in E. cbn [chunk_loop]. rewrite E. reflexivity.
Qed.

(** C6. [TextChunker(chunk_size, overlap)] raises the configuration
    error exactly when [overlap >= chunk_size], and otherwise builds the
    chunker with these two values; equal values are rejected. *)
Theorem TextChunker_init_error_iff (size ovl : Z) :
  (TextChunker_init size ovl = inl ConfigurationError <-> ovl >= size)
  /\ (TextChunker_init size ovl = inr (mkTextChunker size ovl) <-> ovl < size)
  /\ TextChunker_init size size = inl ConfigurationError.
Proof.
  unfold TextChunker_init.
  repeat split.
  - destruct (Z.geb_spec ovl size); [lia|discriminate].
  - intros Hge. destruct (Z.geb_spec ovl size); [reflexivity|lia].
  - destruct (Z.geb_spec ovl size); [discriminate|lia].
  - intros Hlt. destruct (Z.geb_spec ovl size); [lia|reflexivity].
  - destruct (Z.geb_spec size size); [reflexivity|lia].
Qed.

(** C2. A text of 2,000 characters none of whose windows is all
    whitespace, chunked with [chunk_size=700], [overlap=120] and source
    ["doc"], gives exactly four chunks: they start at 0, 580, 1160 and
    1740, the last one ends at 2000 (clipped to the end of the text),
    and their ids are ["doc-0"] to ["doc-3"]. *)
Theorem chunk_document_2000_700_120 (txt : pystr) :
  len txt = 2000 ->
  (forall start, In start [0; 580; 1160; 1740] ->
     all_whitespace (py_slice txt start (Z.min (start + 700) 2000)) = false) ->
  exists tc c0 c1 c2 c3,
    TextChunker_init 700 120 = inr tc
    /\ chunk_document tc txt (lit "doc") = inr [c0; c1; c2; c3]
    /\ map start_char [c0; c1; c2; c3] = [0; 580; 1160; 1740]
    /\ map end_char [c0; c1; c2; c3] = [700; 1280; 1860; 2000]
    /\ map chunk_id [c0; c1; c2; c3]
       = [lit "doc-0"; lit "doc-1"; lit "doc-2"; lit "doc-3"]
    /\ map source_file [c0; c1; c2; c3] = [lit "doc"; lit "doc"; lit "doc"; lit "doc"]
    /\ map text [c0; c1; c2; c3]
       = [strip (py_slice txt 0 700); strip (py_slice txt 580 1280);
          strip (py_slice txt 1160 1860); strip (py_slice txt 1740 2000)].
Proof.
  intros Hlen Hws.
  assert (Hrun : chunk_document (mkTextChunker 700 120) txt (lit "doc")
    = inr [mkChunk (lit "doc-0") (strip (py_slice txt 0 700)) (lit "doc") 0 700;
           mkChunk (lit "doc-1") (strip (py_slice txt 580 1280)) (lit "doc") 580 1280;
           mkChunk (lit "doc-2") (strip (py_slice txt 1160 1860)) (lit "doc") 1160 1860;
           mkChunk (lit "doc-3") (strip (py_slice txt 1740 2000)) (lit "doc") 1740 2000]).
  { unfold chunk_document. cbn [chunk_size overlap]. rewrite Hlen.
    change (py_range 0 2000 (700 - 120)) with (@inr exn _ [0; 580; 1160; 1740]).
    cbv beta iota.
    rewrite chunk_loop_emit; cbn [chunk_size]; rewrite Hlen;
      [|apply Hws; simpl; tauto].
    change (Z.min (0 + 700) 2000 =? 2000) with false; cbv iota zeta.
    rewrite chunk_loop_emit; cbn [chunk_size]; rewrite Hlen;
      [|apply Hws; simpl; tauto].
    change (Z.min (580 + 700) 2000 =? 2000) with false; cbv iota zeta.
    rewrite chunk_loop_emit; cbn [chunk_size]; rewrite Hlen;
      [|apply Hws; simpl; tauto].
    change (Z.min (1160 + 700) 2000 =? 2000) with false; cbv iota zeta.
    rewrite chunk_loop_emit; cbn [chunk_size]; rewrite Hlen;
      [|apply Hws; simpl; tauto].
    change (Z.min (1740 + 700) 2000 =? 2000) with true; cbv iota zeta.
    reflexivity. }
  exists (mkTextChunker 700 120). do 4 eexists.
  split; [reflexivity|]. split; [exact Hrun|].
  repeat split; reflexivity.
Qed.

Lemma chunk_document_2000_700_120_witness :
  exists tc c0 c1 c2 c3,
    TextChunker_init 700 120 = inr tc
    /\ chunk_document tc (repeat 97%N 2000) (lit "doc") = inr [c0; c1; c2; c3]
    /\ map start_char [c0; c1; c2; c3] = [0; 580; 1160; 1740]
    /\ map end_char [c0; c1; c2; c3] = [700; 1280; 1860; 2000]
    /\ map chunk_id [c0; c1; c2; c3]
       = [lit "doc-0"; lit "doc-1"; lit "doc-2"; lit "doc-3"]
    /\ map source_file [c0; c1; c2; c3] = [lit "doc"; lit "doc"; lit "doc"; lit "doc"]
    /\ map text [c0; c1; c2; c3]
       = [strip (py_slice (repeat 97%N 2000) 0 700);
          strip (py_slice (repeat 97%N 2000) 580 1280);
          strip (py_slice (repeat 97%N 2000) 1160 1860);
          strip (py_slice (repeat 97%N 2000) 1740 2000)].
Proof.
  apply (chunk_document_2000_700_120 (repeat 97%N 2000)).
  - vm_compute. reflexivity.
  - intros start Hin. simpl in Hin.
    destruct Hin as [<-|[<-|[<-|[<-|[]]]]]; vm_compute; reflexivity.
Defined.

(* ===================================================================== *)
(** ** Properties of the vector store: add, save, load, clear *)
(* ===================================================================== *)

Section StoreProperties.
Context {F : Type} `{Score F} `{Knn F} {env : Env F}.

Lemma add_shape_mismatch (self : FaissVectorStore F) embeddings chunks :
  len chunks <> ndarray_len embeddings ->
  add self embeddings chunks = (inl ShapeMismatchError, self).
Proof.
  intros Hne. unfold add.
  destruct (Z.eqb_spec (len chunks) (ndarray_len embeddings)); [contradiction|].
  reflexivity.
Qed.

Lemma add_first (self : FaissVectorStore F) dim rows chunks :
  index self = None -> len chunks = len rows ->
  add self (Arr2 dim rows) chunks =
    (inr tt, mkStore (index_name self) (index_path self) (meta_path self)
                     (Some (mkIndexFlatIP dim rows))
                     (metadata self ++ map asdict chunks)).
Proof.
  intros Hidx Hlen. unfold add. cbn [ndarray_len shape1].
  rewrite Hlen, Z.eqb_refl, Hidx. cbn. rewrite Z.eqb_refl. reflexivity.
Qed.

Lemma add_next (self : FaissVectorStore F) idx rows chunks :
  index self = Some idx -> len chunks = len rows ->
  add self (Arr2 (d idx) rows) chunks =
    (inr tt, mkStore (index_name self) (index_path self) (meta_path self)
                     (Some (mkIndexFlatIP (d idx) (xb idx ++ rows)))
                     (metadata self ++ map asdict chunks)).
Proof.
  intros Hidx Hlen. unfold add. cbn [ndarray_len shape1].
  rewrite Hlen, Z.eqb_refl, Hidx. cbn. rewrite Z.eqb_refl. reflexivity.
Qed.

Lemma add_dimension_mismatch (self : FaissVectorStore F) idx dim rows chunks :
  index self = Some idx -> len chunks = len rows -> dim <> d idx ->
  add self (Arr2 dim rows) chunks = (inl DimensionMismatchError, self).
Proof.
  intros Hidx Hlen Hne. unfold add. cbn [ndarray_len shape1].
  rewrite Hlen, Z.eqb_refl, Hidx. cbn.
  destruct (Z.eqb_spec dim (d idx)); [contradiction|].
  destruct self; cbn in *. subst. reflexivity.
Qed.

(** A call of [add] that raises leaves the store as it was, when the
    index exists already or the array is of rank one or two. *)
Lemma add_raise_unchanged (self : FaissVectorStore F) embeddings chunks e :
  index self <> None \/ ndim embeddings <= 2 ->
  fst (add self embeddings chunks) = inl e ->
  snd (add self embeddings chunks) = self.
Proof.
  intros Hcase. unfold add.
  destruct (len chunks =? ndarray_len embeddings); cbn; [|reflexivity].
  destruct embeddings as [v|dim rows|n0 n1 n2 more]; cbn; [reflexivity| |].
  - destruct (index self) as [idx|] eqn:Hidx; cbn.
    + destruct (dim =? d idx); cbn; [discriminate|].
      intros _. destruct self; cbn in *. subst. reflexivity.
    + rewrite Z.eqb_refl. cbn. discriminate.
  - destruct (index self) as [idx|] eqn:Hidx; cbn.
    + intros _. destruct self; cbn in *. subst. reflexivity.
    + exfalso. destruct Hcase as [Hc|Hc]; [contradiction|].
      cbn in Hc. unfold len in Hc. lia.
Qed.

Lemma add_keeps_paths (self : FaissVectorStore F) embeddings chunks :
  let st := snd (add self embeddings chunks) in
  index_name st = index_name self /\ index_path st = index_path self
  /\ meta_path st = meta_path self.
Proof.
  unfold add.
  destruct (len chunks =? ndarray_len embeddings); cbn; [|tauto].
  destruct (shape1 embeddings); cbn; [tauto|].
  destruct (IndexFlatIP_add _ _); cbn; tauto.
Qed.

(** Once the index exists its dimension never changes. *)
Lemma add_keeps_dimension (self : FaissVectorStore F) idx embeddings chunks :
  index self = Some idx ->
  exists idx', index (snd (add self embeddings chunks)) = Some idx' /\ d idx' = d idx.
Proof.
  intros Hidx. unfold add.
  destruct (len chunks =? ndarray_len embeddings); cbn; [|eauto].
  destruct embeddings as [v|dim rows|n0 n1 n2 more]; cbn; [eauto| |].
  - rewrite Hidx. cbn. destruct (dim =? d idx); cbn; eauto.
  - rewrite Hidx. cbn. eauto.
Qed.

Lemma after_adds_keeps_dimension (self st : FaissVectorStore F) idx :
  after_adds self st -> index self = Some idx ->
  exists idx', index st = Some idx' /\ d idx' = d idx.
Proof.
  induction 1 as [|st embeddings chunks _ IH]; intros Hidx; [eauto|].
  destruct (IH Hidx) as (idx1 & H1 & D1).
  destruct (add_keeps_dimension st idx1 embeddings chunks H1) as (idx2 & H2 & D2).
  exists idx2. split; [exact H2|congruence].
Qed.

(** [add] keeps vectors and metadata parallel. *)
Lemma add_parallel (self : FaissVectorStore F) embeddings chunks :
  parallel self -> parallel (snd (add self embeddings chunks)).
Proof.
  unfold parallel, add. intros Hp.
  destruct (Z.eqb_spec (len chunks) (ndarray_len embeddings)) as [Hlen|]; cbn; [|exact Hp].
  destruct embeddings as [v|dim rows|n0 n1 n2 more]; cbn in *; [exact Hp| |].
  - assert (Hl : length chunks = length rows) by (unfold len in Hlen; lia).
    destruct (index self) as [idx|]; cbn.
    + destruct (dim =? d idx); cbn; [|exact Hp].
      rewrite !length_app, length_map. lia.
    + rewrite Z.eqb_refl. cbn. rewrite Hp. cbn. rewrite length_map. lia.
  - destruct (index self) as [idx|]; cbn; [exact Hp|].
    rewrite Hp. reflexivity.
Qed.

Lemma built_by_adds_parallel name (self : FaissVectorStore F) :
  built_by_adds name self -> parallel self.
Proof.
  induction 1; [reflexivity|]. apply add_parallel. assumption.
Qed.

Lemma built_by_adds_paths name (self : FaissVectorStore F) :
  built_by_adds name self ->
  index_name self = index_name (FaissVectorStore_init name)
  /\ index_path self = index_path (FaissVectorStore_init name)
  /\ meta_path self = meta_path (FaissVectorStore_init name).
Proof.
  induction 1 as [|st embeddings chunks _ IH]; [tauto|].
  destruct (add_keeps_paths st embeddings chunks) as (A & B & C).
  destruct IH as (A' & B' & C'). repeat split; congruence.
Qed.

(** A store built under the name of another store has its paths. *)
Lemma init_same_name (name : option pystr) :
  FaissVectorStore_init (Some (index_name (FaissVectorStore_init name)))
  = FaissVectorStore_init name.
Proof.
  unfold FaissVectorStore_init. cbn.
  destruct name as [[|c r]|]; cbn; try reflexivity;
    destruct (Settings.index_name settings); reflexivity.
Qed.

(** C4. [add] raises the shape error whenever the number of chunks
    differs from the number of vectors, and the store is then
    unchanged.  The first [add] that returns on a store without index
    creates the index with the width of its vectors as dimension; after
    it, however many calls of [add] follow, a call with vectors of
    another width raises and changes nothing, and the error it raises
    is the dimension error (unless the number of chunks is wrong too,
    which the shape error reports first). *)
Theorem add_shape_and_dimension_errors (self : FaissVectorStore F) :
  (forall embeddings chunks,
      len chunks <> ndarray_len embeddings ->
      add self embeddings chunks = (inl ShapeMismatchError, self))
  /\ (forall dim rows chunks st,
      index self = None ->
      add self (Arr2 dim rows) chunks = (inr tt, st) ->
      (exists idx, index st = Some idx /\ d idx = dim)
      /\ forall st', after_adds st st' ->
         forall dim' rows' chunks',
           dim' <> dim ->
           exists e,
             add st' (Arr2 dim' rows') chunks' = (inl e, st')
             /\ (len chunks' = len rows' -> e = DimensionMismatchError)
             /\ (len chunks' <> len rows' -> e = ShapeMismatchError)).
Proof.
  split; [apply add_shape_mismatch|].
  intros dim rows chunks st Hnone Hadd.
  assert (Hlen : len chunks = len rows).
  { destruct (Z.eq_dec (len chunks) (len rows)) as [E|E]; [exact E|].
    rewrite (add_shape_mismatch self (Arr2 dim rows) chunks E) in Hadd.
    discriminate. }
  rewrite (add_first self dim rows chunks Hnone Hlen) in Hadd.
  injection Hadd as <-.
  split; [eexists; split; reflexivity|].
  intros st' Hafter dim' rows' chunks' Hne.
  destruct (after_adds_keeps_dimension _ st' _ Hafter eq_refl) as (idx' & Hidx' & Hd).
  cbn in Hd.
  destruct (Z.eq_dec (len chunks') (len rows')) as [Hlen'|Hlen'].
  - exists DimensionMismatchError. split; [|split; [reflexivity|contradiction]].
    apply (add_dimension_mismatch st' idx'); [exact Hidx'|exact Hlen'|congruence].
  - exists ShapeMismatchError. split; [|split; [contradiction|reflexivity]].
    apply add_shape_mismatch. exact Hlen'.
Qed.

(** A store whose index exists is read back whole. *)
Lemma load_after_save (self : FaissVectorStore F) (dsk : Disk F) idx :
  index self = Some idx ->
  load (mkStore (index_name self) (index_path self) (meta_path self) None [])
       (save self dsk) = (true, self).
Proof.
  intros Hidx. unfold load, save. rewrite Hidx. cbn.
  rewrite !lookup_insert_eq.
  destruct self; cbn in *. subst. reflexivity.
Qed.

(** C1, as amended.  For a store built by calls of [add] whose index
    exists (some call got past the length check), [save()] followed by
    [load()] on a fresh store of the same name returns [True] and
    restores the very same vectors and metadata, so that every search
    gives the same entries, in the same order, with the same scores.
    While the index does not exist, [save()] writes nothing. *)
Theorem save_load_round_trip (name : option pystr) (self : FaissVectorStore F)
    (dsk : Disk F) :
  built_by_adds name self ->
  (index self = None -> save self dsk = dsk)
  /\ (index self <> None ->
      let reloaded := load (FaissVectorStore_init (Some (index_name self)))
                           (save self dsk) in
      fst reloaded = true
      /\ snd reloaded = self
      /\ forall query_vector top_k,
           search (snd reloaded) query_vector top_k = search self query_vector top_k).
Proof.
  intros Hbuilt. split.
  - intros Hnone. unfold save. rewrite Hnone. reflexivity.
  - intros Hsome. destruct (index self) as [idx|] eqn:Hidx; [|contradiction].
    destruct (built_by_adds_paths name self Hbuilt) as (Hn & Hp & Hm).
    assert (Hfresh : FaissVectorStore_init (Some (index_name self))
                     = mkStore (index_name self) (index_path self) (meta_path self) None []).
    { rewrite Hn, init_same_name, Hp, Hm. reflexivity. }
    cbv zeta. rewrite Hfresh, (load_after_save self dsk idx Hidx). cbn.
    repeat split.
Qed.

(** C7. [clear()] always returns; after it the store has no index and
    no metadata and neither artifact exists, whatever the state before;
    a second [clear()] right after it, or a [clear()] of a fresh store
    on an empty directory, changes nothing. *)
Theorem clear_idempotent (self : FaissVectorStore F) (dsk : Disk F) :
  let cleared := clear self dsk in
  index (fst cleared) = None
  /\ metadata (fst cleared) = []
  /\ faiss_files (snd cleared) !! index_path self = None
  /\ json_files (snd cleared) !! meta_path self = None
  /\ clear (fst cleared) (snd cleared) = cleared
  /\ forall name, clear (FaissVectorStore_init name) (mkDisk ∅ ∅)
                  = (FaissVectorStore_init name, mkDisk ∅ ∅).
Proof.
  cbv zeta. unfold clear. cbn [fst snd index metadata faiss_files json_files
    index_name index_path meta_path].
  split; [reflexivity|]. split; [reflexivity|].
  split; [apply lookup_delete_eq|]. split; [apply lookup_delete_eq|].
  split.
  - f_equal. f_equal; apply delete_id; apply lookup_delete_eq.
  - intros name. rewrite !delete_empty. reflexivity.
Qed.
End StoreProperties.

(* ===================================================================== *)
(** ** Properties of sorting and of search *)
(* ===================================================================== *)

Section SortProperties.
Context {F : Type} `{Score F} {A : Type} (key : A -> F).

Lemma insert_desc_perm (x : A) (l : list A) :
  Permutation (insert_desc key x l) (x :: l).
Proof.
  induction l as [|y r IH]; cbn; [reflexivity|].
  destruct (score_ge (key x) (key y)); [reflexivity|].
  rewrite IH. apply perm_swap.
Qed.

(** Sorting neither adds nor loses an element. *)
Lemma sorted_desc_perm (l : list A) : Permutation (sorted_desc key l) l.
Proof.
  induction l as [|x r IH]; cbn; [reflexivity|].
  rewrite insert_desc_perm. constructor. exact IH.
Qed.

Lemma sorted_desc_length (l : list A) : length (sorted_desc key l) = length l.
Proof. apply Permutation_length, sorted_desc_perm. Qed.

Lemma insert_desc_descending `{!ScoreOrder F} (x : A) (l : list A) :
  descending key l -> descending key (insert_desc key x l).
Proof.
  unfold descending.
  induction l as [|y r IH]; cbn; intros Hs.
  - repeat constructor.
  - apply StronglySorted_inv in Hs as [Hr Hy].
    destruct (score_ge (key x) (key y)) eqn:E.
    + constructor; [constructor; assumption|].
      constructor; [exact E|].
      eapply Forall_impl; [exact Hy|].
      intros z Hz. cbn in Hz. eapply score_ge_trans; eassumption.
    + constructor; [apply IH; exact Hr|].
      eapply Permutation_Forall; [symmetry; apply insert_desc_perm|].
      constructor; [|exact Hy].
      destruct (score_ge_total (key x) (key y)); congruence.
Qed.

(** With a total order on scores the result is in descending order. *)
Lemma sorted_desc_descending `{!ScoreOrder F} (l : list A) :
  descending key (sorted_desc key l).
Proof.
  induction l as [|x r IH]; cbn; [constructor|].
  apply insert_desc_descending. exact IH.
Qed.

Lemma descending_firstn (n : nat) (l : list A) :
  descending key l -> descending key (firstn n l).
Proof.
  unfold descending. revert n.
  induction l as [|x r IH]; intros [|n] Hs; cbn; try constructor.
  - apply IH. apply StronglySorted_inv in Hs. tauto.
  - apply StronglySorted_inv in Hs as [_ Hx].
    apply Forall_take. exact Hx.
Qed.
End SortProperties.

Section SearchProperties.
Context {F : Type} `{Score F} `{Knn F} {env : Env F}.

Lemma nth_error_lookup {A} (l : list A) (n : nat) : nth_error l n = l !! n.
Proof.
  revert n. induction l as [|x r IH]; intros [|n]; cbn; auto.
Qed.

Lemma combine_fst_snd {A B} (l : list (A * B)) :
  combine (map fst l) (map snd l) = l.
Proof.
  induction l as [|[a b] r IH]; cbn; [reflexivity|]. rewrite IH. reflexivity.
Qed.

(** The labels the index gives for stored vectors are positions of
    stored vectors, with the inner product as score. *)
Lemma scored_elem (idx : IndexFlatIP F) (q : list F) (p : Z * F) :
  In p (scored idx q) ->
  exists i v, xb idx !! i = Some v /\ p = (Z.of_nat i, inner q v).
Proof.
  intros Hin. apply list_elem_of_In in Hin.
  apply elem_of_lookup_imap in Hin as (i & v & -> & Hv). eauto.
Qed.

Lemma scored_length (idx : IndexFlatIP F) (q : list F) :
  length (scored idx q) = length (xb idx).
Proof. apply length_imap. Qed.

(** No position is decoded for a filling label. *)
Lemma search_loop_pad (meta : list Chunk) (pairs : list (Z * F))
    (acc : list (Chunk * F)) :
  Forall (fun p => fst p = -1) pairs -> search_loop meta pairs acc = inr acc.
Proof.
  induction 1 as [|[i sc] l Hi _ IH]; cbn; [reflexivity|].
  cbn in Hi. subst i. exact IH.
Qed.

Lemma search_loop_app (meta : list Chunk) (l1 l2 : list (Z * F)) acc r :
  search_loop meta l1 acc = inr r ->
  search_loop meta (l1 ++ l2) acc = search_loop meta l2 r.
Proof.
  revert acc. induction l1 as [|[i sc] l1 IH]; cbn; intros acc Hr.
  - congruence.
  - destruct (i =? -1); [apply IH; exact Hr|].
    destruct (py_index meta i); [discriminate|]. apply IH. exact Hr.
Qed.

(** The loop appends at most one result per label. *)
Lemma search_loop_length (meta : list Chunk) (pairs : list (Z * F))
    (acc res : list (Chunk * F)) :
  search_loop meta pairs acc = inr res ->
  (length res <= length acc + length pairs)%nat.
Proof.
  revert acc. induction pairs as [|[i sc] l IH]; cbn; intros acc Hr.
  - injection Hr as <-. lia.
  - destruct (i =? -1).
    + specialize (IH _ Hr). lia.
    + destruct (py_index meta i); [discriminate|].
      specialize (IH _ Hr). rewrite length_app in IH. cbn in IH. lia.
Qed.

(** A row of the result has at most [k] columns. *)
Lemma search_row_length (idx : IndexFlatIP F) (k : Z) (q : list F) :
  (length (search_row idx k q) <= Z.to_nat k)%nat.
Proof. unfold search_row. rewrite length_take. lia. Qed.

(** Labels that are positions of the metadata are all decoded, in
    order. *)
Lemma search_loop_valid (meta : list Chunk) (pairs : list (Z * F))
    (acc : list (Chunk * F)) :
  Forall (fun p => 0 <= fst p < len meta) pairs ->
  exists res, search_loop meta pairs acc = inr (acc ++ res)
              /\ Forall2 (fun p r => decode meta p = Some r) pairs res.
Proof.
  intros Hv. revert acc.
  induction Hv as [|[i sc] l Hi _ IH]; cbn; intros acc.
  - exists []. rewrite app_nil_r. split; [reflexivity|constructor].
  - cbn in Hi. destruct (Z.eqb_spec i (-1)); [lia|].
    unfold py_index.
    destruct (Z.ltb_spec i 0); [lia|].
    destruct (Z.ltb_spec i 0); [lia|].
    destruct (nth_error meta (Z.to_nat i)) as [item|] eqn:E.
    + destruct (IH (acc ++ [(item, sc)])) as (res & Hres & Hdec).
      exists ((item, sc) :: res). rewrite Hres, <- app_assoc. split; [reflexivity|].
      constructor; [|exact Hdec].
      unfold decode. cbn. rewrite <- nth_error_lookup, E. reflexivity.
    + apply nth_error_None in E. unfold len in Hi. lia.
Qed.

Lemma batch_form (query_vector : ndarray F) (dim : Z) (q : list F) :
  shape1 (as_batch query_vector) = inr dim ->
  first_row query_vector = Some q ->
  exists rest, as_batch query_vector = Arr2 dim (q :: rest).
Proof.
  unfold first_row.
  destruct (as_batch query_vector) as [v|c [|r rest]|n0 n1 n2 more]; cbn;
    try discriminate.
  intros [= <-] [= <-]. eauto.
Qed.

(** On a populated index, a query of the index's dimension and a
    positive [top_k] reach the loop, which reads the first row of the
    result. *)
Lemma search_run (self : FaissVectorStore F) idx query_vector top_k q rest :
  index self = Some idx -> ntotal idx <> 0 ->
  as_batch query_vector = Arr2 (d idx) (q :: rest) -> 0 < top_k ->
  search self query_vector top_k
  = search_loop (metadata self) (search_row idx top_k q) [].
Proof.
  intros Hidx Hn Hb Hk. unfold search. rewrite Hidx.
  destruct (Z.eqb_spec (ntotal idx) 0); [contradiction|].
  rewrite Hb. unfold IndexFlatIP_search.
  rewrite Z.eqb_refl. cbn [negb].
  destruct (Z.ltb_spec 0 top_k); [|lia]. cbn [negb map].
  unfold py_index. cbn [Z.ltb Z.compare].
  change (Z.to_nat 0) with 0%nat. cbn [nth_error].
  rewrite combine_fst_snd. reflexivity.
Qed.

(** A search that returns on a populated index was given a query of
    the index's dimension, with a row, and a positive [top_k]. *)
Lemma search_returns_valid (self : FaissVectorStore F) idx query_vector top_k results :
  index self = Some idx -> ntotal idx <> 0 ->
  search self query_vector top_k = inr results ->
  shape1 (as_batch query_vector) = inr (d idx)
  /\ 0 < top_k
  /\ exists q, first_row query_vector = Some q.
Proof.
  intros Hidx Hn. unfold search, first_row. rewrite Hidx.
  destruct (Z.eqb_spec (ntotal idx) 0); [contradiction|].
  destruct (as_batch query_vector) as [v|c rows|n0 n1 n2 more]; cbn;
    [discriminate| |discriminate].
  destruct (Z.eqb_spec c (d idx)); cbn; [|discriminate].
  destruct (Z.ltb_spec 0 top_k); cbn; [|discriminate].
  destruct rows as [|q rest]; cbn; [discriminate|].
  intros _. subst c. eauto.
Qed.

(** Whatever a search returns has at most [top_k] entries. *)
Lemma search_at_most (self : FaissVectorStore F) query_vector top_k results :
  search self query_vector top_k = inr results ->
  len results <= Z.max 0 top_k.
Proof.
  intros Hret.
  assert (Hnil : results = [] -> len results <= Z.max 0 top_k).
  { intros ->. unfold len. cbn. lia. }
  destruct (index self) as [idx|] eqn:Hidx.
  - destruct (Z.eq_dec (ntotal idx) 0) as [Hz|Hn].
    + apply Hnil. unfold search in Hret. rewrite Hidx, Hz in Hret. cbn in Hret. congruence.
    + destruct (search_returns_valid self idx query_vector top_k _ Hidx Hn Hret)
        as (Hshape & Hk & q & Hrow).
      destruct (batch_form _ _ _ Hshape Hrow) as (rest & Hb).
      rewrite (search_run self idx query_vector top_k q rest Hidx Hn Hb Hk) in Hret.
      apply search_loop_length in Hret.
      pose proof (search_row_length idx top_k q). unfold len. cbn in Hret. lia.
  - apply Hnil. unfold search in Hret. rewrite Hidx in Hret. congruence.
Qed.

Lemma decoded_descending (l : list (Z * F)) (res : list (Chunk * F)) meta :
  Forall2 (fun p r => decode meta p = Some r) l res ->
  descending snd l -> descending snd res.
Proof.
  unfold descending.
  induction 1 as [|p r l res Hpr Hrest IH]; intros Hs; [constructor|].
  apply StronglySorted_inv in Hs as [Hl Hp].
  constructor; [apply IH; exact Hl|].
  assert (Hsnd : forall (p : Z * F) (r : Chunk * F),
             decode meta p = Some r -> snd r = snd p).
  { intros p' r'. unfold decode. destruct (meta !! _); [|discriminate].
    intros [= <-]. reflexivity. }
  rewrite (Hsnd _ _ Hpr).
  clear IH Hl. induction Hrest as [|p' r' l res Hpr' _ IH']; constructor.
  - rewrite (Hsnd _ _ Hpr'). apply Forall_inv in Hp. exact Hp.
  - apply IH'. apply Forall_inv_tail in Hp. exact Hp.
Qed.
End SearchProperties.

Section SearchTheorem.
Context {F : Type} `{Score F} `{Knn F} `{!KnnSpec F} {env : Env F}.

(** What FAISS selects is among the scored positions. *)
Lemma knn_elem (k : nat) (l : list (Z * F)) (p : Z * F) : p ∈ knn k l -> p ∈ l.
Proof.
  destruct (knn_best k l) as (rest & Hperm & _).
  intros Hp. rewrite <- Hperm. apply elem_of_app. left. exact Hp.
Qed.

Lemma take_repeat {A} (x : A) (n m : nat) : take n (repeat x m) = repeat x (Nat.min n m).
Proof.
  revert n. induction m as [|m IH]; intros [|n]; cbn; try reflexivity.
  rewrite IH. reflexivity.
Qed.

(** A row of the result: the selected entries, then the filling. *)
Lemma search_row_selected (idx : IndexFlatIP F) (k : Z) (q : list F) :
  exists m, search_row idx k q
            = knn (Z.to_nat k) (scored idx q) ++ repeat (-1, pad_score) m.
Proof.
  unfold search_row. rewrite take_app, take_repeat.
  rewrite take_ge by (rewrite knn_length; lia). eauto.
Qed.

Lemma scored_lookup (idx : IndexFlatIP F) (q : list F) (i : nat) (v : list F) :
  xb idx !! i = Some v -> (Z.of_nat i, inner q v) ∈ scored idx q.
Proof.
  intros Hv. unfold scored.
  apply (elem_of_lookup_imap_2 (fun i v => (Z.of_nat i, inner q v)) _ _ _ Hv).
Qed.

Lemma scored_fst (idx : IndexFlatIP F) (q : list F) :
  map fst (scored idx q) = map Z.of_nat (seq 0 (length (xb idx))).
Proof.
  unfold scored.
  change (map fst (imap (fun i v => (Z.of_nat i, inner q v)) (xb idx)))
    with (fst <$> imap (fun i v => (Z.of_nat i, inner q v)) (xb idx)).
  rewrite fmap_imap.
  apply (imap_seq_0 (xb idx) Z.of_nat).
Qed.

(** No position is selected twice. *)
Lemma knn_NoDup (k : nat) (idx : IndexFlatIP F) (q : list F) :
  NoDup (map fst (knn k (scored idx q))).
Proof.
  destruct (knn_best k (scored idx q)) as (rest & Hperm & _).
  assert (Hall : NoDup (map fst (knn k (scored idx q) ++ rest))).
  { rewrite Hperm, scored_fst. apply (NoDup_fmap_2 Z.of_nat), NoDup_seq. }
  rewrite map_app in Hall. apply NoDup_app in Hall. tauto.
Qed.

(** What a search on a populated index returns: the decoded entries
    FAISS selects for the first row of the query. *)
Lemma search_populated (self : FaissVectorStore F) idx query_vector top_k q :
  index self = Some idx -> ntotal idx <> 0 -> parallel self ->
  shape1 (as_batch query_vector) = inr (d idx) ->
  first_row query_vector = Some q -> 0 < top_k ->
  exists results,
    search self query_vector top_k = inr results
    /\ Forall2 (fun p r => decode (metadata self) p = Some r)
               (knn (Z.to_nat top_k) (scored idx q)) results.
Proof.
  intros Hidx Hn Hpar Hshape Hrow Hk.
  destruct (batch_form _ _ _ Hshape Hrow) as (rest & Hb).
  rewrite (search_run self idx query_vector top_k q rest Hidx Hn Hb Hk).
  destruct (search_row_selected idx top_k q) as (m & ->).
  set (best := knn (Z.to_nat top_k) (scored idx q)).
  assert (Hvalid : Forall (fun p => 0 <= fst p < len (metadata self)) best).
  { apply Forall_forall. intros p Hp.
    apply knn_elem, list_elem_of_In, scored_elem in Hp as (i & v & Hv & ->). cbn.
    apply lookup_lt_Some in Hv.
    unfold parallel in Hpar. rewrite Hidx in Hpar. unfold len. lia. }
  destruct (search_loop_valid (metadata self) best [] Hvalid) as (res & Hres & Hdec).
  exists res. split; [|exact Hdec].
  rewrite (search_loop_app _ _ _ _ _ Hres). apply search_loop_pad.
  apply Forall_forall. intros p Hp.
  apply list_elem_of_In, repeat_spec in Hp. subst p. reflexivity.
Qed.

(** A search that returns on a populated, parallel store returns the
    decoded selection for the first row of the query. *)
Lemma search_selected (self : FaissVectorStore F) idx query_vector top_k results :
  index self = Some idx -> ntotal idx <> 0 -> parallel self ->
  search self query_vector top_k = inr results ->
  exists q,
    first_row query_vector = Some q
    /\ 0 < top_k
    /\ Forall2 (fun p r => decode (metadata self) p = Some r)
               (knn (Z.to_nat top_k) (scored idx q)) results.
Proof.
  intros Hidx Hn Hpar Hret.
  destruct (search_returns_valid self idx query_vector top_k results Hidx Hn Hret)
    as (Hshape & Hk & q & Hrow).
  exists q. split; [exact Hrow|]. split; [exact Hk|].
  destruct (search_populated self idx query_vector top_k q
              Hidx Hn Hpar Hshape Hrow Hk) as (results' & Hres & Hdec).
  assert (results' = results) as -> by congruence.
  exact Hdec.
Qed.

Lemma decode_snd (meta : list Chunk) (p : Z * F) (r : Chunk * F) :
  decode meta p = Some r -> snd r = snd p.
Proof.
  unfold decode. destruct (meta !! _); [|discriminate].
  intros [= <-]. reflexivity.
Qed.

(** The results of a search, by the positions they come from: as many
    as asked for or as there are, best first, no position twice, each
    with the metadata and the score of its position, and no position
    left out scores more than a result. *)
Lemma search_positions (self : FaissVectorStore F) idx query_vector top_k results :
  index self = Some idx -> ntotal idx <> 0 -> parallel self ->
  search self query_vector top_k = inr results ->
  exists (q : list F) (positions : list nat),
    first_row query_vector = Some q
    /\ length results = Nat.min (Z.to_nat top_k) (length (xb idx))
    /\ descending snd results
    /\ NoDup positions
    /\ Forall2 (fun i r => exists v,
                   xb idx !! i = Some v
                   /\ metadata self !! i = Some (fst r)
                   /\ snd r = inner q v) positions results
    /\ (forall (j : nat) v,
          xb idx !! j = Some v -> j ∉ positions ->
          Forall (fun r => score_ge (snd r) (inner q v) = true) results).
Proof.
  intros Hidx Hn Hpar Hret.
  destruct (search_selected self idx query_vector top_k results Hidx Hn Hpar Hret)
    as (q & Hrow & Hk & Hdec).
  set (best := knn (Z.to_nat top_k) (scored idx q)) in *.
  assert (Hsrc : Forall (fun p : Z * F => exists i v,
                   xb idx !! i = Some v /\ p = (Z.of_nat i, inner q v)) best).
  { apply Forall_forall. intros p Hp.
    apply knn_elem, list_elem_of_In in Hp. apply scored_elem. exact Hp. }
  exists q, (map (fun p => Z.to_nat (fst p)) best).
  split; [exact Hrow|]. split.
  { rewrite <- (Forall2_length _ _ _ Hdec). unfold best.
    rewrite knn_length, scored_length. reflexivity. }
  split.
  { eapply decoded_descending; [exact Hdec|]. apply knn_descending. }
  split.
  { rewrite <- (map_map fst Z.to_nat).
    apply (NoDup_fmap_2_strong Z.to_nat); [|apply knn_NoDup].
    intros x y Hx Hy Hxy.
    apply list_elem_of_fmap in Hx as (px & -> & Hpx).
    apply list_elem_of_fmap in Hy as (py & -> & Hpy).
    apply (proj1 (Forall_forall _ _) Hsrc) in Hpx as (ix & vx & _ & ->).
    apply (proj1 (Forall_forall _ _) Hsrc) in Hpy as (iy & vy & _ & ->).
    cbn in *. rewrite !Nat2Z.id in Hxy. congruence. }
  split.
  { apply Forall2_fmap_l.
    clear Hret. induction Hdec as [|p r l res Hpr _ IH]; constructor.
    - apply Forall_inv in Hsrc. destruct Hsrc as (i & v & Hv & ->).
      unfold decode in Hpr. cbn in Hpr. cbn. rewrite Nat2Z.id in *.
      destruct (metadata self !! i) as [item|] eqn:E; [|discriminate].
      injection Hpr as <-. exists v. auto.
    - apply IH. apply Forall_inv_tail in Hsrc. exact Hsrc. }
  intros j v Hv Hj.
  destruct (knn_best (Z.to_nat top_k) (scored idx q)) as (rest & Hperm & Hrest).
  fold best in Hperm, Hrest.
  pose proof (scored_lookup idx q j v Hv) as Hin.
  rewrite <- Hperm in Hin. apply elem_of_app in Hin as [Hin|Hin].
  - exfalso. apply Hj. apply list_elem_of_fmap.
    exists (Z.of_nat j, inner q v). cbn. rewrite Nat2Z.id. auto.
  - apply (proj1 (Forall_forall _ _) Hrest) in Hin. cbn in Hin.
    clear -Hin Hdec. induction Hdec as [|p r l res Hpr _ IH]; constructor.
    + rewrite (decode_snd _ _ _ Hpr). apply Forall_inv in Hin. exact Hin.
    + apply IH. apply Forall_inv_tail in Hin. exact Hin.
Qed.

(** C5. On a store without index, or with an index that holds no
    vector, [search] returns the empty list for every query and every
    [top_k].  On a populated store (vectors and metadata parallel),
    whatever [search] returns for a query and a [top_k] is a list of
    [min(top_k, ntotal)] entries (at most [top_k], and nothing in place
    of the missing ones), in descending order of score; every entry
    pairs the metadata stored at a position of the index with the inner
    product of the query and the vector at that position, so no entry
    stands for the label [-1]; no position comes twice, and no stored
    vector that was left out scores more than an entry returned.  And
    [search] does return for every query of the index's dimension and
    every positive [top_k]. *)
Theorem search_top_k (self : FaissVectorStore F) (query_vector : ndarray F)
    (top_k : Z) :
  ((index self = None \/ exists idx, index self = Some idx /\ ntotal idx = 0) ->
   search self query_vector top_k = inr [])
  /\ (forall idx results,
      index self = Some idx -> ntotal idx <> 0 -> parallel self ->
      search self query_vector top_k = inr results ->
      exists q,
        first_row query_vector = Some q
        /\ len results = Z.min top_k (ntotal idx)
        /\ len results <= top_k
        /\ descending snd results
        /\ Forall (fun r => exists i v,
                       xb idx !! i = Some v
                       /\ metadata self !! i = Some (fst r)
                       /\ snd r = inner q v) results
        /\ exists positions : list nat,
             NoDup positions
             /\ Forall2 (fun i r => exists v,
                            xb idx !! i = Some v
                            /\ metadata self !! i = Some (fst r)
                            /\ snd r = inner q v) positions results
             /\ (forall (j : nat) v,
                   xb idx !! j = Some v -> j ∉ positions ->
                   Forall (fun r => score_ge (snd r) (inner q v) = true) results))
  /\ (forall idx q,
      index self = Some idx -> ntotal idx <> 0 -> parallel self ->
      shape1 (as_batch query_vector) = inr (d idx) ->
      first_row query_vector = Some q -> 0 < top_k ->
      exists results, search self query_vector top_k = inr results).
Proof.
  split; [|split].
  - intros [Hnone|(idx & Hidx & Hzero)]; unfold search.
    + rewrite Hnone. reflexivity.
    + rewrite Hidx, Hzero. reflexivity.
  - intros idx results Hidx Hn Hpar Hret.
    destruct (search_returns_valid self idx query_vector top_k results Hidx Hn Hret)
      as (_ & Hk & _).
    destruct (search_positions self idx query_vector top_k results Hidx Hn Hpar Hret)
      as (q & positions & Hrow & Hlen & Hdesc & Hnd & Hpos & Hbest).
    exists q. split; [exact Hrow|].
    split; [unfold len, ntotal, len; lia|].
    split; [unfold len; lia|].
    split; [exact Hdesc|].
    split; [|exists positions; auto].
    clear -Hpos. induction Hpos as [|i r l res (v & Hv & Hm & Hs) _ IH]; constructor.
    + exists i, v. auto.
    + exact IH.
  - intros idx q Hidx Hn Hpar Hshape Hrow Hk.
    destruct (search_populated self idx query_vector top_k q
                Hidx Hn Hpar Hshape Hrow Hk) as (results & Hres & _).
    eauto.
Qed.
End SearchTheorem.

(* ===================================================================== *)
(** ** Properties of retrieval, answering and ingestion *)
(* ===================================================================== *)

Section ServiceProperties.
Context {F : Type} `{Score F} `{Knn F} {env : Env F}.

(** [retrieve] unfolded: one call of the embedder, one search, the
    filter and the sort. *)
Lemma retrieve_run (query : pystr) (top_k : option Z) (sys : Sys F) :
  retrieve query top_k sys =
    let sys' := mkSys (store sys) (disk sys) (calls sys ++ [EncodeCall [query]]) in
    match encode_provider (calls sys) [query] with
    | inl e => (inl e, sys')
    | inr query_vector =>
        match search (store sys) query_vector (top_k_or_default top_k) with
        | inl e => (inl e, sys')
        | inr raw_results =>
            (inr (sorted_desc RetrievedChunk.score (filter_results raw_results)), sys')
        end
    end.
Proof.
  unfold retrieve, bind, embedder_encode, store_search, ret. cbn.
  destruct (encode_provider (calls sys) [query]); [reflexivity|].
  cbn. destruct (search _ _ _); reflexivity.
Qed.

Lemma filter_results_threshold (raw_results : list (Chunk * F)) :
  Forall (fun r => score_ge (RetrievedChunk.score r)
                            (Settings.retriever_score_threshold settings) = true)
         (filter_results raw_results).
Proof.
  unfold filter_results.
  induction raw_results as [|r l IH]; cbn; [constructor|].
  destruct (score_ge (snd r) _) eqn:E; cbn; [constructor; assumption|exact IH].
Qed.

Lemma filter_results_none (raw_results : list (Chunk * F)) :
  Forall (fun r => score_ge (snd r) (Settings.retriever_score_threshold settings) = false)
         raw_results ->
  filter_results raw_results = [].
Proof.
  unfold filter_results.
  induction 1 as [|r l Hr _ IH]; cbn; [reflexivity|].
  rewrite Hr. exact IH.
Qed.

Lemma filter_results_keeps (raw_results : list (Chunk * F)) item score :
  In (item, score) raw_results ->
  score_ge score (Settings.retriever_score_threshold settings) = true ->
  In (RetrievedChunk.mk (text item) (source_file item) score)
     (filter_results raw_results).
Proof.
  intros Hin Hge. unfold filter_results.
  apply (in_map (fun r => RetrievedChunk.mk (text (fst r)) (source_file (fst r)) (snd r))
                _ (item, score)).
  apply filter_In. split; [exact Hin|exact Hge].
Qed.

(** C3, as amended.  Whatever [retrieve] returns holds no item whose
    score is below the threshold and is in descending order of score,
    equal scores side by side allowed.  When the embedder gives the
    query vector and the search gives its raw results, [retrieve]
    returns: exactly the raw results whose score is at least the
    threshold (one whose score equals it is kept), reordered; and the
    empty list when none reaches the threshold. *)
Theorem retrieve_threshold_and_order `{!ScoreOrder F} (query : pystr)
    (top_k : option Z) (sys : Sys F) :
  (forall results sys',
      retrieve query top_k sys = (inr results, sys') ->
      Forall (fun r => score_ge (RetrievedChunk.score r)
                                (Settings.retriever_score_threshold settings) = true)
             results
      /\ descending RetrievedChunk.score results)
  /\ (forall query_vector raw_results,
      encode_provider (calls sys) [query] = inr query_vector ->
      search (store sys) query_vector (top_k_or_default top_k) = inr raw_results ->
      exists results,
        fst (retrieve query top_k sys) = inr results
        /\ Permutation results (filter_results raw_results)
        /\ (forall item,
              In (item, Settings.retriever_score_threshold settings) raw_results ->
              In (RetrievedChunk.mk (text item) (source_file item)
                                    (Settings.retriever_score_threshold settings))
                 results)
        /\ (Forall (fun r => score_ge (snd r)
                               (Settings.retriever_score_threshold settings) = false)
                   raw_results ->
            results = [])).
Proof.
  rewrite retrieve_run. cbv zeta. split.
  - intros results sys'.
    destruct (encode_provider (calls sys) [query]); [discriminate|].
    destruct (search _ _ _) as [|raw]; [discriminate|].
    intros [= <- _]. split.
    + eapply Permutation_Forall; [symmetry; apply sorted_desc_perm|].
      apply filter_results_threshold.
    + apply sorted_desc_descending. exact _.
  - intros query_vector raw_results -> ->. cbn.
    eexists. split; [reflexivity|].
    split; [apply sorted_desc_perm|]. split.
    + intros item Hin.
      eapply Permutation_in; [symmetry; apply sorted_desc_perm|].
      apply filter_results_keeps; [exact Hin|].
      destruct (score_ge_total (Settings.retriever_score_threshold settings)
                               (Settings.retriever_score_threshold settings)); assumption.
    + intros Hnone. rewrite (filter_results_none _ Hnone). reflexivity.
Qed.

(** C10. With [top_k = 0] the fallback [top_k or ...] takes the
    default: the search runs with [settings.retriever_top_k], and the
    call returns what a call without [top_k] returns, not the empty
    list a search for zero neighbours would give. *)
Theorem retrieve_top_k_zero_uses_default (query : pystr) (sys : Sys F) :
  top_k_or_default (Some 0) = Settings.retriever_top_k settings
  /\ retrieve query (Some 0) sys = retrieve query None sys
  /\ (forall query_vector raw_results,
      encode_provider (calls sys) [query] = inr query_vector ->
      search (store sys) query_vector (Settings.retriever_top_k settings)
        = inr raw_results ->
      fst (retrieve query (Some 0) sys)
        = inr (sorted_desc RetrievedChunk.score (filter_results raw_results))).
Proof.
  split; [reflexivity|]. split; [reflexivity|].
  intros query_vector raw_results Henc Hsearch.
  rewrite retrieve_run. cbv zeta.
  change (top_k_or_default (Some 0)) with (Settings.retriever_top_k settings).
  rewrite Henc, Hsearch. reflexivity.
Qed.

(** C9. When retrieval returns nothing, [answer] returns the fixed
    message with no citation; the only call made to a provider is the
    embedding of the question, and the result is the same whatever the
    generation provider is. *)
Theorem answer_insufficient_information (question : pystr) (sys sys' : Sys F) :
  retrieve question None sys = (inr [], sys') ->
  answer question sys = (inr (insufficient_information, []), sys')
  /\ calls sys' = calls sys ++ [EncodeCall [question]]
  /\ forall generate,
       answer (env := with_generate generate) question sys
       = (inr (insufficient_information, []), sys').
Proof.
  intros Hret.
  assert (Hrun : forall e : Env F,
             retrieve (env := e) question None sys = (inr [], sys') ->
             answer (env := e) question sys = (inr (insufficient_information, []), sys')).
  { intros e He. unfold answer, bind. rewrite He. reflexivity. }
  split; [apply Hrun; exact Hret|]. split.
  - rewrite retrieve_run in Hret. cbv zeta in Hret.
    destruct (encode_provider (calls sys) [question]); [discriminate|].
    destruct (search _ _ _); [discriminate|].
    injection Hret as _ <-. reflexivity.
  - intros generate. apply Hrun. exact Hret.
Qed.

Lemma chunk_document_empty (tc : TextChunker) (source : pystr) :
  chunk_size tc - overlap tc <> 0 ->
  chunk_document tc [] source = inr [].
Proof.
  intros Hstep. unfold chunk_document, py_range. cbn [len length Z.of_nat].
  destruct (Z.eqb_spec (chunk_size tc - overlap tc) 0); [contradiction|].
  unfold range_count.
  destruct (0 <? chunk_size tc - overlap tc); reflexivity.
Qed.

(** C8. When the text of the file is read and the chunker finds no
    chunk in the cleaned text, [ingest_path] raises the empty-document
    error and nothing has changed: the store (hence its number of
    vectors), the index directory and the calls made to the providers
    are as before.  A file without content is such a file, for every
    chunker [TextChunker(...)] can build. *)
Theorem ingest_path_empty_document (file_path : Path) (sys : Sys F) (raw_text : pystr) :
  load_text file_path = inr raw_text ->
  chunk_document chunker (clean raw_text) (name file_path) = inr [] ->
  ingest_path file_path sys = (inl (EmptyDocumentError (name file_path)), sys)
  /\ (forall size ovl tc source,
        TextChunker_init size ovl = inr tc ->
        chunk_document tc (clean []) source = inr []).
Proof.
  intros Hload Hchunks. split.
  - unfold ingest_path, bind, lift, raise. rewrite Hload, Hchunks. reflexivity.
  - intros size ovl tc source Hinit.
    change (clean []) with (@nil N).
    apply chunk_document_empty.
    unfold TextChunker_init in Hinit.
    destruct (Z.geb_spec ovl size); [discriminate|].
    injection Hinit as <-. cbn. lia.
Qed.
End ServiceProperties.

(* ===================================================================== *)
(** ** The model at work: rational scores *)
(* ===================================================================== *)

(** The order of the rationals is a total preorder. *)
#[export] Instance Q_ScoreOrder : ScoreOrder Q.
Proof.
  split; cbn.
  - intros a b. rewrite !Qle_bool_iff.
    destruct (Qlt_le_dec a b) as [Hlt|Hle]; [right|left]; [apply Qlt_le_weak|]; assumption.
  - intros a b c. rewrite !Qle_bool_iff. intros Hba Hcb.
    eapply Qle_trans; eassumption.
Qed.

(** Taking the first [k] of the stable sort is a choice FAISS may
    make. *)
#[export] Instance Q_KnnSpec : KnnSpec Q.
Proof.
  split; intros k l; cbn [knn Q_Knn].
  - rewrite length_take, sorted_desc_length. reflexivity.
  - apply descending_firstn, sorted_desc_descending. exact _.
  - exists (drop k (sorted_desc snd l)). split.
    + rewrite take_drop. apply sorted_desc_perm.
    + pose proof (sorted_desc_descending snd l) as Hs. unfold descending in Hs.
      revert Hs. generalize (sorted_desc snd l). clear l.
      induction k as [|k IH]; intros l Hs.
      * apply Forall_forall. intros r _. constructor.
      * destruct l as [|x l]; [constructor|].
        apply StronglySorted_inv in Hs as [Hl Hx]. cbn [take drop].
        specialize (IH l Hl).
        apply Forall_forall. intros r Hr. constructor.
        -- apply (proj1 (Forall_forall _ _) Hx).
           exact (subseteq_drop k l r Hr).
        -- apply (proj1 (Forall_forall _ _) IH). exact Hr.
Qed.

Lemma add_shape_and_dimension_errors_witness :
  add Demo.fresh (Arr2 2 [[1 # 1; 0 # 1]%Q]) [] = (inl ShapeMismatchError, Demo.fresh)
  /\ add Demo.twice (Arr2 3 [[1 # 1; 0 # 1; 0 # 1]%Q]) [Demo.chunk_of 1 "beta"]
     = (inl DimensionMismatchError, Demo.twice).
Proof.
  destruct (add_shape_and_dimension_errors Demo.fresh) as [Hshape Hdim].
  split.
  - apply Hshape. vm_compute. lia.
  - destruct (Hdim 2 [[1 # 1; 0 # 1]%Q] [Demo.chunk_of 0 "alpha"]
                   (snd (add Demo.fresh (Arr2 2 [[1 # 1; 0 # 1]%Q]) [Demo.chunk_of 0 "alpha"]))
                   eq_refl eq_refl) as [_ Hnext].
    destruct (Hnext Demo.twice) with (dim' := 3) (rows' := [[1 # 1; 0 # 1; 0 # 1]%Q])
                                     (chunks' := [Demo.chunk_of 1 "beta"])
      as (e & Hadd & He & _).
    + unfold Demo.twice. apply after_add. apply after_none.
    + lia.
    + rewrite Hadd, He; reflexivity.
Defined.

(** C1, the claim as written fails.  A fresh store whose only [add] was
    rejected (as one on which [add] was never called) has no index, so
    [save()] writes nothing; [load()] on a fresh store of the same name
    then restores the artifacts a former process left, and a search
    finds a chunk where the store that was saved finds none. *)
Lemma save_load_stale_artifacts_counterexample :
  ~ (forall (name : option pystr) (self : FaissVectorStore Q) (dsk : Disk Q)
            (query_vector : ndarray Q) (top_k : Z),
        built_by_adds (env := Demo.env) name self ->
        search (snd (load (FaissVectorStore_init (env := Demo.env) (Some (index_name self)))
                          (save self dsk)))
               query_vector top_k
        = search self query_vector top_k).
Proof.
  intros Hclaim.
  specialize (Hclaim None Demo.rejected Demo.stale_disk (Arr1 [1 # 1; 0 # 1]%Q) 5).
  assert (Hbuilt : built_by_adds (env := Demo.env) None Demo.rejected).
  { unfold Demo.rejected. apply built_add. apply built_init. }
  specialize (Hclaim Hbuilt).
  vm_compute in Hclaim. discriminate Hclaim.
Qed.

Lemma save_load_round_trip_witness :
  let reloaded := load (FaissVectorStore_init (env := Demo.env) (Some (index_name Demo.seven)))
                       (save Demo.seven Demo.stale_disk) in
  fst reloaded = true
  /\ snd reloaded = Demo.seven
  /\ forall query_vector top_k,
       search (snd reloaded) query_vector top_k = search Demo.seven query_vector top_k.
Proof.
  apply (save_load_round_trip (env := Demo.env) None Demo.seven Demo.stale_disk).
  - unfold Demo.seven. apply built_add. apply built_init.
  - vm_compute. discriminate.
Defined.

Lemma search_top_k_witness :
  exists results,
    search Demo.seven (Arr1 [1 # 1; 0 # 1]%Q) 5 = inr results
    /\ len results = 5
    /\ descending snd results.
Proof.
  destruct (search_top_k Demo.seven (Arr1 [1 # 1; 0 # 1]%Q) 5) as (_ & Hany & Hvalid).
  destruct (Hvalid (mkIndexFlatIP 2 [[1 # 2; 0 # 1]; [12 # 100; 0 # 1]; [9 # 10; 0 # 1];
                                      [3 # 10; 0 # 1]; [1 # 1; 0 # 1]; [7 # 10; 0 # 1];
                                      [4 # 10; 0 # 1]]%Q)
                   [1 # 1; 0 # 1]%Q)
    as (results & Hres).
  - reflexivity.
  - vm_compute. lia.
  - reflexivity.
  - reflexivity.
  - reflexivity.
  - lia.
  - destruct (Hany _ results eq_refl) as (q & _ & Hlen & _ & Hdesc & _).
    + vm_compute. lia.
    + reflexivity.
    + exact Hres.
    + exists results. split; [exact Hres|]. split; [exact Hlen|exact Hdesc].
Defined.

(** C3, the claim as written fails.  After the same document has been
    indexed twice, the two results have the same score, and neither is
    greater than the other. *)
Lemma retrieve_equal_scores_counterexample :
  ~ (forall (query : pystr) (top_k : option Z) (sys : Sys Q) results sys',
        retrieve (env := Demo.env) query top_k sys = (inr results, sys') ->
        strictly_descending RetrievedChunk.score results).
Proof.
  intros Hclaim.
  specialize (Hclaim (lit "alpha") None (Demo.sys_of Demo.twice Demo.empty_disk) _ _ eq_refl).
  vm_compute in Hclaim.
  apply StronglySorted_inv in Hclaim as [_ Hfirst].
  apply Forall_inv in Hfirst. destruct Hfirst as [_ Hgt]. discriminate Hgt.
Qed.

Lemma retrieve_threshold_and_order_witness :
  exists results,
    fst (retrieve (env := Demo.env) (lit "unrelated query") None
                  (Demo.sys_of Demo.unrelated Demo.empty_disk)) = inr results
    /\ results = [].
Proof.
  destruct (retrieve_threshold_and_order (env := Demo.env) (lit "unrelated query") None
              (Demo.sys_of Demo.unrelated Demo.empty_disk)) as [_ Hrun].
  destruct (Hrun (Arr2 2 [[1 # 1; 0 # 1]%Q])
                 [(Demo.chunk_of 0 "x", 3 # 25); (Demo.chunk_of 1 "y", 1 # 10)]%Q)
    as (results & Hres & _ & _ & Hnone).
  - reflexivity.
  - vm_compute. reflexivity.
  - exists results. split; [exact Hres|]. apply Hnone.
    repeat constructor.
Defined.

Lemma retrieve_top_k_zero_uses_default_witness :
  exists results,
    fst (retrieve (env := Demo.env) (lit "q") (Some 0)
                  (Demo.sys_of Demo.seven Demo.empty_disk)) = inr results
    /\ len results = 5.
Proof.
  destruct (retrieve_top_k_zero_uses_default (env := Demo.env) (lit "q")
              (Demo.sys_of Demo.seven Demo.empty_disk)) as (_ & _ & Hrun).
  eexists. split.
  - apply (Hrun (Arr2 2 [[1 # 1; 0 # 1]%Q])); reflexivity.
  - vm_compute. reflexivity.
Defined.

Lemma answer_insufficient_information_witness :
  answer (env := Demo.env) (lit "unrelated query")
         (Demo.sys_of Demo.unrelated Demo.empty_disk)
  = (inr (insufficient_information, []),
     mkSys Demo.unrelated Demo.empty_disk [EncodeCall [lit "unrelated query"]]).
Proof.
  apply (answer_insufficient_information (env := Demo.env)).
  vm_compute. reflexivity.
Defined.

Lemma ingest_path_empty_document_witness :
  ingest_path (env := Demo.env) (mkPath (lit "data/uploads") (lit "empty.txt"))
              (Demo.sys_of Demo.seven Demo.empty_disk)
  = (inl (EmptyDocumentError (lit "empty.txt")), Demo.sys_of Demo.seven Demo.empty_disk).
Proof.
  apply (ingest_path_empty_document (env := Demo.env)
           (mkPath (lit "data/uploads") (lit "empty.txt"))
           (Demo.sys_of Demo.seven Demo.empty_disk) []).
  - vm_compute. reflexivity.
  - vm_compute. reflexivity.
Defined.

(* ===================================================================== *)
(** ** More on the chunker *)
(* ===================================================================== *)

Lemma py_range_from_zero (n step : Z) (starts : list Z) :
  py_range 0 n step = inr starts ->
  starts = map (fun i => Z.of_nat i * step)
               (seq 0 (Z.to_nat (range_count 0 n step))).
Proof.
  unfold py_range. destruct (step =? 0); [discriminate|].
  intros [= <-]. apply map_ext. intros i. lia.
Qed.

(** The starts [range(0, n, step)] gives lie in [0, n) and are
    multiples of the step. *)
Lemma py_range_bounds (n step : Z) (starts : list Z) (s : Z) :
  0 <= n -> py_range 0 n step = inr starts -> In s starts ->
  0 < step /\ 0 <= s < n /\ exists i : nat, s = Z.of_nat i * step.
Proof.
  intros Hn Hr Hin. apply py_range_from_zero in Hr. subst starts.
  apply in_map_iff in Hin as (i & <- & Hi). apply in_seq in Hi.
  unfold range_count in Hi. rewrite Z.sub_0_r in Hi.
  destruct (Z.ltb_spec 0 step) as [Hstep|Hstep].
  - destruct (Z.ltb_spec 0 n) as [Hpos|Hpos]; [|cbn in Hi; lia].
    split; [exact Hstep|]. split; [|eauto].
    assert (Hq : 0 <= (n - 1) / step) by (apply Z.div_pos; lia).
    assert (Hi' : Z.of_nat i <= (n - 1) / step) by lia.
    pose proof (Z.mul_div_le (n - 1) step Hstep) as Hle.
    nia.
  - destruct (Z.ltb_spec n 0); [lia|]. cbn in Hi. lia.
Qed.

Lemma chunk_loop_acc self txt source starts index chunks :
  chunk_loop self txt source starts index chunks
  = chunks ++ chunk_loop self txt source starts index [].
Proof.
  revert index chunks.
  induction starts as [|start rest IH]; intros index chunks; cbn [chunk_loop].
  - rewrite app_nil_r. reflexivity.
  - destruct (strip _) as [|c w]; [apply IH|].
    destruct (_ =? _); [reflexivity|].
    rewrite (IH (index + 1) (chunks ++ _)), (IH (index + 1) ([] ++ _)).
    rewrite <- app_assoc. reflexivity.
Qed.

(** What the loop emits: the windows of some of the starts, in order,
    numbered from [index]; none of them blank; and only the last one
    may reach the end of the text. *)
Lemma chunk_loop_picked self txt source starts index :
  exists picked,
    sublist picked starts
    /\ chunk_loop self txt source starts index []
       = imap (fun k s => window_at self txt source (index + Z.of_nat k) s) picked
    /\ Forall (fun s => all_whitespace
                 (py_slice txt s (Z.min (s + chunk_size self) (len txt))) = false) picked
    /\ (forall k s, picked !! k = Some s ->
          Z.min (s + chunk_size self) (len txt) = len txt -> S k = length picked).
Proof.
  revert index. induction starts as [|start rest IH]; intros index.
  - exists []. repeat split; [constructor|constructor|]. intros k s Hk. discriminate.
  - destruct (all_whitespace (py_slice txt start
                (Z.min (start + chunk_size self) (len txt)))) eqn:Hws.
    + rewrite (chunk_loop_skip _ _ _ _ _ _ _ Hws).
      destruct (IH index) as (picked & Hsub & Hrun & Hnb & Hlast).
      exists picked. repeat split; try assumption. apply sublist_cons. exact Hsub.
    + rewrite (chunk_loop_emit _ _ _ _ _ _ _ Hws). cbv zeta.
      destruct (Z.eqb_spec (Z.min (start + chunk_size self) (len txt)) (len txt))
        as [Hend|Hend].
      * exists [start]. repeat split.
        -- apply sublist_skip, sublist_nil_l.
        -- cbn [app imap]. unfold window_at. change (Z.of_nat 0) with 0.
           rewrite Z.add_0_r. reflexivity.
        -- constructor; [exact Hws|constructor].
        -- intros [|k] s Hk; [reflexivity|discriminate].
      * destruct (IH (index + 1)) as (picked & Hsub & Hrun & Hnb & Hlast).
        exists (start :: picked). repeat split.
        -- apply sublist_skip. exact Hsub.
        -- rewrite chunk_loop_acc, Hrun, imap_cons. cbn [app]. f_equal.
           ++ unfold window_at. change (Z.of_nat 0) with 0.
              rewrite Z.add_0_r. reflexivity.
           ++ apply imap_ext. intros k s _. unfold compose. f_equal. lia.
        -- constructor; assumption.
        -- intros [|k] s Hk Hfull; cbn in Hk.
           ++ injection Hk as <-. contradiction.
           ++ cbn. f_equal. apply (Hlast k s Hk Hfull).
Qed.

Lemma chunk_document_emitted self txt source chunks :
  chunk_document self txt source = inr chunks ->
  exists starts picked,
    py_range 0 (len txt) (chunk_size self - overlap self) = inr starts
    /\ sublist picked starts
    /\ chunks = imap (fun k s => window_at self txt source (Z.of_nat k) s) picked
    /\ Forall (fun s => all_whitespace
                 (py_slice txt s (Z.min (s + chunk_size self) (len txt))) = false) picked
    /\ (forall k s, picked !! k = Some s ->
          Z.min (s + chunk_size self) (len txt) = len txt -> S k = length picked).
Proof.
  unfold chunk_document.
  destruct (py_range 0 (len txt) (chunk_size self - overlap self)) as [e|starts];
    [discriminate|].
  intros [= <-].
  destruct (chunk_loop_picked self txt source starts 0) as (picked & Hsub & Hrun & Hnb & Hlast).
  exists starts, picked. split; [reflexivity|]. split; [exact Hsub|].
  split; [exact Hrun|]. split; [exact Hnb|exact Hlast].
Qed.

Lemma py_slice_inside {A} (l : list A) (a b : Z) :
  0 <= a <= len l -> 0 <= b <= len l ->
  py_slice l a b = firstn (Z.to_nat (b - a)) (skipn (Z.to_nat a) l).
Proof.
  intros Ha Hb. unfold py_slice, clamp_index.
  destruct (Z.ltb_spec a 0); [lia|]. destruct (Z.ltb_spec b 0); [lia|].
  rewrite !Z.min_l by lia. reflexivity.
Qed.

Lemma py_slice_length {A} (l : list A) (a b : Z) :
  0 <= a <= b -> b <= len l -> length (py_slice l a b) = Z.to_nat (b - a).
Proof.
  intros Ha Hb. rewrite py_slice_inside by lia.
  rewrite length_take, length_drop. unfold len in *. lia.
Qed.

Lemma lstrip_length (s : pystr) : (length (lstrip s) <= length s)%nat.
Proof.
  induction s as [|c r IH]; cbn; [lia|].
  destruct (py_isspace c); cbn; lia.
Qed.

(** [strip] only removes characters. *)
Lemma strip_length (s : pystr) : (length (strip s) <= length s)%nat.
Proof.
  unfold strip, rstrip. rewrite length_rev.
  etransitivity; [apply lstrip_length|]. rewrite length_rev. apply lstrip_length.
Qed.

Lemma all_whitespace_slice (s : pystr) (a b : Z) :
  all_whitespace s = true -> all_whitespace (py_slice s a b) = true.
Proof.
  unfold all_whitespace, py_slice. rewrite !forallb_forall.
  intros Hall c Hc. apply Hall.
  apply list_elem_of_In in Hc. apply list_elem_of_In.
  apply subseteq_take in Hc. apply subseteq_drop in Hc. exact Hc.
Qed.

Lemma sublist_strongly_sorted {A} (R : A -> A -> Prop) (l1 l2 : list A) :
  sublist l1 l2 -> StronglySorted R l2 -> StronglySorted R l1.
Proof.
  induction 1 as [|x l1 l2 Hsub IH|x l1 l2 Hsub IH]; intros Hs.
  - constructor.
  - apply StronglySorted_inv in Hs as [Hl Hx].
    constructor; [apply IH; exact Hl|].
    apply Forall_forall. intros y Hy.
    apply (proj1 (Forall_forall _ _) Hx).
    apply (sublist_subseteq _ _ Hsub). exact Hy.
  - apply StronglySorted_inv in Hs as [Hl _]. apply IH. exact Hl.
Qed.

Lemma multiples_strongly_sorted (step : Z) (k n : nat) :
  0 < step ->
  StronglySorted Z.lt (map (fun i => Z.of_nat i * step) (seq k n)).
Proof.
  intros Hstep. revert k. induction n as [|n IH]; intros k; cbn; constructor.
  - apply IH.
  - apply Forall_forall. intros y Hy.
    apply list_elem_of_In, in_map_iff in Hy as (i & <- & Hi).
    apply in_seq in Hi. nia.
Qed.

Lemma lit_inj (s1 s2 : string) : lit s1 = lit s2 -> s1 = s2.
Proof.
  unfold lit. intros E.
  assert (Hasc : list_ascii_of_string s1 = list_ascii_of_string s2).
  { revert E. generalize (list_ascii_of_string s1) (list_ascii_of_string s2).
    induction l as [|a l IH]; intros [|b l'] E; cbn in E; try discriminate; [reflexivity|].
    injection E as Hab Hl. f_equal; [|apply IH; exact Hl].
    rewrite <- (ascii_N_embedding a), <- (ascii_N_embedding b), Hab. reflexivity. }
  rewrite <- (string_of_list_ascii_of_string s1), <- (string_of_list_ascii_of_string s2), Hasc.
  reflexivity.
Qed.

(** Two integers with the same decimal writing are equal. *)
Lemma str_of_int_inj (i j : Z) : str_of_int i = str_of_int j -> i = j.
Proof.
  unfold str_of_int. intros E. apply lit_inj in E.
  apply DecimalZ.to_int_inj.
  assert (Hn : forall z : Z, Z.to_int z <> Decimal.Pos Decimal.Nil
                             /\ Z.to_int z <> Decimal.Neg Decimal.Nil).
  { intros [|p|p]; cbn; split; try discriminate;
      intros [= Hp]; apply (DecimalPos.Unsigned.to_uint_nonnil p Hp). }
  apply (f_equal NilZero.int_of_string) in E.
  rewrite !NilZero.isi in E by apply Hn.
  injection E as E. exact E.
Qed.

Lemma lstrip_idem (s : pystr) : lstrip (lstrip s) = lstrip s.
Proof.
  induction s as [|c r IH]; cbn; [reflexivity|].
  destruct (py_isspace c) eqn:E; [exact IH|]. cbn. rewrite E. reflexivity.
Qed.

Lemma lstrip_head (s : pystr) (c : N) (r : pystr) :
  lstrip s = c :: r -> py_isspace c = false.
Proof.
  induction s as [|x t IH]; cbn; [discriminate|].
  destruct (py_isspace x) eqn:E; [exact IH|]. intros [= <- _]. exact E.
Qed.

Lemma lstrip_snoc (l : pystr) (c : N) :
  py_isspace c = false -> exists l', lstrip (l ++ [c]) = l' ++ [c].
Proof.
  intros Hc. induction l as [|x t IH]; cbn.
  - rewrite Hc. exists []. reflexivity.
  - destruct (py_isspace x); [exact IH|]. exists (x :: t). reflexivity.
Qed.

(** What [strip] returns has no whitespace left at either end. *)
Lemma strip_trimmed (s : pystr) : trimmed (strip s).
Proof.
  unfold trimmed, strip. split.
  - destruct (lstrip s) as [|c r] eqn:E; [reflexivity|].
    pose proof (lstrip_head s c r E) as Hc.
    unfold rstrip. cbn [rev].
    destruct (lstrip_snoc (rev r) c Hc) as (l' & ->).
    rewrite rev_app_distr. cbn. rewrite Hc. reflexivity.
  - unfold rstrip. rewrite rev_involutive, lstrip_idem. reflexivity.
Qed.

(** X1. Every chunk of a chunker with a non-negative [chunk_size] lies
    inside the text: [0 <= start_char < end_char <= len(text)]; it spans
    at most [chunk_size] characters; its text is the stripped window,
    is not empty, has no whitespace at either end and is no longer than
    the window; and it carries the source label it was given. *)
Theorem chunk_document_chunks_within_text (self : TextChunker) (txt source : pystr)
    (chunks : list Chunk) :
  0 <= chunk_size self ->
  chunk_document self txt source = inr chunks ->
  Forall (fun c =>
            0 <= start_char c < end_char c
            /\ end_char c <= len txt
            /\ end_char c - start_char c <= chunk_size self
            /\ text c = strip (py_slice txt (start_char c) (end_char c))
            /\ text c <> []
            /\ trimmed (text c)
            /\ len (text c) <= end_char c - start_char c
            /\ source_file c = source) chunks.
Proof.
  intros Hsize Hrun.
  destruct (chunk_document_emitted _ _ _ _ Hrun)
    as (starts & picked & Hrange & Hsub & -> & Hnb & _).
  apply Forall_lookup. intros k c Hc.
  apply list_lookup_imap_Some in Hc as (s & Hs & ->).
  assert (Hin : In s starts).
  { apply list_elem_of_In, (sublist_subseteq _ _ Hsub), list_elem_of_lookup. eauto. }
  assert (Hlen : 0 <= len txt) by (unfold len; lia).
  destruct (py_range_bounds _ _ _ s Hlen Hrange Hin) as (_ & Hbound & _).
  pose proof (Forall_lookup_1 _ _ _ _ Hnb Hs) as Hblank. cbn in Hblank.
  unfold window_at. cbn [start_char end_char text source_file].
  set (e := Z.min (s + chunk_size self) (len txt)) in *.
  assert (He : s <= e <= len txt) by (unfold e; lia).
  assert (Hlt : s < e).
  { destruct (Z.eq_dec s e) as [Heq|]; [|lia].
    rewrite <- Heq, py_slice_inside in Hblank by lia.
    rewrite Z.sub_diag in Hblank. cbn in Hblank. discriminate. }
  repeat split; try lia.
  - intros Hnil. apply strip_nil in Hnil. congruence.
  - apply strip_trimmed.
  - apply strip_trimmed.
  - pose proof (strip_length (py_slice txt s e)) as Hl.
    rewrite py_slice_length in Hl by lia. unfold len. lia.
Qed.

(** X2. The chunks are numbered in the order they are emitted: the
    [k]-th chunk (from zero) has id [source-k], blank windows taking no
    number; so no two chunks of a document have the same id. *)
Theorem chunk_document_ids (self : TextChunker) (txt source : pystr)
    (chunks : list Chunk) :
  chunk_document self txt source = inr chunks ->
  (forall (k : nat) c, chunks !! k = Some c ->
     chunk_id c = source ++ lit "-" ++ str_of_int (Z.of_nat k))
  /\ NoDup (map chunk_id chunks).
Proof.
  intros Hrun.
  destruct (chunk_document_emitted _ _ _ _ Hrun)
    as (starts & picked & _ & _ & -> & _ & _).
  assert (Hid : forall (k : nat) c,
             imap (fun k s => window_at self txt source (Z.of_nat k) s) picked !! k = Some c ->
             chunk_id c = source ++ lit "-" ++ str_of_int (Z.of_nat k)).
  { intros k c Hc. apply list_lookup_imap_Some in Hc as (s & _ & ->). reflexivity. }
  split; [exact Hid|].
  apply NoDup_alt. intros i j x Hi Hj.
  change (map chunk_id ?l) with (chunk_id <$> l) in Hi, Hj.
  rewrite list_lookup_fmap in Hi, Hj.
  destruct (_ !! i) as [ci|] eqn:Ei; [|discriminate].
  destruct (_ !! j) as [cj|] eqn:Ej; [|discriminate].
  cbn in Hi, Hj. injection Hi as Hi. injection Hj as Hj.
  rewrite (Hid i ci Ei) in Hi. rewrite (Hid j cj Ej) in Hj.
  rewrite <- Hj in Hi.
  apply app_inv_head, app_inv_head, str_of_int_inj in Hi. lia.
Qed.

(** X3. Chunks come in strictly ascending order of [start_char], and
    every [start_char] is a multiple of the step
    [chunk_size - overlap]. *)
Theorem chunk_document_starts_ascending (self : TextChunker) (txt source : pystr)
    (chunks : list Chunk) :
  chunk_document self txt source = inr chunks ->
  StronglySorted Z.lt (map start_char chunks)
  /\ Forall (fun c => exists i : nat,
                 start_char c = Z.of_nat i * (chunk_size self - overlap self)) chunks.
Proof.
  intros Hrun.
  destruct (chunk_document_emitted _ _ _ _ Hrun)
    as (starts & picked & Hrange & Hsub & -> & _ & _).
  assert (Hlen : 0 <= len txt) by (unfold len; lia).
  assert (Hstarts : map start_char
                      (imap (fun k s => window_at self txt source (Z.of_nat k) s) picked)
                    = picked).
  { change (map start_char ?l) with (start_char <$> l).
    apply list_eq. intros k. rewrite list_lookup_fmap, list_lookup_imap.
    destruct (picked !! k); reflexivity. }
  split.
  - rewrite Hstarts. apply (sublist_strongly_sorted _ _ _ Hsub).
    destruct starts as [|s0 rest] eqn:Es; [constructor|]. rewrite <- Es in *.
    assert (Hstep : 0 < chunk_size self - overlap self).
    { apply (py_range_bounds _ _ _ s0 Hlen Hrange). rewrite Es. left. reflexivity. }
    rewrite (py_range_from_zero _ _ _ Hrange).
    apply multiples_strongly_sorted. exact Hstep.
  - apply Forall_lookup. intros k c Hc.
    apply list_lookup_imap_Some in Hc as (s & Hs & ->). cbn.
    apply (py_range_bounds _ _ _ s Hlen Hrange).
    apply list_elem_of_In, (sublist_subseteq _ _ Hsub), list_elem_of_lookup. eauto.
Qed.

(** X4. The loop stops at the first emitted window that reaches the
    end of the text: a chunk whose [end_char] is [len(text)] is the last
    one, and every chunk before the last spans exactly [chunk_size]
    characters and ends before the end of the text. *)
Theorem chunk_document_only_last_reaches_end (self : TextChunker) (txt source : pystr)
    (chunks : list Chunk) :
  chunk_document self txt source = inr chunks ->
  forall (k : nat) c, chunks !! k = Some c ->
    (end_char c = len txt -> S k = length chunks)
    /\ ((S k < length chunks)%nat ->
        end_char c = start_char c + chunk_size self /\ end_char c < len txt).
Proof.
  intros Hrun k c Hc.
  destruct (chunk_document_emitted _ _ _ _ Hrun)
    as (starts & picked & _ & _ & -> & _ & Hlast).
  rewrite length_imap.
  apply list_lookup_imap_Some in Hc as (s & Hs & ->).
  unfold window_at. cbn [start_char end_char].
  assert (Hfirst : Z.min (s + chunk_size self) (len txt) = len txt -> S k = length picked)
    by (apply Hlast; exact Hs).
  split; [exact Hfirst|].
  intros Hk.
  destruct (Z.eq_dec (Z.min (s + chunk_size self) (len txt)) (len txt)) as [E|E].
  - apply Hfirst in E. lia.
  - lia.
Qed.

Lemma chunk_document_blank (self : TextChunker) (txt source : pystr) :
  chunk_size self - overlap self <> 0 ->
  all_whitespace txt = true ->
  chunk_document self txt source = inr [].
Proof.
  intros Hstep Hblank.
  destruct (chunk_document self txt source) as [e|chunks] eqn:Hrun.
  - unfold chunk_document, py_range in Hrun.
    destruct (Z.eqb_spec (chunk_size self - overlap self) 0); [contradiction|].
    discriminate.
  - destruct (chunk_document_emitted _ _ _ _ Hrun)
      as (starts & picked & _ & _ & -> & Hnb & _).
    destruct picked as [|s rest]; [reflexivity|].
    apply Forall_inv in Hnb.
    rewrite (all_whitespace_slice txt s _ Hblank) in Hnb. discriminate.
Qed.

(** X5. A text made of whitespace only (the empty text included) gives
    no chunk, whatever the chunker, as long as its step is not zero. *)
Theorem chunk_document_blank_text (self : TextChunker) (txt source : pystr) :
  chunk_size self - overlap self <> 0 ->
  all_whitespace txt = true ->
  chunk_document self txt source = inr [].
Proof. apply chunk_document_blank. Qed.

(** The loop over consecutive windows none of which is blank emits
    every window up to the first one that reaches the end of the
    text. *)
Lemma chunk_loop_cover (self : TextChunker) (txt source : pystr) (m k : nat) :
  (exists i : nat, (k <= i < k + m)%nat
       /\ len txt <= Z.of_nat i * (chunk_size self - overlap self) + chunk_size self) ->
  (forall i : nat, (k <= i < k + m)%nat ->
     all_whitespace (py_slice txt (Z.of_nat i * (chunk_size self - overlap self))
        (Z.min (Z.of_nat i * (chunk_size self - overlap self) + chunk_size self)
               (len txt))) = false) ->
  exists n : nat,
    (k <= n < k + m)%nat
    /\ len txt <= Z.of_nat n * (chunk_size self - overlap self) + chunk_size self
    /\ (forall i : nat, (k <= i < n)%nat ->
          Z.of_nat i * (chunk_size self - overlap self) + chunk_size self < len txt)
    /\ chunk_loop self txt source
         (map (fun i => Z.of_nat i * (chunk_size self - overlap self)) (seq k m))
         (Z.of_nat k) []
       = map (fun i => window_at self txt source (Z.of_nat i)
                         (Z.of_nat i * (chunk_size self - overlap self)))
             (seq k (S n - k)).
Proof.
  revert k. induction m as [|m IH]; intros k (i & Hi & Hreach) Hnb; [lia|].
  cbn [seq map].
  rewrite chunk_loop_emit by (apply Hnb; lia). cbv zeta.
  set (step := chunk_size self - overlap self) in *.
  destruct (Z.eqb_spec (Z.min (Z.of_nat k * step + chunk_size self) (len txt)) (len txt))
    as [Hend|Hend].
  - exists k. split; [lia|]. split; [lia|]. split; [intros j Hj; lia|].
    replace (S k - k)%nat with 1%nat by lia. reflexivity.
  - assert (Hk : Z.of_nat k * step + chunk_size self < len txt) by lia.
    assert (Hik : i <> k) by (intros ->; lia).
    destruct (IH (S k)) as (n & Hn & Hreach' & Hbefore & Hrun).
    + exists i. split; [lia|exact Hreach].
    + intros j Hj. apply Hnb. lia.
    + exists n. split; [lia|]. split; [exact Hreach'|]. split.
      * intros j Hj. destruct (Nat.eq_dec j k) as [->|]; [exact Hk|].
        apply Hbefore. lia.
      * rewrite chunk_loop_acc.
        replace (Z.of_nat k + 1) with (Z.of_nat (S k)) by lia.
        rewrite Hrun.
        replace (S n - k)%nat with (S (S n - S k)) by lia.
        reflexivity.
Qed.

(** X6. With [0 <= overlap < chunk_size], on a text that is not empty
    and none of whose windows is blank, the chunks are exactly the
    windows at 0, step, 2*step, ... up to the first window that reaches
    the end of the text: the first chunk starts at 0, the last one ends
    at [len(text)], and every chunk starts [overlap] characters before
    the one before it ends, so that no character is left out. *)
Theorem chunk_document_covers_text (self : TextChunker) (txt source : pystr) :
  0 <= overlap self < chunk_size self ->
  0 < len txt ->
  (forall i : nat,
     Z.of_nat i * (chunk_size self - overlap self) < len txt ->
     all_whitespace (py_slice txt (Z.of_nat i * (chunk_size self - overlap self))
        (Z.min (Z.of_nat i * (chunk_size self - overlap self) + chunk_size self)
               (len txt))) = false) ->
  exists (n : nat) (chunks : list Chunk),
    chunk_document self txt source = inr chunks
    /\ chunks = map (fun i => window_at self txt source (Z.of_nat i)
                                (Z.of_nat i * (chunk_size self - overlap self)))
                    (seq 0 (S n))
    /\ (exists first, chunks !! 0%nat = Some first /\ start_char first = 0)
    /\ (exists last, chunks !! n = Some last /\ end_char last = len txt)
    /\ (forall (k : nat) a b,
          chunks !! k = Some a -> chunks !! S k = Some b ->
          start_char b = end_char a - overlap self
          /\ end_char a = start_char a + chunk_size self).
Proof.
  intros Hcfg Hlen Hnb.
  set (step := chunk_size self - overlap self) in *.
  assert (Hstep : 0 < step) by (unfold step; lia).
  set (count := Z.to_nat ((len txt - 1) / step + 1)).
  assert (Hrange : py_range 0 (len txt) step
                   = inr (map (fun i => Z.of_nat i * step) (seq 0 count))).
  { unfold py_range. destruct (Z.eqb_spec step 0); [lia|].
    f_equal. unfold range_count.
    destruct (Z.ltb_spec 0 step); [|lia].
    destruct (Z.ltb_spec 0 (len txt)); [|lia].
    rewrite Z.sub_0_r. reflexivity. }
  assert (Hq : 0 <= (len txt - 1) / step) by (apply Z.div_pos; lia).
  pose proof (Z.mul_div_le (len txt - 1) step Hstep) as Hlo.
  pose proof (Z.mul_succ_div_gt (len txt - 1) step Hstep) as Hhi.
  destruct (chunk_loop_cover self txt source count 0) as (n & Hn & Hreach & Hbefore & Hrun).
  - exists (Z.to_nat ((len txt - 1) / step)). fold step. split; [unfold count; lia|].
    rewrite Z2Nat.id by lia. nia.
  - intros i Hi. apply Hnb. fold step.
    assert (Z.of_nat i <= (len txt - 1) / step) by (unfold count in Hi; lia).
    nia.
  - fold step in Hreach, Hbefore, Hrun.
    rewrite Nat.sub_0_r in Hrun.
    exists n, (map (fun i => window_at self txt source (Z.of_nat i) (Z.of_nat i * step))
                   (seq 0 (S n))).
    assert (Hlook : forall (k : nat) c,
               map (fun i => window_at self txt source (Z.of_nat i) (Z.of_nat i * step))
                   (seq 0 (S n)) !! k = Some c ->
               (k <= n)%nat
               /\ c = window_at self txt source (Z.of_nat k) (Z.of_nat k * step)).
    { intros k c Hc.
      change (map ?f ?l) with (f <$> l) in Hc.
      rewrite list_lookup_fmap in Hc.
      destruct (seq 0 (S n) !! k) as [j|] eqn:Ej; [|discriminate].
      apply lookup_seq in Ej as [-> Hk]. cbn in Hc. injection Hc as <-.
      split; [lia|reflexivity]. }
    split.
    { unfold chunk_document. fold step. rewrite Hrange. f_equal. exact Hrun. }
    split; [reflexivity|].
    split.
    { eexists. split; [reflexivity|]. cbn. lia. }
    split.
    { exists (window_at self txt source (Z.of_nat n) (Z.of_nat n * step)). split.
      - change (map ?f ?l) with (f <$> l). rewrite list_lookup_fmap.
        rewrite (proj2 (lookup_seq 0 (S n) n n)) by lia. reflexivity.
      - cbn. lia. }
    intros k a b Ha Hb.
    apply Hlook in Ha as [_ ->]. apply Hlook in Hb as [Hk ->].
    cbn [window_at start_char end_char].
    assert (Hfull : Z.of_nat k * step + chunk_size self < len txt) by (apply Hbefore; lia).
    unfold step in *. lia.
Qed.

(* ===================================================================== *)
(** ** More on the cleaner *)
(* ===================================================================== *)

Lemma lstrip_suffix (s : pystr) : exists a, s = a ++ lstrip s.
Proof.
  induction s as [|c r [a IH]]; cbn; [exists []; reflexivity|].
  destruct (py_isspace c).
  - exists (c :: a). cbn. f_equal. exact IH.
  - exists []. reflexivity.
Qed.

(** [strip] keeps a contiguous part of the string. *)
Lemma strip_infix (s : pystr) : exists a b, s = a ++ strip s ++ b.
Proof.
  unfold strip, rstrip.
  destruct (lstrip_suffix s) as [a Ha].
  destruct (lstrip_suffix (rev (lstrip s))) as [b Hb].
  exists a, (rev b).
  rewrite <- rev_app_distr, <- Hb, rev_involutive. exact Ha.
Qed.

Lemma single_spaced_cons (c1 c2 : N) (t : pystr) :
  single_spaced (c1 :: c2 :: t)
  = negb (py_isspace c1 && py_isspace c2) && single_spaced (c2 :: t).
Proof. reflexivity. Qed.

Lemma single_spaced_app (a b : pystr) :
  single_spaced (a ++ b) = true -> single_spaced a = true /\ single_spaced b = true.
Proof.
  induction a as [|c1 a IH]; cbn [app]; [auto|].
  destruct a as [|c2 a].
  - cbn [app]. destruct b as [|c2 b]; [auto|].
    cbn. intros H%andb_true_iff. tauto.
  - cbn [app] in *. rewrite (single_spaced_cons c1 c2 (a ++ b)), (single_spaced_cons c1 c2 a).
    intros [H1 H2]%andb_true_iff.
    destruct (IH H2) as [Ha Hb]. rewrite H1, Ha. auto.
Qed.

Lemma collapse_true_head (s : pystr) :
  match collapse_spaces true s with
  | [] => True
  | c :: _ => py_isspace c = false
  end.
Proof.
  induction s as [|c r IH]; cbn; [exact I|].
  destruct (py_isspace c) eqn:E; [exact IH|exact E].
Qed.

Lemma collapse_single_spaced (in_run : bool) (s : pystr) :
  single_spaced (collapse_spaces in_run s) = true.
Proof.
  revert in_run. induction s as [|c r IH]; intros in_run; cbn [collapse_spaces];
    [reflexivity|].
  destruct (py_isspace c) eqn:E.
  - destruct in_run; [apply IH|].
    pose proof (collapse_true_head r) as Hh. specialize (IH true).
    destruct (collapse_spaces true r) as [|c2 t]; [reflexivity|].
    rewrite single_spaced_cons, Hh, andb_false_r, IH. reflexivity.
  - specialize (IH false).
    destruct (collapse_spaces false r) as [|c2 t]; [reflexivity|].
    rewrite single_spaced_cons, E, IH. reflexivity.
Qed.

Lemma collapse_chars (P : N -> Prop) (in_run : bool) (s : pystr) :
  P 32%N -> Forall (fun c => py_isspace c = false -> P c) s ->
  Forall P (collapse_spaces in_run s).
Proof.
  intros Hsp Hs. revert in_run.
  induction Hs as [|c r Hc _ IH]; intros in_run; cbn; [constructor|].
  destruct (py_isspace c) eqn:E.
  - destruct in_run; [apply IH|constructor; [exact Hsp|apply IH]].
  - constructor; [apply Hc; reflexivity|apply IH].
Qed.

Lemma squeeze_chars (P : N -> Prop) (pending : nat) (s : pystr) :
  P 10%N -> Forall P s -> Forall P (squeeze_newlines pending s).
Proof.
  intros Hnl Hs. revert pending.
  assert (Hflush : forall n, Forall P (flush_newlines n)).
  { intros n. unfold flush_newlines. destruct (3 <=? n)%nat.
    - repeat constructor; exact Hnl.
    - apply Forall_forall. intros c Hc%list_elem_of_In%repeat_spec. subst. exact Hnl. }
  induction Hs as [|c r Hc _ IH]; intros pending; cbn; [apply Hflush|].
  destruct (c =? 10)%N; [apply IH|].
  apply Forall_app. split; [apply Hflush|]. constructor; [exact Hc|apply IH].
Qed.

(** What [clean] returns is a cleaned text. *)
Lemma clean_cleaned (s : pystr) : cleaned (clean s).
Proof.
  unfold clean, normalize_whitespace.
  set (s3 := squeeze_newlines 0 (drop_zero_width (replace_nul s))).
  assert (H3 : Forall (fun c => c <> 0%N /\ is_zero_width c = false) s3).
  { apply squeeze_chars; [split; [discriminate|reflexivity]|].
    unfold drop_zero_width, replace_nul.
    apply Forall_forall. intros c Hc%list_elem_of_filter.
    destruct Hc as [Hzw Hin]. apply Is_true_true, negb_true_iff in Hzw.
    split; [|exact Hzw].
    apply list_elem_of_In, in_map_iff in Hin as (x & <- & _).
    destruct (N.eqb_spec x 0); [discriminate|assumption]. }
  assert (H4 : Forall (fun c => c <> 0%N /\ is_zero_width c = false
                                /\ (py_isspace c = true -> c = 32%N))
                      (collapse_spaces false s3)).
  { apply collapse_chars.
    - split; [discriminate|]. split; reflexivity.
    - eapply Forall_impl; [exact H3|]. intros c [Hc0 Hzw] Hsp.
      split; [exact Hc0|]. split; [exact Hzw|]. congruence. }
  destruct (strip_infix (collapse_spaces false s3)) as (a & b & Hab).
  split; [|split].
  - rewrite Hab in H4. apply Forall_app in H4 as [_ H4].
    apply Forall_app in H4 as [H4 _]. exact H4.
  - pose proof (collapse_single_spaced false s3) as Hss.
    rewrite Hab in Hss.
    apply single_spaced_app in Hss as [_ Hss].
    apply single_spaced_app in Hss as [Hss _]. exact Hss.
  - apply strip_trimmed.
Qed.

Lemma collapse_cleaned (in_run : bool) (s : pystr) :
  Forall (fun c => py_isspace c = true -> c = 32%N) s ->
  single_spaced s = true ->
  (in_run = true -> match s with [] => True | c :: _ => py_isspace c = false end) ->
  collapse_spaces in_run s = s.
Proof.
  intros Hsp. revert in_run.
  induction Hsp as [|c r Hc _ IH]; intros in_run Hss Hhead; cbn; [reflexivity|].
  assert (Hr : single_spaced r = true).
  { destruct r as [|c2 t]; [reflexivity|]. rewrite single_spaced_cons in Hss.
    apply andb_true_iff in Hss. tauto. }
  destruct (py_isspace c) eqn:E.
  - destruct in_run; [specialize (Hhead eq_refl); cbn in Hhead; congruence|].
    rewrite (Hc eq_refl). f_equal. apply IH; [exact Hr|]. intros _.
    destruct r as [|c2 t]; [exact I|]. rewrite single_spaced_cons, E in Hss.
    cbn [andb] in Hss.
    apply andb_true_iff in Hss as [Hss _]. apply negb_true_iff in Hss. exact Hss.
  - f_equal. apply IH; [exact Hr|]. discriminate.
Qed.

Lemma squeeze_no_newline (s : pystr) :
  Forall (fun c => c <> 10%N) s -> squeeze_newlines 0 s = s.
Proof.
  induction 1 as [|c r Hc _ IH]; cbn; [reflexivity|].
  destruct (N.eqb_spec c 10); [contradiction|]. cbn. rewrite IH. reflexivity.
Qed.

(** [clean] leaves a cleaned text as it is. *)
Lemma clean_fixed (s : pystr) : cleaned s -> clean s = s.
Proof.
  intros (Hchars & Hss & Hl & Hr).
  unfold clean, normalize_whitespace.
  assert (H1 : replace_nul s = s).
  { unfold replace_nul. rewrite <- (map_id s) at 2. apply map_ext_in.
    intros c Hc. apply list_elem_of_In in Hc.
    apply (proj1 (Forall_forall _ _) Hchars) in Hc.
    destruct Hc as [Hc _]. destruct (N.eqb_spec c 0); [contradiction|reflexivity]. }
  assert (H2 : drop_zero_width s = s).
  { unfold drop_zero_width. clear -Hchars.
    induction Hchars as [|c r (_ & Hzw & _) _ IH]; [reflexivity|].
    rewrite filter_cons_True by (rewrite Hzw; exact I). f_equal. exact IH. }
  assert (H3 : squeeze_newlines 0 s = s).
  { apply squeeze_no_newline. eapply Forall_impl; [exact Hchars|].
    intros c (_ & _ & Hsp) ->. specialize (Hsp eq_refl). discriminate. }
  assert (H4 : collapse_spaces false s = s).
  { apply collapse_cleaned; [|exact Hss|discriminate].
    eapply Forall_impl; [exact Hchars|]. intros c (_ & _ & Hsp). exact Hsp. }
  rewrite H1, H2, H3, H4. unfold strip. rewrite Hl, Hr. reflexivity.
Qed.

(** X7. Whatever the text, [clean] returns a text without NUL, without
    zero-width character or byte-order mark, whose only whitespace is
    the plain space, never two in a row and none at either end. *)
Theorem clean_normal_form (s : pystr) :
  Forall (fun c => c <> 0%N /\ is_zero_width c = false
                   /\ (py_isspace c = true -> c = 32%N)) (clean s)
  /\ single_spaced (clean s) = true
  /\ lstrip (clean s) = clean s
  /\ rstrip (clean s) = clean s.
Proof. apply clean_cleaned. Qed.

(** X8. Cleaning twice is cleaning once. *)
Theorem clean_idempotent (s : pystr) : clean (clean s) = clean s.
Proof. apply clean_fixed, clean_cleaned. Qed.

Lemma squeeze_keeps (pending : nat) (s : pystr) (c : N) :
  c <> 10%N -> In c s -> In c (squeeze_newlines pending s).
Proof.
  intros Hc. revert pending.
  induction s as [|x r IH]; intros pending Hin; [contradiction|]. cbn.
  destruct Hin as [->|Hin].
  - destruct (N.eqb_spec c 10); [contradiction|].
    apply in_or_app. right. left. reflexivity.
  - destruct (x =? 10)%N; [apply IH; exact Hin|].
    apply in_or_app. right. right. apply IH. exact Hin.
Qed.

Lemma collapse_keeps (in_run : bool) (s : pystr) (c : N) :
  py_isspace c = false -> In c s -> In c (collapse_spaces in_run s).
Proof.
  intros Hc. revert in_run.
  induction s as [|x r IH]; intros in_run Hin; [contradiction|]. cbn.
  destruct Hin as [->|Hin].
  - rewrite Hc. left. reflexivity.
  - destruct (py_isspace x); [destruct in_run|]; try right; apply IH; exact Hin.
Qed.

(** [clean] returns the empty text exactly for the texts made of
    whitespace, NUL and zero-width characters only. *)
Lemma clean_nil_iff (s : pystr) : clean s = [] <-> forallb blank_char s = true.
Proof.
  unfold clean, normalize_whitespace. rewrite strip_nil. unfold all_whitespace.
  split.
  - intros Hall. apply forallb_forall. intros c Hc.
    unfold blank_char.
    destruct (py_isspace c) eqn:Esp; [reflexivity|].
    destruct (N.eqb_spec c 0) as [|Hc0]; [reflexivity|].
    destruct (is_zero_width c) eqn:Ezw; [reflexivity|]. exfalso.
    assert (Hin : In c (collapse_spaces false
               (squeeze_newlines 0 (drop_zero_width (replace_nul s))))).
    { apply collapse_keeps; [exact Esp|].
      apply squeeze_keeps; [intros ->; discriminate|].
      apply list_elem_of_In, list_elem_of_filter. split; [rewrite Ezw; exact I|].
      apply list_elem_of_In, in_map_iff. exists c. split; [|exact Hc].
      destruct (N.eqb_spec c 0); [contradiction|reflexivity]. }
    rewrite forallb_forall in Hall. rewrite (Hall c Hin) in Esp. discriminate.
  - intros Hblank. rewrite forallb_forall in Hblank.
    assert (Hsq : Forall (fun c => py_isspace c = true)
                    (squeeze_newlines 0 (drop_zero_width (replace_nul s)))).
    { apply squeeze_chars; [reflexivity|].
      apply Forall_forall. intros c Hc%list_elem_of_filter.
      destruct Hc as [Hzw Hin]. apply Is_true_true, negb_true_iff in Hzw.
      apply list_elem_of_In, in_map_iff in Hin as (x & <- & Hx).
      specialize (Hblank x Hx). unfold blank_char in Hblank.
      destruct (N.eqb_spec x 0) as [E0|E0]; [reflexivity|].
      rewrite Hzw in Hblank. rewrite !orb_false_r in Hblank. exact Hblank. }
    assert (Hall : Forall (fun c => py_isspace c = true)
                     (collapse_spaces false
                        (squeeze_newlines 0 (drop_zero_width (replace_nul s))))).
    { apply collapse_chars; [reflexivity|].
      eapply Forall_impl; [exact Hsq|]. intros c Hc _. exact Hc. }
    apply forallb_forall. intros c Hc. apply list_elem_of_In in Hc.
    apply (proj1 (Forall_forall _ _) Hall c Hc).
Qed.

(** A text that starts with a visible character gives a chunk. *)
Lemma chunk_document_visible (self : TextChunker) (c : N) (r source : pystr) chunks :
  1 <= chunk_size self -> overlap self < chunk_size self ->
  py_isspace c = false ->
  chunk_document self (c :: r) source = inr chunks -> chunks <> [].
Proof.
  intros Hsize Hovl Hc. unfold chunk_document, py_range.
  destruct (Z.eqb_spec (chunk_size self - overlap self) 0); [lia|].
  unfold range_count.
  destruct (Z.ltb_spec 0 (chunk_size self - overlap self)); [|lia].
  assert (Hlen : 1 <= len (c :: r)) by (unfold len; cbn [length]; lia).
  destruct (Z.ltb_spec 0 (len (c :: r))); [|lia].
  rewrite Z.sub_0_r.
  assert (Hq : 0 <= (len (c :: r) - 1) / (chunk_size self - overlap self))
    by (apply Z.div_pos; lia).
  destruct (Z.to_nat ((len (c :: r) - 1) / (chunk_size self - overlap self) + 1))
    as [|m] eqn:Em; [lia|].
  cbn [seq map].
  assert (Hws : all_whitespace
                  (py_slice (c :: r) (0 + Z.of_nat 0 * (chunk_size self - overlap self))
                     (Z.min (0 + Z.of_nat 0 * (chunk_size self - overlap self) + chunk_size self)
                            (len (c :: r)))) = false).
  { change (0 + Z.of_nat 0 * (chunk_size self - overlap self)) with 0.
    change (0 + chunk_size self) with (chunk_size self).
    rewrite py_slice_inside by lia. rewrite Z.sub_0_r.
    change (Z.to_nat 0) with 0%nat. cbn [skipn].
    destruct (Z.to_nat (Z.min (chunk_size self) (len (c :: r)))) as [|k] eqn:Ek; [lia|].
    cbn. rewrite Hc. reflexivity. }
  rewrite (chunk_loop_emit _ _ _ _ _ _ _ Hws). cbv zeta.
  destruct (_ =? _).
  - intros [= <-] E. discriminate E.
  - rewrite chunk_loop_acc. intros [= <-] E. discriminate E.
Qed.

(** X9. For a chunker with [chunk_size >= 1] and [overlap < chunk_size],
    the cleaned text of a document gives no chunk exactly when the
    document holds nothing but whitespace, NUL and zero-width
    characters; a single visible character is enough for a chunk. *)
Theorem clean_then_chunk_empty_iff (self : TextChunker) (raw_text source : pystr) :
  1 <= chunk_size self -> overlap self < chunk_size self ->
  (chunk_document self (clean raw_text) source = inr []
   <-> forallb blank_char raw_text = true).
Proof.
  intros Hsize Hovl. split.
  - intros Hrun. apply clean_nil_iff.
    destruct (clean raw_text) as [|c r] eqn:E; [reflexivity|]. exfalso.
    assert (Hc : py_isspace c = false).
    { destruct (clean_cleaned raw_text) as (_ & _ & Hl & _). rewrite E in Hl.
      apply (lstrip_head _ c r Hl). }
    apply (chunk_document_visible self c r source [] Hsize Hovl Hc Hrun). reflexivity.
  - intros Hblank. apply clean_nil_iff in Hblank. rewrite Hblank.
    apply chunk_document_blank; [lia|reflexivity].
Qed.
(* ===================================================================== *)
(** ** Paths of the index files *)
(* ===================================================================== *)

Lemma split_on_cons (sep : N) (s : pystr) : exists w ws, split_on sep s = w :: ws.
Proof.
  destruct s as [|c r]; cbn; [eauto|].
  destruct (c =? sep)%N; [eauto|]. destruct (split_on sep r); eauto.
Qed.

(** Splitting at a separator splits both sides. *)
Lemma split_on_app (sep : N) (a b : pystr) :
  split_on sep (a ++ sep :: b) = split_on sep a ++ split_on sep b.
Proof.
  induction a as [|c a IH]; cbn.
  - rewrite N.eqb_refl. reflexivity.
  - destruct (c =? sep)%N; [rewrite IH; reflexivity|].
    rewrite IH. destruct (split_on_cons sep a) as (w & ws & ->). reflexivity.
Qed.

Lemma split_on_plain (sep : N) (x : pystr) : sep ∉ x -> split_on sep x = [x].
Proof.
  induction x as [|c x IH]; intros Hno; [reflexivity|]. cbn.
  apply not_elem_of_cons in Hno as [Hc Hx].
  destruct (N.eqb_spec c sep); [congruence|].
  rewrite (IH Hx). reflexivity.
Qed.

Lemma path_parts_app (a b : pystr) :
  path_parts (a ++ 47%N :: b) = path_parts a ++ path_parts b.
Proof. unfold path_parts. rewrite split_on_app. apply List.filter_app. Qed.

Lemma path_parts_nil : path_parts [] = [].
Proof. reflexivity. Qed.

(** A single component that is neither empty nor ["."] is kept as it
    is. *)
Lemma path_parts_plain (b : pystr) :
  47%N ∉ b -> b <> [] -> b <> lit "." -> path_parts b = [b].
Proof.
  intros Hno He Hd. unfold path_parts. rewrite (split_on_plain _ _ Hno). cbn.
  rewrite !bool_decide_eq_false_2 by assumption. reflexivity.
Qed.

(** The root of a joined path is the root of its left side, when the
    right side is relative. *)
Lemma path_root_join (dir : pystr) (c : N) (r : pystr) :
  c <> 47%N -> path_root (os_path_join dir (c :: r)) = path_root dir.
Proof.
  intros Hc. unfold os_path_join. cbn [head].
  rewrite bool_decide_eq_false_2 by congruence.
  assert (Hcb : (c =? 47)%N = false) by (apply N.eqb_neq; exact Hc).
  destruct (last dir) as [z|] eqn:Hlast.
  - apply last_Some in Hlast as (pre & ->).
    destruct (z =? 47)%N eqn:Hz;
      destruct pre as [|a0 [|a1 [|a2 pre]]]; cbn; rewrite ?Hz, ?Hcb; cbn;
      repeat match goal with
             | |- context [(?x =? 47)%N] => destruct (x =? 47)%N; cbn
             end;
      try reflexivity; destruct r; cbn; rewrite ?Hcb; reflexivity.
  - apply last_None in Hlast. subst dir.
    destruct r as [|c2 [|c3 r]]; cbn; rewrite Hcb; reflexivity.
Qed.

(** Its components are those of both sides. *)
Lemma path_parts_join (dir : pystr) (c : N) (r : pystr) :
  c <> 47%N ->
  path_parts (os_path_join dir (c :: r)) = path_parts dir ++ path_parts (c :: r).
Proof.
  intros Hc. unfold os_path_join. cbn [head].
  rewrite bool_decide_eq_false_2 by congruence.
  destruct (last dir) as [z|] eqn:Hlast.
  - apply last_Some in Hlast as (pre & ->).
    destruct (N.eqb_spec z 47) as [->|Hz].
    + rewrite <- app_assoc. cbn [app].
      rewrite !path_parts_app, path_parts_nil, app_nil_r. reflexivity.
    + rewrite <- !app_assoc. cbn [app lit map list_ascii_of_string N_of_ascii].
      change (lit "/") with [47%N]. cbn [app].
      rewrite <- (path_parts_app (pre ++ [z]) (c :: r)), <- app_assoc. reflexivity.
  - apply last_None in Hlast. subst dir. reflexivity.
Qed.

Lemma join_snoc (sep : pystr) (parts : list pystr) (x : pystr) :
  join sep (parts ++ [x])
  = match parts with
    | [] => x
    | _ :: _ => join sep parts ++ sep ++ x
    end.
Proof.
  induction parts as [|p [|p' ps] IH]; try reflexivity.
  change (join sep ((p :: p' :: ps) ++ [x]))
    with (p ++ sep ++ join sep ((p' :: ps) ++ [x])).
  rewrite IH. change (join sep (p :: p' :: ps)) with (p ++ sep ++ join sep (p' :: ps)).
  rewrite <- !app_assoc. reflexivity.
Qed.

(** The path of a file named by one plain component, in a directory:
    what the directory contributes, then the component. *)
Lemma path_div_plain (dir : pystr) :
  exists pre, forall b,
      47%N ∉ b -> b <> [] -> b <> lit "." -> path_div dir b = pre ++ b.
Proof.
  exists (path_root dir ++ match path_parts dir with
                           | [] => []
                           | _ :: _ => join (lit "/") (path_parts dir) ++ lit "/"
                           end).
  intros b Hno He Hd. destruct b as [|c r]; [contradiction|].
  assert (Hc : c <> 47%N).
  { intros ->. apply Hno. left. }
  unfold path_div, path_norm.
  rewrite (path_root_join dir c r Hc), (path_parts_join dir c r Hc).
  rewrite (path_parts_plain (c :: r) Hno He Hd), join_snoc.
  destruct (path_parts dir) as [|p ps].
  - rewrite app_nil_r. destruct (path_root dir); reflexivity.
  - rewrite <- !app_assoc.
    destruct (path_root dir ++ join (lit "/") (p :: ps) ++ lit "/" ++ c :: r) eqn:E;
      [|reflexivity].
    apply app_eq_nil in E as [_ E]. apply app_eq_nil in E as [_ E]. discriminate E.
Qed.

(** A leading ["./"] does not change the path. *)
Lemma path_div_dot (dir b : pystr) (c : N) (r : pystr) :
  b = c :: r -> c <> 47%N -> path_div dir (lit "./" ++ b) = path_div dir b.
Proof.
  intros -> Hc. unfold path_div, path_norm.
  change (lit "./" ++ c :: r) with (46%N :: 47%N :: c :: r).
  rewrite (path_root_join dir 46 _) by discriminate.
  rewrite (path_parts_join dir 46 _) by discriminate.
  rewrite (path_root_join dir c r Hc), (path_parts_join dir c r Hc).
  change (46%N :: 47%N :: c :: r) with ([46%N] ++ 47%N :: c :: r).
  rewrite path_parts_app. reflexivity.
Qed.

(* ===================================================================== *)
(** ** More on the vector store *)
(* ===================================================================== *)

Section StoreMore.
Context {F : Type} `{Score F} `{Knn F} {env : Env F}.

(** What a call of [add] that returns has done. *)
Lemma add_returns (self st : FaissVectorStore F) (embeddings : ndarray F)
    (chunks : list Chunk) :
  add self embeddings chunks = (inr tt, st) ->
  exists dim rows idx,
    embeddings = Arr2 dim rows
    /\ len rows = len chunks
    /\ index st = Some idx /\ d idx = dim
    /\ vectors st = vectors self ++ rows
    /\ metadata st = metadata self ++ chunks
    /\ ntotal idx = len (vectors self) + len chunks
    /\ index_name st = index_name self
    /\ index_path st = index_path self
    /\ meta_path st = meta_path self.
Proof.
  unfold add, vectors.
  destruct (Z.eqb_spec (len chunks) (ndarray_len embeddings)) as [Hlen|]; cbn;
    [|discriminate].
  destruct embeddings as [v|dim rows|n0 n1 n2 more]; cbn in *;
    [discriminate| |destruct (index self); discriminate].
  destruct (index self) as [idx|] eqn:Hidx; cbn.
  - destruct (Z.eqb_spec dim (d idx)) as [->|]; cbn; [|discriminate].
    intros [= <-]. exists (d idx), rows, (mkIndexFlatIP (d idx) (xb idx ++ rows)).
    cbn. unfold asdict. rewrite map_id.
    repeat split; try reflexivity; try lia.
    unfold ntotal, len. cbn. rewrite length_app. unfold len in Hlen. lia.
  - rewrite Z.eqb_refl. cbn. intros [= <-].
    exists dim, rows, (mkIndexFlatIP dim rows). cbn. unfold asdict. rewrite map_id.
    repeat split; try reflexivity; try lia.
    unfold ntotal, len. cbn. unfold len in Hlen. lia.
Qed.

(** X10. A call of [add] that returns was given a two-dimensional
    array with as many rows as chunks; it appends the rows to the
    vectors and the chunks to the metadata, so every entry stored
    before keeps its position, and the number of vectors grows by the
    number of chunks.  Name and paths of the store do not change. *)
Theorem add_appends (self st : FaissVectorStore F) (embeddings : ndarray F)
    (chunks : list Chunk) :
  add self embeddings chunks = (inr tt, st) ->
  exists dim rows idx,
    embeddings = Arr2 dim rows
    /\ len rows = len chunks
    /\ index st = Some idx /\ d idx = dim
    /\ vectors st = vectors self ++ rows
    /\ metadata st = metadata self ++ chunks
    /\ ntotal idx = len (vectors self) + len chunks
    /\ index_name st = index_name self
    /\ index_path st = index_path self
    /\ meta_path st = meta_path self.
Proof. apply add_returns. Qed.

(** X11. When [add] raises, no vector and no metadata entry has been
    added, and name and paths are as before.  The store is exactly as
    before when it had an index already, or when the array is of rank
    one or two (wrong number of chunks, wrong width, an array of rank
    one).  One failure does change it: on a store without index, an
    array of rank three or more with as many entries as chunks passes
    the length check, the empty index of dimension [shape[1]] is
    assigned, and only then does FAISS refuse the array. *)
Theorem add_failure_keeps_entries (self st : FaissVectorStore F)
    (embeddings : ndarray F) (chunks : list Chunk) (e : exn) :
  add self embeddings chunks = (inl e, st) ->
  vectors st = vectors self
  /\ metadata st = metadata self
  /\ index_name st = index_name self
  /\ index_path st = index_path self
  /\ meta_path st = meta_path self
  /\ (index self <> None \/ ndim embeddings <= 2 -> st = self)
  /\ (index self = None -> 2 < ndim embeddings ->
      len chunks = ndarray_len embeddings ->
      exists n1 msg,
        shape1 embeddings = inr n1
        /\ index st = Some (mkIndexFlatIP n1 [])
        /\ e = ValueError msg).
Proof.
  intros Hadd.
  assert (Hsame : index self <> None \/ ndim embeddings <= 2 -> st = self).
  { intros Hcase.
    pose proof (add_raise_unchanged self embeddings chunks e Hcase) as Hs.
    rewrite Hadd in Hs. apply Hs. reflexivity. }
  destruct (add_keeps_paths self embeddings chunks) as (A & B & C).
  cbv zeta in A, B, C. rewrite Hadd in A, B, C. cbn [snd] in A, B, C.
  destruct embeddings as [v|dim rows|n0 n1 n2 more].
  - assert (st = self) as -> by (apply Hsame; right; cbn; lia).
    repeat split; try reflexivity. intros _ Hn. cbn in Hn. lia.
  - assert (st = self) as -> by (apply Hsame; right; cbn; lia).
    repeat split; try reflexivity. intros _ Hn. cbn in Hn. lia.
  - destruct (index self) as [idx|] eqn:Hidx.
    + assert (st = self) as -> by (apply Hsame; left; discriminate).
      repeat split; try reflexivity. discriminate.
    + unfold add in Hadd. cbn [ndarray_len shape1] in Hadd. rewrite Hidx in Hadd.
      destruct (Z.eqb_spec (len chunks) n0) as [Hlen|Hlen]; cbn in Hadd.
      * injection Hadd as <- <-. unfold vectors. cbn. rewrite Hidx.
        repeat split; try reflexivity.
        -- intros [Hc|Hc]; [contradiction|]. cbn in Hc. unfold len in Hc. lia.
        -- intros _ _ _. exists n1. eexists. repeat split.
      * injection Hadd as <- <-. repeat split; try reflexivity.
        intros _ _ Hl. cbn in Hl. contradiction.
Qed.

(** The invariant of the life of a store: its paths are those of its
    name, its vectors and metadata are parallel, the two artifacts on
    disk are parallel, and while it has no index the two artifacts are
    not both there. *)
Lemma lifecycle_invariant (name : option pystr) (self : FaissVectorStore F)
    (dsk : Disk F) :
  lifecycle name self dsk ->
  (index_name self = index_name (FaissVectorStore_init name)
   /\ index_path self = index_path (FaissVectorStore_init name)
   /\ meta_path self = meta_path (FaissVectorStore_init name))
  /\ parallel self
  /\ (forall idx meta,
        faiss_files dsk !! index_path self = Some idx ->
        json_files dsk !! meta_path self = Some meta ->
        length (xb idx) = length meta)
  /\ (index self = None ->
      faiss_files dsk !! index_path self = None
      \/ json_files dsk !! meta_path self = None).
Proof.
  induction 1 as [|self dsk embeddings chunks _ IH|self dsk _ IH|self dsk _ IH
                  |self dsk _ IH].
  - split; [tauto|]. split; [reflexivity|]. cbn. split.
    + intros idx meta Hi. rewrite lookup_empty in Hi. discriminate.
    + intros _. left. apply lookup_empty.
  - destruct IH as (Hp & Hpar & Hdisk & Hnone).
    destruct (add_keeps_paths self embeddings chunks) as (A & B & C).
    cbv zeta in A, B, C.
    split; [rewrite A, B, C; exact Hp|].
    split; [apply add_parallel; exact Hpar|].
    rewrite B, C. split; [exact Hdisk|].
    intros Hn. apply Hnone.
    destruct (index self) as [idx|] eqn:Hidx; [|reflexivity].
    destruct (add_keeps_dimension self idx embeddings chunks Hidx) as (idx' & Hi' & _).
    congruence.
  - destruct IH as (Hp & Hpar & Hdisk & Hnone).
    split; [exact Hp|]. split; [exact Hpar|].
    unfold save. destruct (index self) as [idx|] eqn:Hidx; cbn.
    + split.
      * intros idx' meta. rewrite !lookup_insert_eq. intros [= <-] [= <-].
        unfold parallel in Hpar. rewrite Hidx in Hpar. exact Hpar.
      * discriminate.
    + split; [exact Hdisk|exact Hnone].
  - destruct IH as (Hp & Hpar & Hdisk & Hnone).
    unfold load.
    destruct (faiss_files dsk !! index_path self) as [idx|] eqn:Ei;
      [destruct (json_files dsk !! meta_path self) as [meta|] eqn:Em|]; cbn.
    + split; [exact Hp|]. split.
      * unfold parallel. cbn. apply Hdisk; reflexivity.
      * split; [|discriminate]. rewrite Ei, Em. exact Hdisk.
    + split; [exact Hp|]. split; [exact Hpar|]. rewrite Ei, Em.
      split; [exact Hdisk|exact Hnone].
    + split; [exact Hp|]. split; [exact Hpar|]. rewrite Ei.
      split; [exact Hdisk|exact Hnone].
  - destruct IH as (Hp & Hpar & Hdisk & Hnone).
    cbn. split; [exact Hp|]. split; [reflexivity|]. split.
    + intros idx meta Hi. rewrite lookup_delete_eq in Hi. discriminate.
    + intros _. left. apply lookup_delete_eq.
Qed.

(** X12. From a fresh store on an empty directory, after any sequence
    of [add], [save], [load] and [clear], the store holds as many
    metadata entries as vectors, and so do the two artifacts on disk
    when both are there. *)
Theorem lifecycle_parallel (name : option pystr) (self : FaissVectorStore F)
    (dsk : Disk F) :
  lifecycle name self dsk ->
  length (vectors self) = length (metadata self)
  /\ (forall idx meta,
        faiss_files dsk !! index_path self = Some idx ->
        json_files dsk !! meta_path self = Some meta ->
        length (xb idx) = length meta).
Proof.
  intros Hlife.
  destruct (lifecycle_invariant name self dsk Hlife) as (_ & Hpar & Hdisk & _).
  split; [|exact Hdisk].
  unfold parallel, vectors in *. destruct (index self); [exact Hpar|].
  rewrite Hpar. reflexivity.
Qed.

(** X13. In the life of a store that started on an empty directory,
    [save()] followed by [load()] on a fresh store of the same name
    always gives a store with the same search results, also when
    nothing was ever added (then nothing is written, nothing is found,
    and both searches are empty). *)
Theorem lifecycle_round_trip (name : option pystr) (self : FaissVectorStore F)
    (dsk : Disk F) (query_vector : ndarray F) (top_k : Z) :
  lifecycle name self dsk ->
  search (snd (load (FaissVectorStore_init (Some (index_name self))) (save self dsk)))
         query_vector top_k
  = search self query_vector top_k.
Proof.
  intros Hlife.
  destruct (lifecycle_invariant name self dsk Hlife) as ((Hn & Hp & Hm) & _ & _ & Hnone).
  assert (Hfresh : FaissVectorStore_init (Some (index_name self))
                   = mkStore (index_name self) (index_path self) (meta_path self) None []).
  { rewrite Hn, init_same_name, Hp, Hm. reflexivity. }
  rewrite Hfresh.
  destruct (index self) as [idx|] eqn:Hidx.
  - rewrite (load_after_save self dsk idx Hidx). reflexivity.
  - unfold save. rewrite Hidx. unfold load. cbn.
    destruct (Hnone eq_refl) as [E|E]; rewrite E.
    + unfold search. cbn. rewrite Hidx. reflexivity.
    + destruct (faiss_files dsk !! index_path self);
        unfold search; cbn; rewrite Hidx; reflexivity.
Qed.

(** X14. [load()] returns [False] and leaves the store as it is as
    soon as one of the two artifacts is missing; this is the case right
    after [clear()], whatever was on disk before. *)
Theorem load_missing_artifact (self : FaissVectorStore F) (dsk : Disk F) :
  (faiss_files dsk !! index_path self = None
   \/ json_files dsk !! meta_path self = None ->
   load self dsk = (false, self))
  /\ load (fst (clear self dsk)) (snd (clear self dsk)) = (false, fst (clear self dsk))
  /\ (forall other,
        index_path other = index_path self ->
        load other (snd (clear self dsk)) = (false, other)).
Proof.
  split; [|split].
  - unfold load. intros [E|E]; rewrite E; [reflexivity|].
    destruct (faiss_files dsk !! index_path self); reflexivity.
  - unfold load, clear. cbn. rewrite lookup_delete_eq. reflexivity.
  - intros other Hp. unfold load, clear. cbn. rewrite Hp, lookup_delete_eq. reflexivity.
Qed.

(** Plain names give the two files their names: what the directory
    contributes, then the name and the extension. *)
Lemma named_paths :
  exists pre,
    forall m, plain_name m ->
      index_path (FaissVectorStore_init (Some m)) = pre ++ m ++ lit ".faiss"
      /\ meta_path (FaissVectorStore_init (Some m)) = pre ++ m ++ lit ".json".
Proof.
  destruct (path_div_plain (Settings.index_dir settings)) as (pre & Hpre).
  exists pre. intros m [Hm Hno].
  assert (Hext : forall ext, 47%N ∉ ext -> ext <> [] ->
            (47%N ∉ m ++ ext) /\ m ++ ext <> [] /\ m ++ ext <> lit ".").
  { intros ext Hx He. split; [|split].
    - rewrite elem_of_app. tauto.
    - destruct m; [contradiction|discriminate].
    - destruct m as [|c [|c' m]]; [contradiction| |discriminate].
      destruct ext; [contradiction|discriminate]. }
  unfold FaissVectorStore_init. destruct m as [|c m]; [contradiction|].
  cbn [index_path meta_path]. split.
  - destruct (Hext (lit ".faiss")) as (X & Y & Z); [apply (bool_decide_unpack (47%N ∉ _)); vm_compute; exact I|discriminate|].
    apply Hpre; assumption.
  - destruct (Hext (lit ".json")) as (X & Y & Z); [apply (bool_decide_unpack (47%N ∉ _)); vm_compute; exact I|discriminate|].
    apply Hpre; assumption.
Qed.

Lemma named_paths_inj (n1 n2 : pystr) :
  plain_name n1 -> plain_name n2 ->
  index_path (FaissVectorStore_init (Some n1)) = index_path (FaissVectorStore_init (Some n2))
  \/ meta_path (FaissVectorStore_init (Some n1)) = meta_path (FaissVectorStore_init (Some n2)) ->
  n1 = n2.
Proof.
  intros H1 H2.
  destruct named_paths as (pre & Hpre).
  destruct (Hpre n1 H1) as [E1 E1']. destruct (Hpre n2 H2) as [E2 E2'].
  rewrite E1, E2, E1', E2'.
  intros [E|E]; apply app_inv_head, app_inv_tail in E; exact E.
Qed.

(** A leading ["./"] in the name changes neither path. *)
Lemma named_paths_dot (n : pystr) :
  plain_name n ->
  index_path (FaissVectorStore_init (Some (lit "./" ++ n)))
  = index_path (FaissVectorStore_init (Some n))
  /\ meta_path (FaissVectorStore_init (Some (lit "./" ++ n)))
     = meta_path (FaissVectorStore_init (Some n)).
Proof.
  intros [Hn Hno]. destruct n as [|c n]; [contradiction|].
  assert (Hc : c <> 47%N) by (intros ->; apply Hno; left).
  unfold FaissVectorStore_init.
  change (lit "./" ++ c :: n) with (46%N :: 47%N :: c :: n).
  cbn [index_path meta_path].
  split.
  - apply (path_div_dot _ ((c :: n) ++ lit ".faiss") c (n ++ lit ".faiss") eq_refl Hc).
  - apply (path_div_dot _ ((c :: n) ++ lit ".json") c (n ++ lit ".json") eq_refl Hc).
Qed.

(** X15. Indexes of different plain names (one path component each)
    do not touch each other: saving or clearing the store named [n1]
    changes nothing of what a store named [n2] loads.  A name is part
    of a path, though: the names [n1] and [./n1] are different and
    share their two files. *)
Theorem named_indexes_independent (n1 n2 : pystr) (self other : FaissVectorStore F)
    (dsk : Disk F) :
  plain_name n1 -> plain_name n2 -> n1 <> n2 ->
  built_by_adds (Some n1) self -> built_by_adds (Some n2) other ->
  load other (save self dsk) = load other dsk
  /\ load other (snd (clear self dsk)) = load other dsk
  /\ index_path (FaissVectorStore_init (Some (lit "./" ++ n1))) = index_path self
  /\ meta_path (FaissVectorStore_init (Some (lit "./" ++ n1))) = meta_path self.
Proof.
  intros H1 H2 Hne Hs Ho.
  destruct (built_by_adds_paths _ _ Hs) as (_ & Hsp & Hsm).
  destruct (built_by_adds_paths _ _ Ho) as (_ & Hop & Hom).
  assert (Hi : index_path self <> index_path other).
  { rewrite Hsp, Hop. intros E. apply Hne, named_paths_inj; auto. }
  assert (Hm : meta_path self <> meta_path other).
  { rewrite Hsm, Hom. intros E. apply Hne, named_paths_inj; auto. }
  split; [|split].
  - unfold load, save. destruct (index self); [|reflexivity]. cbn.
    rewrite !lookup_insert_ne by assumption. reflexivity.
  - unfold load, clear. cbn.
    rewrite !lookup_delete_ne by assumption. reflexivity.
  - rewrite Hsp, Hsm. apply named_paths_dot. exact H1.
Qed.
End StoreMore.

(* ===================================================================== *)
(** ** More on search *)
(* ===================================================================== *)

Section SearchMore.
Context {F : Type} `{Score F} `{Knn F} `{!ScoreOrder F} `{!KnnSpec F} {env : Env F}.

Lemma score_ge_refl (a : F) : score_ge a a = true.
Proof. destruct (score_ge_total a a); assumption. Qed.

Lemma decoded_omap (meta : list Chunk) (l : list (Z * F)) (res : list (Chunk * F)) :
  Forall2 (fun p r => decode meta p = Some r) l res -> res = omap (decode meta) l.
Proof.
  induction 1 as [|p r l res Hpr _ IH]; cbn; [reflexivity|].
  rewrite Hpr, <- IH. reflexivity.
Qed.

Lemma omap_cons_eq {A B} (f : A -> option B) (x : A) (l : list A) :
  omap f (x :: l) = match f x with
                    | Some y => y :: omap f l
                    | None => omap f l
                    end.
Proof. reflexivity. Qed.

(** Decoding the labels of all the stored vectors, in order, pairs
    every metadata entry with the score of its vector. *)
Lemma decode_scored (pre meta : list Chunk) (vs : list (list F)) (q : list F) :
  length meta = length vs ->
  omap (decode (pre ++ meta))
       (imap (fun i v => (Z.of_nat (length pre + i), inner q v)) vs)
  = zip_with (fun m v => (m, inner q v)) meta vs.
Proof.
  revert pre meta. induction vs as [|v vs IH]; intros pre [|m meta] Hlen;
    try discriminate; [reflexivity|].
  cbn [imap zip_with]. rewrite omap_cons_eq. unfold decode at 1. cbn [fst snd].
  rewrite Nat2Z.id, Nat.add_0_r, list_lookup_middle by reflexivity.
  f_equal.
  specialize (IH (pre ++ [m]) meta).
  rewrite <- app_assoc in IH. cbn [app] in IH. rewrite <- IH by (cbn in Hlen; lia).
  f_equal. apply imap_ext. intros i x _. unfold compose.
  rewrite length_app. cbn. do 2 f_equal. lia.
Qed.

(** X16. On a populated store whose vectors and metadata are parallel,
    the first result of a search is a best match: no stored vector has
    a greater inner product with the query than the score of the first
    result. *)
Theorem search_first_is_best (self : FaissVectorStore F) idx
    (query_vector : ndarray F) (top_k : Z) (q : list F)
    (best : Chunk * F) (others : list (Chunk * F)) :
  index self = Some idx -> ntotal idx <> 0 -> parallel self ->
  first_row query_vector = Some q ->
  search self query_vector top_k = inr (best :: others) ->
  forall (i : nat) v, xb idx !! i = Some v -> score_ge (snd best) (inner q v) = true.
Proof.
  intros Hidx Hn Hpar Hrow Hret i v Hv.
  destruct (search_positions self idx query_vector top_k _ Hidx Hn Hpar Hret)
    as (q' & positions & Hrow' & _ & Hdesc & _ & Hpos & Hout).
  assert (q' = q) as -> by congruence.
  destruct (decide (i ∈ positions)) as [Hin|Hnot].
  - apply list_elem_of_lookup in Hin as (k & Hk).
    destruct (Forall2_lookup_l _ _ _ _ _ Hpos Hk) as (r & Hr & v' & Hv' & _ & Hs).
    assert (v' = v) as -> by congruence.
    rewrite <- Hs. destruct k as [|k]; cbn in Hr.
    + injection Hr as <-. apply score_ge_refl.
    + unfold descending in Hdesc. apply StronglySorted_inv in Hdesc as [_ Hall].
      apply (proj1 (Forall_forall _ _) Hall). eapply list_elem_of_lookup_2. exact Hr.
  - specialize (Hout i v Hv Hnot). apply Forall_inv in Hout. exact Hout.
Qed.

(** X17. Asked for at least as many neighbours as there are vectors,
    a search on a populated, parallel store returns every stored entry
    exactly once, each with the inner product of the query and its
    vector. *)
Theorem search_all_entries (self : FaissVectorStore F) idx
    (query_vector : ndarray F) (top_k : Z) (q : list F)
    (results : list (Chunk * F)) :
  index self = Some idx -> ntotal idx <> 0 -> parallel self ->
  first_row query_vector = Some q ->
  ntotal idx <= top_k ->
  search self query_vector top_k = inr results ->
  Permutation results
              (zip_with (fun m v => (m, inner q v)) (metadata self) (xb idx)).
Proof.
  intros Hidx Hn Hpar Hrow Hall Hret.
  destruct (search_selected self idx query_vector top_k _ Hidx Hn Hpar Hret)
    as (q' & Hrow' & Hk & Hdec).
  assert (q' = q) as -> by congruence.
  destruct (knn_best (Z.to_nat top_k) (scored idx q)) as (rest & Hperm & _).
  assert (rest = []) as ->.
  { apply Permutation_length in Hperm.
    rewrite length_app, knn_length, scored_length in Hperm.
    unfold ntotal, len in Hall. destruct rest; [reflexivity|]. cbn in Hperm. lia. }
  rewrite app_nil_r in Hperm.
  rewrite (decoded_omap _ _ _ Hdec).
  rewrite (omap_Permutation (decode (metadata self)) _ _ Hperm).
  unfold parallel in Hpar. rewrite Hidx in Hpar.
  pose proof (decode_scored [] (metadata self) (xb idx) q (eq_sym Hpar)) as Hzip.
  cbn [app length Nat.add] in Hzip. unfold scored. rewrite Hzip. reflexivity.
Qed.
End SearchMore.

Section SearchRows.
Context {F : Type} `{Score F} `{Knn F} {env : Env F}.

(** X18. [search] reads one query: a vector of rank one is searched as
    the batch of that single row, and of a batch only the first row is
    used, the others changing nothing. *)
Theorem search_uses_first_row (self : FaissVectorStore F) (top_k : Z) :
  (forall v, search self (Arr1 v) top_k = search self (Arr2 (len v) [v]) top_k)
  /\ (forall ncols q rest,
        search self (Arr2 ncols (q :: rest)) top_k
        = search self (Arr2 ncols [q]) top_k).
Proof.
  split; [reflexivity|].
  intros ncols q rest. unfold search.
  destruct (index self) as [idx|]; [|reflexivity].
  destruct (ntotal idx =? 0); [reflexivity|].
  cbn [as_batch]. unfold IndexFlatIP_search.
  destruct (negb (ncols =? d idx)); [reflexivity|].
  destruct (negb (0 <? top_k)); reflexivity.
Qed.
End SearchRows.

(* ===================================================================== *)
(** ** More on retrieval, answering and ingestion *)
(* ===================================================================== *)

Section ServicesMore.
Context {F : Type} `{Score F} `{Knn F} {env : Env F}.

(** Sorting a list that is already in descending order changes
    nothing. *)
Lemma sorted_desc_fixed {A} (key : A -> F) (l : list A) :
  descending key l -> sorted_desc key l = l.
Proof.
  unfold descending. induction 1 as [|x r Hr IH Hx]; [reflexivity|].
  change (sorted_desc key (x :: r)) with (insert_desc key x (sorted_desc key r)).
  rewrite IH. destruct r as [|y t]; [reflexivity|]. cbn.
  apply Forall_inv in Hx. rewrite Hx. reflexivity.
Qed.

Lemma filter_results_descending (raw_results : list (Chunk * F)) :
  descending snd raw_results ->
  descending RetrievedChunk.score (filter_results raw_results).
Proof.
  unfold descending, filter_results.
  induction 1 as [|x r Hr IH Hx]; cbn; [constructor|].
  destruct (score_ge (snd x) _); [|exact IH].
  cbn. constructor; [exact IH|].
  apply Forall_forall. intros y Hy.
  apply list_elem_of_In, in_map_iff in Hy as (p & <- & Hp).
  apply filter_In in Hp as [Hp _]. cbn.
  apply (proj1 (Forall_forall _ _) Hx), list_elem_of_In. exact Hp.
Qed.

Lemma filter_results_length (raw_results : list (Chunk * F)) :
  (length (filter_results raw_results) <= length raw_results)%nat.
Proof.
  unfold filter_results. rewrite length_map.
  induction raw_results as [|x r IH]; cbn; [lia|].
  destruct (score_ge _ _); cbn; lia.
Qed.

(** What a search on a parallel store returns is in descending
    order. *)
Lemma search_descending `{!KnnSpec F} (self : FaissVectorStore F)
    (query_vector : ndarray F) (top_k : Z) (raw_results : list (Chunk * F)) :
  parallel self ->
  search self query_vector top_k = inr raw_results ->
  descending snd raw_results.
Proof.
  intros Hpar Hret.
  assert (Hnil : raw_results = [] -> descending snd raw_results).
  { intros ->. constructor. }
  destruct (index self) as [idx|] eqn:Hidx.
  - destruct (Z.eq_dec (ntotal idx) 0) as [Hz|Hn].
    + apply Hnil. unfold search in Hret. rewrite Hidx, Hz in Hret. cbn in Hret. congruence.
    + destruct (search_positions self idx query_vector top_k _ Hidx Hn Hpar Hret)
        as (q & positions & _ & _ & Hdesc & _).
      exact Hdesc.
  - apply Hnil. unfold search in Hret. rewrite Hidx in Hret. congruence.
Qed.

(** X19. On a store whose vectors and metadata are parallel,
    [retrieve] returns the results of the search that reach the
    threshold in the very order the search gave them: FAISS returns
    them best first, so the final sort changes nothing, and results of
    equal score stay in the order FAISS chose. *)
Theorem retrieve_keeps_search_order `{!KnnSpec F} (query : pystr)
    (top_k : option Z) (sys : Sys F) (query_vector : ndarray F)
    (raw_results : list (Chunk * F)) :
  parallel (store sys) ->
  encode_provider (calls sys) [query] = inr query_vector ->
  search (store sys) query_vector (top_k_or_default top_k) = inr raw_results ->
  fst (retrieve query top_k sys) = inr (filter_results raw_results).
Proof.
  intros Hpar Henc Hsearch.
  rewrite retrieve_run. cbv zeta. rewrite Henc, Hsearch. cbn. f_equal.
  apply sorted_desc_fixed, filter_results_descending.
  apply (search_descending (store sys) query_vector (top_k_or_default top_k) _ Hpar Hsearch).
Qed.

(** X20. On a parallel store [retrieve] never returns more results
    than the number of neighbours asked for: [top_k] when it is given
    and not zero, the configured default otherwise. *)
Theorem retrieve_at_most_top_k `{!ScoreOrder F} (query : pystr) (top_k : option Z)
    (sys sys' : Sys F) (results : list (RetrievedChunk.t F)) :
  parallel (store sys) ->
  retrieve query top_k sys = (inr results, sys') ->
  len results <= Z.max 0 (top_k_or_default top_k)
  /\ (top_k = None \/ top_k = Some 0 ->
      len results <= Z.max 0 (Settings.retriever_top_k settings))
  /\ (forall k, top_k = Some k -> k <> 0 -> len results <= Z.max 0 k).
Proof.
  intros Hpar Hret.
  assert (Hbound : len results <= Z.max 0 (top_k_or_default top_k)).
  { rewrite retrieve_run in Hret. cbv zeta in Hret.
    destruct (encode_provider (calls sys) [query]) as [|qv]; [discriminate|].
    destruct (search (store sys) qv (top_k_or_default top_k)) as [|raw] eqn:Hs;
      [discriminate|].
    injection Hret as <- _.
    pose proof (search_at_most _ _ _ _ Hs) as Hlen.
    pose proof (filter_results_length raw) as Hf.
    pose proof (sorted_desc_length RetrievedChunk.score (filter_results raw)) as Hsl.
    unfold len in *. lia. }
  split; [exact Hbound|]. split.
  - intros [->| ->]; exact Hbound.
  - intros k -> Hk. unfold top_k_or_default in Hbound.
    destruct (Z.eqb_spec k 0); [contradiction|exact Hbound].
Qed.

Lemma answer_run (question : pystr) (sys : Sys F) :
  answer question sys =
    match retrieve question None sys with
    | (inl e, sys') => (inl e, sys')
    | (inr [], sys') => (inr (insufficient_information, []), sys')
    | (inr (r :: rs), sys') =>
        let numbered := enumerate 1 (r :: rs) in
        let prompt :=
          build_prompt question
            (join [10%N; 10%N] (map (fun p => context_part (fst p) (snd p)) numbered)) in
        (match generate_provider (calls sys') prompt with
         | inl e => inl e
         | inr reply => inr (reply, map (fun p => citation (fst p) (snd p)) numbered)
         end,
         mkSys (store sys') (disk sys') (calls sys' ++ [GenerateCall prompt]))
    end.
Proof.
  unfold answer, bind.
  destruct (retrieve question None sys) as [[e|[|r rs]] sys']; try reflexivity.
  unfold llm_generate, ret.
  destruct (generate_provider _ _); reflexivity.
Qed.

(** X21. Asking a question never changes the vector store or the index
    directory, whatever the outcome; the embedder is called once, with
    the question alone, and the generator at most once, after it. *)
Theorem answer_effects (question : pystr) (sys : Sys F) :
  snd (retrieve question None sys)
  = mkSys (store sys) (disk sys) (calls sys ++ [EncodeCall [question]])
  /\ store (snd (answer question sys)) = store sys
  /\ disk (snd (answer question sys)) = disk sys
  /\ (calls (snd (answer question sys)) = calls sys ++ [EncodeCall [question]]
      \/ exists prompt,
           calls (snd (answer question sys))
           = calls sys ++ [EncodeCall [question]; GenerateCall prompt]).
Proof.
  assert (Hretr : snd (retrieve question None sys)
                  = mkSys (store sys) (disk sys) (calls sys ++ [EncodeCall [question]])).
  { rewrite retrieve_run. cbv zeta.
    destruct (encode_provider _ _); [reflexivity|].
    destruct (search _ _ _); reflexivity. }
  split; [exact Hretr|].
  rewrite answer_run.
  destruct (retrieve question None sys) as [[e|[|r rs]] sys']; cbn in Hretr; subst sys';
    cbn; try (repeat split; left; reflexivity).
  repeat split. right. eexists. rewrite <- app_assoc. reflexivity.
Qed.

Lemma enumerate_fst {A} (i : Z) (l : list A) :
  map fst (enumerate i l) = map (fun k => i + Z.of_nat k) (seq 0 (length l)).
Proof.
  revert i. induction l as [|x r IH]; intros i; cbn [enumerate map length seq];
    [reflexivity|].
  rewrite IH. cbn [fst]. f_equal; [lia|].
  rewrite <- seq_shift, map_map. apply map_ext. intros k. lia.
Qed.

Lemma enumerate_snd {A} (i : Z) (l : list A) : map snd (enumerate i l) = l.
Proof.
  revert i. induction l as [|x r IH]; intros i; cbn; [reflexivity|].
  rewrite IH. reflexivity.
Qed.

(** X22. When retrieval returns chunks and the generator replies,
    [answer] returns the reply as it is, with one citation per
    retrieved chunk, in order: ranks 1, 2, ..., the source file of the
    chunk, and its score rounded to four digits.  The generator was
    called once, with the prompt built from the question and the
    chunks; when it fails, so does [answer]. *)
Theorem answer_with_context (question : pystr) (sys sys' : Sys F)
    (r : RetrievedChunk.t F) (rs : list (RetrievedChunk.t F)) :
  retrieve question None sys = (inr (r :: rs), sys') ->
  exists prompt,
    prompt = build_prompt question
               (join [10%N; 10%N]
                  (map (fun p => context_part (fst p) (snd p)) (enumerate 1 (r :: rs))))
    /\ snd (answer question sys)
       = mkSys (store sys') (disk sys') (calls sys' ++ [GenerateCall prompt])
    /\ (forall e, generate_provider (calls sys') prompt = inl e ->
          fst (answer question sys) = inl e)
    /\ (forall reply, generate_provider (calls sys') prompt = inr reply ->
          exists citations,
            fst (answer question sys) = inr (reply, citations)
            /\ map Citation.rank citations
               = map (fun k => 1 + Z.of_nat k) (seq 0 (length (r :: rs)))
            /\ map Citation.source citations
               = map RetrievedChunk.source_file (r :: rs)
            /\ map Citation.score citations
               = map (fun c => round4 (RetrievedChunk.score c)) (r :: rs)).
Proof.
  intros Hret. eexists. split; [reflexivity|].
  rewrite answer_run, Hret. cbv zeta. split; [reflexivity|]. split.
  - intros e ->. reflexivity.
  - intros reply ->. eexists. split; [reflexivity|].
    rewrite !map_map. cbn [citation Citation.rank Citation.source Citation.score].
    split; [|split].
    + rewrite <- (enumerate_fst 1 (r :: rs)). reflexivity.
    + transitivity (map RetrievedChunk.source_file (map snd (enumerate 1 (r :: rs))));
        [rewrite map_map; reflexivity|rewrite enumerate_snd; reflexivity].
    + transitivity (map (fun c => round4 (RetrievedChunk.score c))
                        (map snd (enumerate 1 (r :: rs))));
        [rewrite map_map; reflexivity|rewrite enumerate_snd; reflexivity].
Qed.
End ServicesMore.

Section IngestionMore.
Context {F : Type} `{Score F} `{Knn F} {env : Env F}.

(** [ingest_path] unfolded, stage by stage. *)
Lemma ingest_path_run (file_path : Path) (sys : Sys F) :
  ingest_path file_path sys =
    match load_text file_path with
    | inl e => (inl e, sys)
    | inr raw_text =>
        match chunk_document chunker (clean raw_text) (name file_path) with
        | inl e => (inl e, sys)
        | inr [] => (inl (EmptyDocumentError (name file_path)), sys)
        | inr (c :: cs) =>
            let chunks := c :: cs in
            let calls' := calls sys ++ [EncodeCall (map text chunks)] in
            match encode_provider (calls sys) (map text chunks) with
            | inl e => (inl e, mkSys (store sys) (disk sys) calls')
            | inr embeddings =>
                match add (store sys) embeddings chunks with
                | (inl e, st) => (inl e, mkSys st (disk sys) calls')
                | (inr _, st) =>
                    (inr (mkIngestionResult (name file_path) (len chunks)),
                     mkSys st (save st (disk sys)) calls')
                end
            end
        end
    end.
Proof.
  unfold ingest_path, bind, lift, raise.
  destruct (load_text file_path) as [e|raw]; [reflexivity|].
  destruct (chunk_document chunker (clean raw) (name file_path)) as [e|[|c cs]];
    try reflexivity.
  unfold embedder_encode, store_add, store_save, ret. cbv zeta.
  destruct (encode_provider _ _) as [e|emb]; [reflexivity|]. cbn.
  destruct (add (store sys) emb (c :: cs)) as [[e|[]] st]; reflexivity.
Qed.

(** X23. An ingestion that goes through: the text is read, cleaned and
    chunked into at least one chunk, the embedder returns an array and
    [add] accepts it.  Then [ingest_path] returns the file name and the
    number of chunks, which is positive and is the number of vectors
    the index gained; the embedder was called once, with the texts of
    the chunks in order; and the index on disk is the index in memory:
    a fresh store with the same paths loads exactly it. *)
Theorem ingest_path_indexes_and_persists (file_path : Path) (sys : Sys F)
    (raw_text : pystr) (chunks : list Chunk) (embeddings : ndarray F)
    (st : FaissVectorStore F) :
  load_text file_path = inr raw_text ->
  chunk_document chunker (clean raw_text) (name file_path) = inr chunks ->
  chunks <> [] ->
  encode_provider (calls sys) (map text chunks) = inr embeddings ->
  add (store sys) embeddings chunks = (inr tt, st) ->
  ingest_path file_path sys
  = (inr (mkIngestionResult (name file_path) (len chunks)),
     mkSys st (save st (disk sys)) (calls sys ++ [EncodeCall (map text chunks)]))
  /\ 0 < len chunks
  /\ len (vectors st) = len (vectors (store sys)) + len chunks
  /\ len (metadata st) = len (metadata (store sys)) + len chunks
  /\ load (mkStore (index_name st) (index_path st) (meta_path st) None [])
          (save st (disk sys)) = (true, st).
Proof.
  intros Hload Hchunks Hne Henc Hadd.
  destruct chunks as [|c cs]; [contradiction|].
  rewrite ingest_path_run, Hload, Hchunks. cbv zeta. rewrite Henc, Hadd.
  split; [reflexivity|].
  destruct (add_returns _ _ _ _ Hadd)
    as (dim & rows & idx & _ & Hrows & Hidx & _ & Hvec & Hmeta & _).
  split; [unfold len; cbn; lia|].
  split; [rewrite Hvec; unfold len in *; rewrite length_app; lia|].
  split; [rewrite Hmeta; unfold len; rewrite length_app; lia|].
  apply (load_after_save st (disk sys) idx Hidx).
Qed.

(** An ingestion that raises has not touched the index: the array an
    embedder returns is of rank one or two, and [add] then fails
    without a trace. *)
Lemma ingest_path_raises_unchanged `{Hrank : !EmbedderRank F} (file_path : Path) (sys : Sys F)
    (e : exn) :
  fst (ingest_path file_path sys) = inl e ->
  store (snd (ingest_path file_path sys)) = store sys
  /\ disk (snd (ingest_path file_path sys)) = disk sys.
Proof.
  rewrite ingest_path_run.
  destruct (load_text file_path) as [e0|raw]; [auto|].
  destruct (chunk_document chunker (clean raw) (name file_path)) as [e0|[|c cs]];
    [auto|auto|].
  cbv zeta.
  destruct (encode_provider _ _) as [e0|emb] eqn:Henc; [auto|].
  destruct (add (store sys) emb (c :: cs)) as [[e0|[]] st] eqn:Hadd; cbn.
  - intros _. split; [|reflexivity].
    pose proof (add_raise_unchanged (store sys) emb (c :: cs) e0
                  (or_intror (encode_ndim _ _ _ Henc))) as Hsame.
    rewrite Hadd in Hsame. apply Hsame. reflexivity.
  - discriminate.
Qed.

End IngestionMore.

(* ===================================================================== *)
(** ** Batches and the OpenAI embedder *)
(* ===================================================================== *)

Lemma py_slice_window {A : Type} (l : list A) (a b : Z) :
  0 <= a <= len l -> 0 <= b ->
  py_slice l a (a + b) = firstn (Z.to_nat b) (skipn (Z.to_nat a) l).
Proof.
  intros Ha Hb. unfold py_slice, clamp_index.
  destruct (Z.ltb_spec a 0); [lia|]. destruct (Z.ltb_spec (a + b) 0); [lia|].
  rewrite (Z.min_l a) by lia.
  destruct (Z.le_gt_cases (a + b) (len l)) as [Hin|Hout].
  - rewrite Z.min_l by lia. f_equal. lia.
  - rewrite Z.min_r by lia.
    rewrite !take_ge; [reflexivity| |]; rewrite length_drop; unfold len in *; lia.
Qed.

Lemma concat_windows {A : Type} (l : list A) (w m k : nat) :
  concat (map (fun i => firstn w (skipn (i * w) l)) (seq k m))
  = firstn (m * w) (skipn (k * w) l).
Proof.
  revert k. induction m as [|m IH]; intros k; cbn [seq map concat]; [reflexivity|].
  rewrite IH.
  replace (S k * w)%nat with (k * w + w)%nat by lia.
  rewrite <- drop_drop, take_take_drop. f_equal; lia.
Qed.

(** The batches of [batch_items], for a positive batch size. *)
Lemma batch_items_windows {A : Type} (items : list A) (batch_size : Z) :
  0 < batch_size ->
  batch_items items batch_size
  = inr (map (fun i => firstn (Z.to_nat batch_size)
                         (skipn (i * Z.to_nat batch_size) items))
             (seq 0 (Z.to_nat ((len items + batch_size - 1) / batch_size)))).
Proof.
  intros Hb. unfold batch_items, py_range.
  destruct (Z.eqb_spec batch_size 0); [lia|]. f_equal.
  assert (Hcount : range_count 0 (len items) batch_size
                   = (len items + batch_size - 1) / batch_size).
  { unfold range_count. destruct (Z.ltb_spec 0 batch_size); [|lia].
    destruct (Z.ltb_spec 0 (len items)) as [Hpos|Hzero].
    - replace (len items + batch_size - 1) with (len items - 0 - 1 + 1 * batch_size) by lia.
      rewrite Z.div_add by lia. reflexivity.
    - assert (len items = 0) as -> by (unfold len in *; lia).
      rewrite Z.div_small by lia. reflexivity. }
  rewrite Hcount, map_map.
  apply map_ext_in. intros i Hi. apply in_seq in Hi.
  assert (Hq : 0 <= (len items + batch_size - 1) / batch_size)
    by (apply Z.div_pos; unfold len; lia).
  pose proof (Z.mul_div_le (len items + batch_size - 1) batch_size Hb) as Hle.
  assert (Hi' : Z.of_nat i + 1 <= (len items + batch_size - 1) / batch_size) by lia.
  assert (Hin : Z.of_nat i * batch_size <= len items) by nia.
  replace (0 + Z.of_nat i * batch_size + batch_size)
    with (Z.of_nat i * batch_size + batch_size) by lia.
  replace (0 + Z.of_nat i * batch_size) with (Z.of_nat i * batch_size) by lia.
  rewrite py_slice_window by lia. f_equal. f_equal. nia.
Qed.

Lemma batch_items_concat {A : Type} (items : list A) (batch_size : Z) :
  0 < batch_size ->
  exists batches, batch_items items batch_size = inr batches /\ concat batches = items.
Proof.
  intros Hb. eexists. split; [apply batch_items_windows; exact Hb|].
  rewrite concat_windows. cbn [Nat.mul skipn].
  apply take_ge.
  pose proof (Z.mul_succ_div_gt (len items + batch_size - 1) batch_size Hb) as Hgt.
  assert (Hq : 0 <= (len items + batch_size - 1) / batch_size)
    by (apply Z.div_pos; unfold len; lia).
  unfold len in *. nia.
Qed.

(** X25. With a positive batch size, [batch_items] cuts the list into
    consecutive batches: glued together in order they give the list
    back; no batch is empty or longer than the batch size; all but the
    last have exactly the batch size; and there are
    [ceil(len(items) / batch_size)] of them.  With a batch size of zero
    it raises [ValueError]; with a negative one it yields no batch at
    all, whatever the items. *)
Theorem batch_items_partition {A : Type} (items : list A) (batch_size : Z) :
  (0 < batch_size ->
   exists batches,
     batch_items items batch_size = inr batches
     /\ concat batches = items
     /\ Forall (fun b => 0 < len b <= batch_size) batches
     /\ (forall (k : nat) b, batches !! k = Some b ->
           (S k < length batches)%nat -> len b = batch_size)
     /\ len batches = (len items + batch_size - 1) / batch_size)
  /\ (batch_size = 0 -> exists e, batch_items items batch_size = inl e)
  /\ (batch_size < 0 -> batch_items items batch_size = inr []).
Proof.
  split; [|split].
  - intros Hb.
    destruct (batch_items_concat items batch_size Hb) as (batches & Hrun & Hcat).
    exists batches. split; [exact Hrun|]. split; [exact Hcat|].
    rewrite batch_items_windows in Hrun by exact Hb. injection Hrun as <-.
    set (n := Z.to_nat ((len items + batch_size - 1) / batch_size)).
    set (w := Z.to_nat batch_size).
    assert (Hq : 0 <= (len items + batch_size - 1) / batch_size)
      by (apply Z.div_pos; unfold len; lia).
    pose proof (Z.mul_div_le (len items + batch_size - 1) batch_size Hb) as Hle.
    assert (Hlook : forall (k : nat) b,
               map (fun i => firstn w (skipn (i * w) items)) (seq 0 n) !! k = Some b ->
               (k < n)%nat /\ b = firstn w (skipn (k * w) items)).
    { intros k b Hk. change (map ?f ?l) with (f <$> l) in Hk.
      rewrite list_lookup_fmap in Hk.
      destruct (seq 0 n !! k) as [j|] eqn:Ej; [|discriminate].
      apply lookup_seq in Ej as [-> Hk']. cbn in Hk. injection Hk as <-. auto. }
    split; [|split].
    + apply Forall_lookup. intros k b Hk. apply Hlook in Hk as [Hk ->].
      unfold len. rewrite length_take, length_drop.
      unfold n, w, len in *. nia.
    + intros k b Hk Hlast. apply Hlook in Hk as [Hk ->].
      rewrite length_map, length_seq in Hlast.
      unfold len. rewrite length_take, length_drop.
      unfold n, w, len in *. nia.
    + unfold len at 1. rewrite length_map, length_seq. unfold n. lia.
  - intros ->. unfold batch_items, py_range. cbn. eauto.
  - intros Hneg. unfold batch_items, py_range.
    destruct (Z.eqb_spec batch_size 0); [lia|].
    unfold range_count.
    destruct (Z.ltb_spec 0 batch_size); [lia|].
    destruct (Z.ltb_spec (len items) 0); [unfold len in *; lia|]. reflexivity.
Qed.

Section EmbedderProperties.
Context {F : Type}.

Lemma embed_group_app (_embed_one : pystr -> exn + list F) (a b : list pystr) :
  embed_group _embed_one (a ++ b)
  = match embed_group _embed_one a with
    | inl e => inl e
    | inr va => match embed_group _embed_one b with
                | inl e => inl e
                | inr vb => inr (va ++ vb)
                end
    end.
Proof.
  induction a as [|x a IH]; cbn.
  - destruct (embed_group _embed_one b); reflexivity.
  - destruct (_embed_one x); [reflexivity|]. rewrite IH.
    destruct (embed_group _embed_one a); [reflexivity|].
    destruct (embed_group _embed_one b); reflexivity.
Qed.

Lemma encode_groups_concat (_embed_one : pystr -> exn + list F)
    (groups : list (list pystr)) (vectors : list (list F)) :
  encode_groups _embed_one groups vectors
  = match embed_group _embed_one (concat groups) with
    | inl e => inl e
    | inr vs => inr (vectors ++ vs)
    end.
Proof.
  revert vectors. induction groups as [|g rest IH]; intros vectors; cbn.
  - rewrite app_nil_r. reflexivity.
  - rewrite embed_group_app.
    destruct (embed_group _embed_one g) as [e|vs]; [reflexivity|].
    rewrite IH. destruct (embed_group _embed_one (concat rest)); [reflexivity|].
    rewrite app_assoc. reflexivity.
Qed.

Lemma OpenAIEmbedder_encode_run (_embed_one : pystr -> exn + list F)
    (texts : list pystr) :
  OpenAIEmbedder_encode _embed_one texts
  = match embed_group _embed_one texts with
    | inl e => inl e
    | inr vectors => np_asarray vectors
    end.
Proof.
  unfold OpenAIEmbedder_encode.
  destruct (batch_items_concat texts 64) as (groups & -> & Hcat); [lia|].
  rewrite encode_groups_concat, Hcat.
  destruct (embed_group _embed_one texts); reflexivity.
Qed.

(** What [OpenAIEmbedder.encode] returns is of rank one or two. *)
Lemma OpenAIEmbedder_encode_ndim (_embed_one : pystr -> exn + list F)
    (texts : list pystr) (a : ndarray F) :
  OpenAIEmbedder_encode _embed_one texts = inr a -> ndim a <= 2.
Proof.
  rewrite OpenAIEmbedder_encode_run.
  destruct (embed_group _embed_one texts) as [e|[|v vs]]; [discriminate| |].
  - intros [= <-]. cbn. lia.
  - unfold np_asarray. destruct (forallb _ _); [|discriminate].
    intros [= <-]. cbn. lia.
Qed.

(** X26. The batches of 64 do not show in what [OpenAIEmbedder.encode]
    returns: it is the array of the embeddings of the texts one by one,
    in order, and when an embedding fails, the error of the first text
    that fails. *)
Theorem OpenAIEmbedder_encode_unbatched (_embed_one : pystr -> exn + list F)
    (texts : list pystr) :
  OpenAIEmbedder_encode _embed_one texts
  = match embed_group _embed_one texts with
    | inl e => inl e
    | inr vectors => np_asarray vectors
    end.
Proof. apply OpenAIEmbedder_encode_run. Qed.

Lemma embed_group_rows (_embed_one : pystr -> exn + list F) (texts : list pystr)
    (dim : Z) :
  Forall (fun t => exists v, _embed_one t = inr v /\ len v = dim) texts ->
  exists rows,
    embed_group _embed_one texts = inr rows
    /\ Forall2 (fun t v => _embed_one t = inr v) texts rows
    /\ Forall (fun v => len v = dim) rows.
Proof.
  induction 1 as [|t ts (v & Hv & Hd) _ (rows & Hrows & Hall & Hdim)]; cbn.
  - exists []. repeat split; constructor.
  - rewrite Hv, Hrows. exists (v :: rows). repeat split; constructor; assumption.
Qed.

(** X27. When every text has an embedding, all of one width [dim],
    [OpenAIEmbedder.encode] of a list of texts that is not empty
    returns the matrix with one row per text, row [i] being the
    embedding of text [i]; it has the number of rows [add] asks for.
    For no text at all it returns the empty array of rank one, which
    [add] rejects with [IndexError], even with no chunk. *)
Theorem OpenAIEmbedder_encode_shape (_embed_one : pystr -> exn + list F)
    (texts : list pystr) (dim : Z) :
  (Forall (fun t => exists v, _embed_one t = inr v /\ len v = dim) texts ->
   texts <> [] ->
   exists rows,
     OpenAIEmbedder_encode _embed_one texts = inr (Arr2 dim rows)
     /\ Forall2 (fun t v => _embed_one t = inr v) texts rows
     /\ ndarray_len (Arr2 dim rows) = len texts)
  /\ OpenAIEmbedder_encode _embed_one [] = inr (Arr1 [])
  /\ (forall self : FaissVectorStore F,
        add self (Arr1 []) [] = (inl IndexError, self)).
Proof.
  split; [|split].
  - intros Hall Hne.
    destruct (embed_group_rows _ _ _ Hall) as (rows & Hrows & Hpair & Hdim).
    exists rows. rewrite OpenAIEmbedder_encode_run, Hrows.
    pose proof (Forall2_length _ _ _ Hpair) as Hlen.
    destruct rows as [|v rows]; [destruct texts; [contradiction|discriminate]|].
    split; [|split; [exact Hpair|cbn; unfold len; lia]].
    unfold np_asarray.
    assert (Hv : len v = dim) by (apply Forall_inv in Hdim; exact Hdim).
    assert (Hsame : forallb (fun r => (length r =? length v)%nat) (v :: rows) = true).
    { apply forallb_forall. intros r Hr. apply Nat.eqb_eq.
      apply list_elem_of_In in Hr.
      pose proof (proj1 (Forall_forall _ _) Hdim r Hr) as Hr'.
      unfold len in *. lia. }
    rewrite Hsame, Hv. reflexivity.
  - reflexivity.
  - intros self. reflexivity.
Qed.
End EmbedderProperties.

(* ===================================================================== *)
(** ** Validation and upload *)
(* ===================================================================== *)

Section UploadProperties.
Context {F : Type} `{Score F} `{Knn F} {env : Env F}.

Lemma is_allowed_file_spec (file_name : Path) :
  is_allowed_file file_name = true
  <-> lower (suffix file_name) = lit ".pdf"
      \/ lower (suffix file_name) = lit ".txt"
      \/ lower (suffix file_name) = lit ".docx".
Proof.
  unfold is_allowed_file, ALLOWED_EXTENSIONS.
  rewrite bool_decide_eq_true, !elem_of_cons, elem_of_nil. tauto.
Qed.

Lemma validate_file_spec (max_file_size_mb : Z) (file_name : Path) (file_size : Z) :
  validate_file max_file_size_mb file_name file_size = inr tt
  <-> is_allowed_file file_name = true
      /\ file_size <= max_file_size_mb * 1024 * 1024.
Proof.
  unfold validate_file, mb_to_bytes.
  destruct (is_allowed_file file_name); cbn.
  - destruct (Z.ltb_spec (max_file_size_mb * 1024 * 1024) file_size); split.
    + discriminate.
    + intros [_ ?]. lia.
    + intros _. split; [reflexivity|lia].
    + reflexivity.
  - split; [discriminate|]. intros [? _]. discriminate.
Qed.

(** A file whose type is allowed is read by one of the three readers. *)
Lemma load_text_allowed (file_name : Path) (dir : pystr) :
  is_allowed_file file_name = true ->
  let saved := mkPath dir (name file_name) in
  load_text saved = _read_pdf saved
  \/ load_text saved = read_text saved
  \/ load_text saved = _read_docx saved.
Proof.
  intros Hok. apply is_allowed_file_spec in Hok. cbv zeta. unfold load_text.
  change (suffix (mkPath dir (name file_name))) with (suffix file_name).
  destruct Hok as [E|[E|E]]; rewrite E.
  - left. reflexivity.
  - right. left. reflexivity.
  - right. right. reflexivity.
Qed.

(** X28. [validate_file] accepts a file exactly when its suffix, in
    lower case, is [.pdf], [.txt] or [.docx] and its size is at most
    [max_file_size_mb * 1024 * 1024] bytes (a file of exactly that size
    passes); the type is checked first.  A file that passes is never
    refused later as an unsupported extension: [load_text] hands the
    saved file to one of the three readers. *)
Theorem validate_file_accepts_iff (max_file_size_mb : Z) (file_name : Path)
    (file_size : Z) :
  (validate_file max_file_size_mb file_name file_size = inr tt
   <-> lower (suffix file_name) ∈ ALLOWED_EXTENSIONS
       /\ file_size <= max_file_size_mb * 1024 * 1024)
  /\ (is_allowed_file file_name = false ->
      validate_file max_file_size_mb file_name file_size
      = inl (FileValidationError
               (lit "Unsupported file type: " ++ suffix file_name
                  ++ lit ". Allowed: PDF, TXT, DOCX")))
  /\ (validate_file max_file_size_mb file_name file_size = inr tt ->
      forall dir,
        load_text (mkPath dir (name file_name)) = _read_pdf (mkPath dir (name file_name))
        \/ load_text (mkPath dir (name file_name)) = read_text (mkPath dir (name file_name))
        \/ load_text (mkPath dir (name file_name)) = _read_docx (mkPath dir (name file_name))).
Proof.
  split; [|split].
  - rewrite validate_file_spec. unfold is_allowed_file.
    rewrite bool_decide_eq_true. reflexivity.
  - intros Hno. unfold validate_file. rewrite Hno. reflexivity.
  - intros Hok dir. apply validate_file_spec in Hok as [Hok _].
    apply (load_text_allowed file_name dir Hok).
Qed.

(** Reading the uploads changes nothing of how strings are lowered. *)
Lemma lower_reading_env (codecs : Codecs) (uploads : gmap pystr (list Byte.byte))
    (s : pystr) :
  lower (env := reading_env codecs uploads) s = lower s.
Proof. reflexivity. Qed.

End UploadProperties.

(* ===================================================================== *)
(** ** The further properties at work *)
(* ===================================================================== *)

Lemma chunk_document_chunks_within_text_witness :
  Forall (fun c => 0 <= start_char c < end_char c /\ end_char c <= len Sample.small_text)
         Sample.chunks.
Proof.
  eapply Forall_impl.
  - apply (chunk_document_chunks_within_text Sample.small_chunker Sample.small_text
             (lit "doc") Sample.chunks).
    + cbn. lia.
    + vm_compute. reflexivity.
  - cbn beta. intros c (Hs & He & _). split; assumption.
Defined.

Lemma chunk_document_ids_witness : NoDup (map chunk_id Sample.chunks).
Proof.
  apply (chunk_document_ids Sample.small_chunker Sample.small_text (lit "doc")
           Sample.chunks).
  vm_compute. reflexivity.
Defined.

Lemma chunk_document_starts_ascending_witness :
  StronglySorted Z.lt (map start_char Sample.chunks).
Proof.
  apply (chunk_document_starts_ascending Sample.small_chunker Sample.small_text
           (lit "doc") Sample.chunks).
  vm_compute. reflexivity.
Defined.

Lemma chunk_document_only_last_reaches_end_witness :
  exists c, Sample.chunks !! 0%nat = Some c
    /\ end_char c = start_char c + 3 /\ end_char c < len Sample.small_text.
Proof.
  assert (Hrun : chunk_document Sample.small_chunker Sample.small_text (lit "doc")
                 = inr Sample.chunks) by (vm_compute; reflexivity).
  destruct (Sample.chunks !! 0%nat) as [c|] eqn:Hc; [|vm_compute in Hc; discriminate Hc].
  exists c. split; [reflexivity|].
  apply (chunk_document_only_last_reaches_end Sample.small_chunker Sample.small_text
           (lit "doc") Sample.chunks Hrun 0%nat c Hc).
  vm_compute. lia.
Defined.

Lemma chunk_document_blank_text_witness :
  chunk_document Sample.small_chunker (lit "   ") (lit "doc") = inr [].
Proof.
  apply chunk_document_blank_text.
  - cbn. lia.
  - reflexivity.
Defined.

Lemma chunk_document_covers_text_witness :
  exists (n : nat) (chunks : list Chunk),
    chunk_document (mkTextChunker 4 1) (lit "abcdefghij") (lit "doc") = inr chunks
    /\ length chunks = S n.
Proof.
  destruct (chunk_document_covers_text (mkTextChunker 4 1) (lit "abcdefghij") (lit "doc"))
    as (n & chunks & Hrun & Hmap & _).
  - cbn. lia.
  - vm_compute. reflexivity.
  - intros i Hi. cbn [chunk_size overlap] in *.
    change (len (lit "abcdefghij")) with 10 in *.
    destruct i as [|[|[|[|i]]]]; try (vm_compute; reflexivity). lia.
  - exists n, chunks. split; [exact Hrun|].
    rewrite Hmap, length_map, length_seq. reflexivity.
Defined.

Lemma clean_normal_form_witness :
  single_spaced (clean (lit "  a   b  ")) = true.
Proof. apply (clean_normal_form (lit "  a   b  ")). Defined.

Lemma clean_then_chunk_empty_iff_witness :
  chunk_document (mkTextChunker 700 120) (clean [32%N; 0%N; 8203%N; 10%N]) (lit "doc")
  = inr [].
Proof.
  apply (clean_then_chunk_empty_iff (mkTextChunker 700 120)).
  - cbn. lia.
  - cbn. lia.
  - vm_compute. reflexivity.
Defined.

Lemma add_appends_witness :
  vectors (snd (add Demo.fresh (Arr2 2 [[1 # 1; 0 # 1]%Q]) [Demo.chunk_of 0 "alpha"]))
  = vectors Demo.fresh ++ [[1 # 1; 0 # 1]%Q].
Proof.
  destruct (add_appends Demo.fresh
              (snd (add Demo.fresh (Arr2 2 [[1 # 1; 0 # 1]%Q]) [Demo.chunk_of 0 "alpha"]))
              (Arr2 2 [[1 # 1; 0 # 1]%Q]) [Demo.chunk_of 0 "alpha"] eq_refl)
    as (dim & rows & idx & Earr & _ & _ & _ & Hvec & _).
  injection Earr as _ <-. exact Hvec.
Defined.

Lemma add_failure_keeps_entries_witness :
  index (snd (add Demo.fresh (ArrN 1 2 2 []) [Demo.chunk_of 0 "alpha"]))
  = Some (mkIndexFlatIP 2 [])
  /\ metadata (snd (add Demo.fresh (ArrN 1 2 2 []) [Demo.chunk_of 0 "alpha"])) = [].
Proof.
  destruct (add_failure_keeps_entries Demo.fresh
              (snd (add Demo.fresh (ArrN 1 2 2 []) [Demo.chunk_of 0 "alpha"]))
              (ArrN 1 2 2 []) [Demo.chunk_of 0 "alpha"]
              (ValueError (lit "too many values to unpack (expected 2)")) eq_refl)
    as (_ & Hmeta & _ & _ & _ & _ & Hidx).
  split; [|exact Hmeta].
  destruct Hidx as (n1 & msg & Hshape & Hindex & _).
  - reflexivity.
  - vm_compute. reflexivity.
  - reflexivity.
  - injection Hshape as <-. exact Hindex.
Defined.

Lemma lifecycle_parallel_witness :
  length (vectors Demo.seven) = length (metadata Demo.seven).
Proof.
  refine (proj1 (lifecycle_parallel (env := Demo.env) None Demo.seven Demo.empty_disk _)).
  unfold Demo.seven. apply life_add. apply life_init.
Defined.

Lemma lifecycle_round_trip_witness :
  search (snd (load (FaissVectorStore_init (env := Demo.env) (Some (index_name Demo.seven)))
                    (save Demo.seven Demo.empty_disk)))
         (Arr1 [1 # 1; 0 # 1]%Q) 5
  = search Demo.seven (Arr1 [1 # 1; 0 # 1]%Q) 5.
Proof.
  apply (lifecycle_round_trip (env := Demo.env) None).
  unfold Demo.seven. apply life_add. apply life_init.
Defined.

Lemma load_missing_artifact_witness :
  load Demo.seven Demo.empty_disk = (false, Demo.seven).
Proof.
  refine (proj1 (load_missing_artifact Demo.seven Demo.empty_disk) _).
  left. vm_compute. reflexivity.
Defined.

Lemma named_indexes_independent_witness :
  load (FaissVectorStore_init (env := Demo.env) (Some (lit "b")))
       (save (snd (add (FaissVectorStore_init (env := Demo.env) (Some (lit "a")))
                       (Arr2 2 [[1 # 1; 0 # 1]%Q]) [Demo.chunk_of 0 "alpha"]))
             Demo.empty_disk)
  = load (FaissVectorStore_init (env := Demo.env) (Some (lit "b"))) Demo.empty_disk.
Proof.
  refine (proj1 (named_indexes_independent (env := Demo.env) (lit "a") (lit "b")
                   _ _ Demo.empty_disk _ _ _ _ _)).
  - split; [discriminate|]. apply (bool_decide_unpack (47%N ∉ _)). vm_compute. exact I.
  - split; [discriminate|]. apply (bool_decide_unpack (47%N ∉ _)). vm_compute. exact I.
  - discriminate.
  - apply built_add. apply built_init.
  - apply built_init.
Defined.

Lemma search_first_is_best_witness :
  exists best others,
    search Demo.seven (Arr1 [1 # 1; 0 # 1]%Q) 3 = inr (best :: others)
    /\ forall (i : nat) v, vectors Demo.seven !! i = Some v ->
         score_ge (snd best) (inner [1 # 1; 0 # 1]%Q v) = true.
Proof.
  destruct (search Demo.seven (Arr1 [1 # 1; 0 # 1]%Q) 3) as [e|[|best others]] eqn:E.
  - vm_compute in E. discriminate E.
  - vm_compute in E. discriminate E.
  - exists best, others. split; [reflexivity|].
    apply (search_first_is_best Demo.seven
             (mkIndexFlatIP 2 [[1 # 2; 0 # 1]; [12 # 100; 0 # 1]; [9 # 10; 0 # 1];
                               [3 # 10; 0 # 1]; [1 # 1; 0 # 1]; [7 # 10; 0 # 1];
                               [4 # 10; 0 # 1]]%Q)
             (Arr1 [1 # 1; 0 # 1]%Q) 3 [1 # 1; 0 # 1]%Q best others).
    + reflexivity.
    + vm_compute. lia.
    + reflexivity.
    + reflexivity.
    + exact E.
Defined.

Lemma search_all_entries_witness :
  exists results,
    search Demo.seven (Arr1 [1 # 1; 0 # 1]%Q) 10 = inr results
    /\ Permutation results
         (zip_with (fun m v => (m, inner [1 # 1; 0 # 1]%Q v))
                   (metadata Demo.seven) (vectors Demo.seven)).
Proof.
  destruct (search Demo.seven (Arr1 [1 # 1; 0 # 1]%Q) 10) as [e|results] eqn:E.
  - vm_compute in E. discriminate E.
  - exists results. split; [reflexivity|].
    apply (search_all_entries Demo.seven
             (mkIndexFlatIP 2 [[1 # 2; 0 # 1]; [12 # 100; 0 # 1]; [9 # 10; 0 # 1];
                               [3 # 10; 0 # 1]; [1 # 1; 0 # 1]; [7 # 10; 0 # 1];
                               [4 # 10; 0 # 1]]%Q)
             (Arr1 [1 # 1; 0 # 1]%Q) 10 [1 # 1; 0 # 1]%Q results).
    + reflexivity.
    + vm_compute. lia.
    + reflexivity.
    + reflexivity.
    + vm_compute. discriminate.
    + exact E.
Defined.

Lemma retrieve_keeps_search_order_witness :
  exists raw_results,
    search Demo.seven (Arr2 2 [[1 # 1; 0 # 1]%Q]) 5 = inr raw_results
    /\ fst (retrieve (env := Demo.env) (lit "q") None
                     (Demo.sys_of Demo.seven Demo.empty_disk))
       = inr (filter_results (env := Demo.env) raw_results).
Proof.
  destruct (search Demo.seven (Arr2 2 [[1 # 1; 0 # 1]%Q]) 5) as [e|raw] eqn:E.
  - vm_compute in E. discriminate E.
  - exists raw. split; [reflexivity|].
    apply (retrieve_keeps_search_order (env := Demo.env) (lit "q") None
             (Demo.sys_of Demo.seven Demo.empty_disk) (Arr2 2 [[1 # 1; 0 # 1]%Q]) raw).
    + reflexivity.
    + reflexivity.
    + exact E.
Defined.

Lemma retrieve_at_most_top_k_witness :
  exists results sys',
    retrieve (env := Demo.env) (lit "q") (Some 2)
             (Demo.sys_of Demo.seven Demo.empty_disk) = (inr results, sys')
    /\ len results <= 2.
Proof.
  destruct (retrieve (env := Demo.env) (lit "q") (Some 2)
              (Demo.sys_of Demo.seven Demo.empty_disk)) as [[e|results] sys'] eqn:Hret.
  - vm_compute in Hret. discriminate Hret.
  - exists results, sys'. split; [reflexivity|].
    destruct (retrieve_at_most_top_k (env := Demo.env) (lit "q") (Some 2)
                (Demo.sys_of Demo.seven Demo.empty_disk) sys' results)
      as (_ & _ & Hk).
    + reflexivity.
    + exact Hret.
    + apply (Hk 2); [reflexivity|lia].
Defined.

Lemma answer_with_context_witness :
  exists citations,
    fst (answer (env := Demo.env) (lit "alpha") (Demo.sys_of Demo.twice Demo.empty_disk))
    = inr (lit "generated", citations)
    /\ length citations = 2%nat.
Proof.
  destruct (retrieve (env := Demo.env) (lit "alpha") None
              (Demo.sys_of Demo.twice Demo.empty_disk)) as [[e|[|r rs]] sys'] eqn:E.
  - vm_compute in E. discriminate E.
  - vm_compute in E. discriminate E.
  - destruct (answer_with_context (env := Demo.env) (lit "alpha")
                (Demo.sys_of Demo.twice Demo.empty_disk) sys' r rs E)
      as (prompt & _ & _ & _ & Hreply).
    destruct (Hreply (lit "generated") eq_refl) as (citations & Hans & Hrank & _).
    exists citations. split; [exact Hans|].
    apply (f_equal (@length Z)) in Hrank.
    rewrite !length_map, length_seq in Hrank. rewrite Hrank.
    vm_compute in E. injection E as <- <- _. reflexivity.
Defined.

Lemma ingest_path_indexes_and_persists_witness :
  fst (ingest_path (env := Sample.env) (mkPath (lit "data/uploads") (lit "a.txt"))
                   (Demo.sys_of Demo.fresh Demo.empty_disk))
  = inr (mkIngestionResult (lit "a.txt") 1).
Proof.
  destruct (ingest_path_indexes_and_persists (env := Sample.env)
              (mkPath (lit "data/uploads") (lit "a.txt"))
              (Demo.sys_of Demo.fresh Demo.empty_disk)
              (lit "hello world")
              [mkChunk (lit "a.txt-0") (lit "hello world") (lit "a.txt") 0 11]
              (Arr2 2 [[1 # 1; 0 # 1]%Q])
              (snd (add Demo.fresh (Arr2 2 [[1 # 1; 0 # 1]%Q])
                        [mkChunk (lit "a.txt-0") (lit "hello world") (lit "a.txt") 0 11])))
    as [Hrun _].
  - vm_compute. reflexivity.
  - vm_compute. reflexivity.
  - discriminate.
  - reflexivity.
  - reflexivity.
  - rewrite Hrun. reflexivity.
Defined.

(** The embedder of the sample application returns matrices. *)
Lemma Demo_embedder_rank : EmbedderRank Q (env := Demo.env).
Proof. intros calls texts a [= <-]. cbn. lia. Qed.


Lemma batch_items_partition_witness :
  exists batches,
    batch_items [1; 2; 3; 4; 5] 2 = inr batches /\ concat batches = [1; 2; 3; 4; 5].
Proof.
  destruct (batch_items_partition [1; 2; 3; 4; 5] 2) as (Hpos & _ & _).
  destruct Hpos as (batches & Hrun & Hcat & _); [lia|].
  exists batches. split; assumption.
Defined.

Lemma OpenAIEmbedder_encode_shape_witness :
  exists rows,
    OpenAIEmbedder_encode Sample.embed_one [lit "a"; lit "bc"] = inr (Arr2 2 rows).
Proof.
  destruct (OpenAIEmbedder_encode_shape Sample.embed_one [lit "a"; lit "bc"] 2)
    as (Hrows & _ & _).
  destruct Hrows as (rows & Hrun & _).
  - repeat constructor; eexists; split; reflexivity.
  - discriminate.
  - exists rows. exact Hrun.
Defined.

Lemma validate_file_accepts_iff_witness :
  validate_file (env := Demo.env) 10 (mkPath [] (lit "Report.PDF")) 10485760 = inr tt.
Proof.
  apply (validate_file_accepts_iff (env := Demo.env) 10 (mkPath [] (lit "Report.PDF"))
           10485760).
  split; [|lia].
  apply list_elem_of_In. vm_compute. left. reflexivity.
Defined.

